(** * Panopto Smart Notes: caption accumulator and cumulative notes engine

    A shallow embedding of the content script (caption capture, chunking) and
    of the service worker (notes normalisation, quality merge, synthesis
    queue), with the properties of the written specification stated and
    settled against it.

    JavaScript strings are sequences of UTF-16 code units and are modelled as
    [list N].  JavaScript values that reach the engine from storage or from a
    model reply are modelled by the JSON-shaped type [value]. *)

From Stdlib Require Import String Ascii.
From Stdlib Require Import List ZArith NArith Bool Lia QArith Qabs.
From Stdlib Require Import DecimalString.
Import ListNotations.

Set Implicit Arguments.
Set Warnings "-register-all".
Close Scope Q_scope.

(* ================================================================== *)
(** * JavaScript strings *)
(* ================================================================== *)

Module Js.

Local Open Scope N_scope.

Definition char := N.
Definition jstring := list char.

(** A source literal (ASCII only). *)
Definition lit (s : string) : jstring :=
  map N_of_ascii (list_ascii_of_string s).

Definition SP : char := 32.

Definition char_in (lo hi c : char) : bool := (N.leb lo c && N.leb c hi)%bool.

(** The class [\s] of a regular expression, which is also the set removed by
    [String.prototype.trim]: WhiteSpace and LineTerminator of ECMAScript. *)
Definition is_space (c : char) : bool :=
  (char_in 9 13 c || N.eqb c 32 || N.eqb c 160 || N.eqb c 5760
   || char_in 8192 8202 c || N.eqb c 8232 || N.eqb c 8233 || N.eqb c 8239
   || N.eqb c 8287 || N.eqb c 12288 || N.eqb c 65279)%bool.

Definition is_digit (c : char) : bool := char_in 48 57 c.
Definition is_lower (c : char) : bool := char_in 97 122 c.
Definition is_upper (c : char) : bool := char_in 65 90 c.

Fixpoint eqb (a b : jstring) : bool :=
  match a, b with
  | [], [] => true
  | x :: a', y :: b' => (N.eqb x y && eqb a' b')%bool
  | _, _ => false
  end.

(** Truthiness of a string: non-empty. *)
Definition truthy (s : jstring) : bool :=
  match s with [] => false | _ :: _ => true end.

Fixpoint dropWhile (p : char -> bool) (s : jstring) : jstring :=
  match s with
  | [] => []
  | c :: r => if p c then dropWhile p r else s
  end.

Definition dropEndWhile (p : char -> bool) (s : jstring) : jstring :=
  rev (dropWhile p (rev s)).

(** [s.trim()] *)
Definition trim (s : jstring) : jstring :=
  dropEndWhile is_space (dropWhile is_space s).

(** [s.replace(/\s+/g, ' ')]: every maximal run of white space becomes one
    space.  [in_run] tells that the previous unit was white space. *)
Fixpoint collapse_from (in_run : bool) (s : jstring) : jstring :=
  match s with
  | [] => []
  | c :: r =>
      if is_space c
      then (if in_run then collapse_from true r else SP :: collapse_from true r)
      else c :: collapse_from false r
  end.

Definition collapse_ws (s : jstring) : jstring := collapse_from false s.

(** [s.startsWith(p)] *)
Fixpoint startsWith (s p : jstring) : bool :=
  match p, s with
  | [], _ => true
  | y :: p', x :: s' => (N.eqb x y && startsWith s' p')%bool
  | _ :: _, [] => false
  end.

(** [s.includes(t)] *)
Fixpoint includes (s t : jstring) : bool :=
  (startsWith s t ||
   match s with
   | [] => false
   | _ :: r => includes r t
   end)%bool.

(** [parts.join(sep)] *)
Fixpoint join (sep : jstring) (parts : list jstring) : jstring :=
  match parts with
  | [] => []
  | [p] => p
  | p :: rest => p ++ sep ++ join sep rest
  end.

(** [s.split(/p+/)] for a class [p]: the pieces between maximal runs of
    units of the class; a leading or trailing run leaves an empty piece, as
    in JavaScript. *)
Fixpoint split_runs_from (p : char -> bool) (cur : jstring) (in_run : bool)
  (s : jstring) : list jstring :=
  match s with
  | [] => [rev cur]
  | c :: r =>
      if p c
      then (if in_run then split_runs_from p [] true r
            else rev cur :: split_runs_from p [] true r)
      else split_runs_from p (c :: cur) false r
  end.

Definition split_runs (p : char -> bool) (s : jstring) : list jstring :=
  split_runs_from p [] false s.

(** [s.split(/\s+/)] *)
Definition split_ws (s : jstring) : list jstring := split_runs is_space s.

(** [s.split(' ')] *)
Fixpoint split_sp_from (cur : jstring) (s : jstring) : list jstring :=
  match s with
  | [] => [rev cur]
  | c :: r =>
      if N.eqb c SP then rev cur :: split_sp_from [] r
      else split_sp_from (c :: cur) r
  end.

Definition split_sp (s : jstring) : list jstring := split_sp_from [] s.

(** Membership in a list of strings ([Set.has], [Array.includes]). *)
Definition mem (x : jstring) (l : list jstring) : bool :=
  existsb (eqb x) l.

(** [new Set(l)]: the distinct elements in insertion order. *)
Fixpoint to_set_from (seen : list jstring) (l : list jstring) : list jstring :=
  match l with
  | [] => seen
  | x :: r => if mem x seen then to_set_from seen r
              else to_set_from (seen ++ [x]) r
  end.

Definition to_set (l : list jstring) : list jstring := to_set_from [] l.

(** [l.slice(0, n)] and [l.slice(-n)] for a positive [n]. *)
Definition slice_to {A} (n : nat) (l : list A) : list A := firstn n l.
Definition slice_last {A} (n : nat) (l : list A) : list A :=
  skipn (length l - n)%nat l.

Arguments slice_to {A} n l : simpl never.
Arguments slice_last {A} n l : simpl never.

(** [l[l.length - 1]] *)
Definition last_of {A} (l : list A) : option A :=
  match rev l with
  | x :: _ => Some x
  | [] => None
  end.

(** Assignments to the fields of [l[l.length - 1]]. *)
Definition update_last {A} (f : A -> A) (l : list A) : list A :=
  match rev l with
  | x :: r => rev r ++ [f x]
  | [] => []
  end.

(** ASCII case folding, the comparison a regular expression with the [i]
    flag (and without [u]) applies to an ASCII pattern unit: a unit outside
    ASCII never folds onto an ASCII one. *)
Definition ascii_fold (c : char) : char :=
  if is_upper c then c + 32 else c.

(** ** Shapes of strings, for the proofs *)

(** The first unit, if any, is outside the class [p]. *)
Definition head_not (p : char -> bool) (s : jstring) : bool :=
  match s with
  | [] => true
  | c :: _ => negb (p c)
  end.

(** Every white-space unit is a space and no two are adjacent;
    [prev_space] tells that the unit before the string is white space. *)
Fixpoint collapsed_from (prev_space : bool) (s : jstring) : bool :=
  match s with
  | [] => true
  | c :: r =>
      if is_space c
      then N.eqb c SP && negb prev_space && collapsed_from true r
      else collapsed_from false r
  end.

End Js.

Import Js.

(* ================================================================== *)
(** * JavaScript values *)
(* ================================================================== *)

(** The values the engine receives from session storage and from
    [JSON.parse].  A number is kept as the bit pattern of its IEEE double;
    the functions below only test its type and its truthiness.  An object is
    the list of its own properties; the first binding of a key is the
    property. *)
Inductive value : Type :=
| VUndefined
| VNull
| VBool (b : bool)
| VNum (bits : N)
| VStr (s : jstring)
| VArr (items : list value)
| VObj (props : list (jstring * value)).

Fixpoint lookup (k : jstring) (props : list (jstring * value)) : value :=
  match props with
  | [] => VUndefined
  | (k', v) :: rest => if Js.eqb k k' then v else lookup k rest
  end.

(** [v[k]] for one of the property names the engine reads ([title],
    [sections], [heading], [keys], ...).  Strings, numbers and booleans have
    no such property, and neither have arrays, but for [keys], which on an
    array is a method: the only reader of [keys] goes on to read a provider
    name in it and finds [undefined] there as well. *)
Definition get (v : value) (k : string) : value :=
  match v with
  | VObj props => lookup (lit k) props
  | _ => VUndefined
  end.

Definition num_truthy (bits : N) : bool :=
  let magnitude := N.land bits (2 ^ 63 - 1) in
  negb (N.eqb magnitude 0) && N.leb magnitude (2047 * 2 ^ 52).

Definition js_truthy (v : value) : bool :=
  match v with
  | VUndefined | VNull => false
  | VBool b => b
  | VNum bits => num_truthy bits
  | VStr s => truthy s
  | VArr _ | VObj _ => true
  end.

(** [v && v[k]] *)
Definition and_get (v : value) (k : string) : value :=
  if js_truthy v then get v k else v.

(* ================================================================== *)
(** * Service worker: notes normalisation and quality merge *)
(* ================================================================== *)

Module Notes.

Local Open Scope N_scope.

Definition MAX_SECTIONS : nat := 30.
Definition MAX_BULLETS_PER_SECTION : nat := 80.

Definition STOPWORDS : list jstring :=
  map lit
    ["a"; "an"; "and"; "are"; "as"; "at"; "be"; "by"; "for"; "from"; "in";
     "into"; "is"; "it"; "its"; "of"; "on"; "or"; "that"; "the"; "their";
     "this"; "to"; "was"; "were"; "with"; "we"; "you"; "your"]%string.

(** ** Literal patterns, matched ignoring ASCII case *)

(** The regular expressions of the worker that are not plain character
    classes are alternatives of literals in which a unit may be optional
    ([s?]) or repeated ([h+]). *)
Inductive pitem : Type :=
| PLit (c : char)
| POpt (c : char)
| PPlus (c : char).

Definition plit (s : string) : list pitem := map PLit (lit s).

Definition unit_matches (x c : char) : bool := N.eqb (ascii_fold x) c.

(** [match_here p k s]: the pattern matches a prefix of [s] and the rest
    satisfies [k]. *)
Fixpoint match_here (p : list pitem) (k : jstring -> bool) (s : jstring)
  : bool :=
  match p with
  | [] => k s
  | PLit c :: p' =>
      match s with
      | x :: s' => unit_matches x c && match_here p' k s'
      | [] => false
      end
  | POpt c :: p' =>
      match s with
      | x :: s' => (unit_matches x c && match_here p' k s') || match_here p' k s
      | [] => match_here p' k s
      end
  | PPlus c :: p' =>
      (fix plus (s : jstring) : bool :=
         match s with
         | x :: s' => unit_matches x c && (plus s' || match_here p' k s')
         | [] => false
         end) s
  end.

(** [re.test(s)] for an unanchored alternation. *)
Fixpoint search (alts : list (list pitem)) (s : jstring) : bool :=
  existsb (fun p => match_here p (fun _ => true) s) alts ||
  match s with
  | [] => false
  | _ :: r => search alts r
  end.

(** [/(exam tips?|study tips?|helpful hints?|key takeaways?|test strategy|quiz strategy)/i] *)
Definition BANNED_NOTE_CONTENT_RE : list (list pitem) :=
  [ plit "exam tip" ++ [POpt 115];
    plit "study tip" ++ [POpt 115];
    plit "helpful hint" ++ [POpt 115];
    plit "key takeaway" ++ [POpt 115];
    plit "test strategy";
    plit "quiz strategy" ].

(** ** Sanitizers *)

(** The class [[:\-–\s]] *)
Definition is_heading_tail (c : char) : bool :=
  N.eqb c 58 || N.eqb c 45 || N.eqb c 8211 || is_space c.

(** The class [[-*•\d.)]] *)
Definition is_glyph (c : char) : bool :=
  N.eqb c 45 || N.eqb c 42 || N.eqb c 8226 || is_digit c || N.eqb c 46
  || N.eqb c 41.

(** [s.replace(/^\s*[p]+\s*/, '')] for a class [p] without white space: the
    match is the leading white space, the run of the class (at least one
    unit) and the white space after it; without a unit of the class there is
    no match. *)
Definition strip_leading (p : char -> bool) (s : jstring) : jstring :=
  match dropWhile is_space s with
  | c :: r =>
      if p c
      then dropWhile is_space (dropWhile p (c :: r))
      else s
  | [] => s
  end.

(** [s.replace(/^\s*[-*•\d.)]+\s*/, '')] *)
Definition strip_leading_glyphs (s : jstring) : jstring :=
  strip_leading is_glyph s.

(** The text begins with a unit of the glyph class. *)
Definition starts_with_glyph (s : jstring) : bool :=
  match s with
  | c :: _ => is_glyph c
  | [] => false
  end.

Definition sanitizeHeading (heading : value) : jstring :=
  match heading with
  | VStr h =>
      let clean := trim (dropEndWhile is_heading_tail (collapse_ws h)) in
      if negb (truthy clean) || Nat.ltb (length clean) 3 then [] else clean
  | _ => []
  end.

Definition sanitizeBullet (bullet : value) : jstring :=
  match bullet with
  | VStr b =>
      let clean := trim (collapse_ws b) in
      let clean := trim (strip_leading_glyphs clean) in
      if negb (truthy clean) then []
      else if search BANNED_NOTE_CONTENT_RE clean then []
      else if Nat.ltb (length clean) 8 then []
      else clean
  | _ => []
  end.

(** ** Notes state *)

Record Section_ : Type := mkSection {
  heading : jstring;
  bullets : list jstring
}.

Record NotesState : Type := mkNotes {
  title : option jstring;
  sections : list Section_;
  lastUpdatedAt : option jstring;
  lastChunkId : option jstring
}.

Definition defaultNotesState : NotesState :=
  mkNotes None [] None None.

(** The JavaScript object a notes state is. *)
Definition value_of_option (o : option jstring) : value :=
  match o with
  | Some s => VStr s
  | None => VNull
  end.

Definition value_of_section (s : Section_) : value :=
  VObj [ (lit "heading", VStr (heading s));
         (lit "bullets", VArr (map VStr (bullets s))) ].

Definition value_of_notes (n : NotesState) : value :=
  VObj [ (lit "title", value_of_option (title n));
         (lit "sections", VArr (map value_of_section (sections n)));
         (lit "lastUpdatedAt", value_of_option (lastUpdatedAt n));
         (lit "lastChunkId", value_of_option (lastChunkId n)) ].

(** [typeof v === 'string' && v.trim()] yields the trimmed text. *)
Definition nonblank_string (v : value) : option jstring :=
  match v with
  | VStr s => if truthy (trim s) then Some (trim s) else None
  | _ => None
  end.

Definition is_object (v : value) : bool :=
  match v with
  | VArr _ | VObj _ => true
  | _ => false
  end.

Definition normalizeSection (section : value) : option Section_ :=
  let heading := sanitizeHeading (and_get section "heading") in
  let bullets :=
    match and_get section "bullets" with
    | VArr items => filter truthy (map sanitizeBullet items)
    | _ => []
    end in
  if truthy heading then Some (mkSection heading bullets) else None.

Fixpoint filter_map {A B} (f : A -> option B) (l : list A) : list B :=
  match l with
  | [] => []
  | x :: r => match f x with
              | Some y => y :: filter_map f r
              | None => filter_map f r
              end
  end.

Definition normalizeNotesState (input : value) : NotesState :=
  if negb (js_truthy input) || negb (is_object input) then defaultNotesState
  else
    let title := nonblank_string (get input "title") in
    let sourceSections :=
      match get input "sections" with
      | VArr items => items
      | _ => match get input "outline" with
             | VArr items => items
             | _ => []
             end
      end in
    let sections := filter_map normalizeSection sourceSections in
    let lastUpdatedAt := nonblank_string (get input "lastUpdatedAt") in
    let lastChunkId :=
      match nonblank_string (get input "lastChunkId") with
      | Some s => Some s
      | None => nonblank_string (get input "lastUpdatedChunkId")
      end in
    mkNotes title (slice_to MAX_SECTIONS sections) lastUpdatedAt lastChunkId.


(** ** Canonical keys and similarity *)

(** [s.toLowerCase().replace(/[^a-z0-9\s]/g, ' ')], unit by unit.  Besides
    A-Z, the only units whose lower case contains an ASCII letter are the
    Kelvin sign (k) and the dotted capital I (i followed by a combining dot,
    which the replacement turns into a space); white space has no case. *)
Definition lower_alnum (c : char) : jstring :=
  if is_upper c then [c + 32]
  else if is_lower c || is_digit c || is_space c then [c]
  else if N.eqb c 8490 then [107]
  else if N.eqb c 304 then [105; SP]
  else [SP].

Definition is_stopword (t : jstring) : bool := mem t STOPWORDS.

Definition key_tokens (text : jstring) : list jstring :=
  filter (fun t => negb (is_stopword t))
    (filter truthy (split_ws (flat_map lower_alnum text))).

Definition semanticTextKey (text : jstring) : jstring :=
  join [SP] (slice_to 18 (key_tokens text)).

Definition canonicalHeading (heading : jstring) : jstring :=
  join [SP] (slice_to 8 (key_tokens heading)).

Definition token_set (a : jstring) : list jstring :=
  to_set (filter truthy (split_sp a)).

Definition intersection_size (aSet bSet : list jstring) : nat :=
  length (filter (fun token => mem token bSet) aSet).

(** [intersection / Math.max(aSet.size, bSet.size)].  The quotient of two
    doubles is modelled by the exact rational.  Every caller passes keys of
    at most 18 tokens, and is only interested in comparisons of such
    quotients with one another and with the constants 0.72 and 0.82: two
    distinct rationals of denominator at most 100 round to distinct doubles,
    so these comparisons agree with the exact ones. *)
Definition tokenSetSimilarity (a b : jstring) : Q :=
  let aSet := token_set a in
  let bSet := token_set b in
  if Nat.eqb (length aSet) 0 || Nat.eqb (length bSet) 0 then 0%Q
  else Qmake (Z.of_nat (intersection_size aSet bSet))
             (Pos.of_nat (Nat.max (length aSet) (length bSet))).

Definition NEAR_DUPLICATE_THRESHOLD : Q := Qmake 82 100.
Definition HEADING_MATCH_THRESHOLD : Q := Qmake 72 100.

Definition isNearDuplicateText (a b : jstring) : bool :=
  if negb (truthy a) || negb (truthy b) then false
  else
    let an := semanticTextKey a in
    let bn := semanticTextKey b in
    if negb (truthy an) || negb (truthy bn) then false
    else if Js.eqb an bn then true
    else if includes an bn || includes bn an then true
    else Qle_bool NEAR_DUPLICATE_THRESHOLD (tokenSetSimilarity an bn).

(** The loop of [dedupeBullets]; [out] is the array built so far. *)
Fixpoint dedupe_from (out : list jstring) (bullets : list jstring)
  : list jstring :=
  match bullets with
  | [] => out
  | raw :: rest =>
      let bullet := sanitizeBullet (VStr raw) in
      if negb (truthy bullet) then dedupe_from out rest
      else if existsb (fun existing => isNearDuplicateText existing bullet) out
      then dedupe_from out rest
      else dedupe_from (out ++ [bullet]) rest
  end.

Definition dedupeBullets (bullets : list jstring) : list jstring :=
  dedupe_from [] bullets.

Definition isUsefulHeading (heading : jstring) : bool :=
  if negb (truthy heading) then false
  else
    let key := canonicalHeading heading in
    if negb (truthy key) then false
    else negb (Js.eqb key (lit "lecture notes")) && negb (Js.eqb key (lit "notes")).

(** First loop of [findMatchingSectionIndex]: the first section whose
    canonical heading is the target. *)
Fixpoint find_exact (target : jstring) (i : nat) (sections : list Section_)
  : option nat :=
  match sections with
  | [] => None
  | s :: rest =>
      if Js.eqb (canonicalHeading (heading s)) target then Some i
      else find_exact target (S i) rest
  end.

(** Second loop: the best score so far and where it was found. *)
Fixpoint find_best (target : jstring) (i : nat) (sections : list Section_)
  (bestIndex : option nat) (bestScore : Q) : option nat * Q :=
  match sections with
  | [] => (bestIndex, bestScore)
  | s :: rest =>
      let score := tokenSetSimilarity target (canonicalHeading (heading s)) in
      if negb (Qle_bool score bestScore)
      then find_best target (S i) rest (Some i) score
      else find_best target (S i) rest bestIndex bestScore
  end.

Definition findMatchingSectionIndex (sections : list Section_)
  (heading : jstring) : option nat :=
  let target := canonicalHeading heading in
  if negb (truthy target) then None
  else
    match find_exact target 0 sections with
    | Some i => Some i
    | None =>
        let '(bestIndex, bestScore) := find_best target 0 sections None 0%Q in
        if Qle_bool HEADING_MATCH_THRESHOLD bestScore then bestIndex else None
    end.

(** [a || b] on strings that may be [null]. *)
Definition or_else (a b : option jstring) : option jstring :=
  match a with
  | Some s => if truthy s then a else b
  | None => b
  end.

(** [sections[index].bullets = bullets] *)
Fixpoint set_bullets (index : nat) (bs : list jstring)
  (sections : list Section_) : list Section_ :=
  match sections, index with
  | [], _ => []
  | s :: rest, O => mkSection (heading s) bs :: rest
  | s :: rest, S i => s :: set_bullets i bs rest
  end.

(** One round of the [forEach] over the candidate's sections. *)
Definition merge_incoming (merged : list Section_) (incomingSection : Section_)
  : list Section_ :=
  let heading := sanitizeHeading (VStr (heading incomingSection)) in
  let incomingBullets := dedupeBullets (bullets incomingSection) in
  if negb (truthy heading) || Nat.eqb (length incomingBullets) 0 then merged
  else
    match findMatchingSectionIndex merged heading with
    | Some index =>
        match nth_error merged index with
        | Some target =>
            set_bullets index
              (dedupeBullets (bullets target ++ incomingBullets)) merged
        | None => merged
        end
    | None =>
        if isUsefulHeading heading
        then merged ++ [mkSection heading incomingBullets]
        else merged
    end.

(** [merged.sections] before the candidate is folded in, and after. *)
Definition initial_sections (previous : NotesState) : list Section_ :=
  map (fun section => mkSection (heading section)
                                (dedupeBullets (bullets section)))
      (sections previous).

Definition merged_sections (previous candidate : NotesState)
  : list Section_ :=
  fold_left merge_incoming (sections candidate) (initial_sections previous).

Definition finish_section (section : Section_) : Section_ :=
  mkSection (sanitizeHeading (VStr (heading section)))
            (slice_last MAX_BULLETS_PER_SECTION
                        (dedupeBullets (bullets section))).

Definition keep_section (section : Section_) : bool :=
  truthy (heading section) && Nat.ltb 0 (length (bullets section)).

Definition enforceCumulativeQuality (previousNotes candidateNotes : value)
  : NotesState :=
  let previous := normalizeNotesState previousNotes in
  let candidate := normalizeNotesState candidateNotes in
  mkNotes
    (or_else (or_else (title previous) (title candidate)) None)
    (slice_to MAX_SECTIONS
       (filter keep_section
          (map finish_section (merged_sections previous candidate))))
    (or_else (lastUpdatedAt candidate) (lastUpdatedAt previous))
    (or_else (lastChunkId candidate) (lastChunkId previous)).

(** ** Shapes of sanitized text and of normalised notes, for the proofs *)

(** What [sanitizeHeading] returns, when it returns a heading. *)
Record heading_shape (h : jstring) : Prop := {
  hs_collapsed : collapsed_from false h = true;
  hs_head : head_not is_space h = true;
  hs_last : head_not is_heading_tail (rev h) = true;
  hs_length : Nat.ltb (length h) 3 = false
}.

(** What [sanitizeBullet] returns, when it returns a bullet. *)
Record bullet_shape (b : jstring) : Prop := {
  bs_collapsed : collapsed_from false b = true;
  bs_head : head_not is_space b = true;
  bs_last : head_not is_space (rev b) = true;
  bs_allowed : search BANNED_NOTE_CONTENT_RE b = false;
  bs_length : Nat.ltb (length b) 8 = false
}.

(** A title or an identifier: [null], or a non-empty trimmed string. *)
Definition trimmed_text (o : option jstring) : Prop :=
  match o with
  | None => True
  | Some t => truthy t = true /\ trim t = t
  end.

Definition wf_section (s : Section_) : Prop :=
  truthy (heading s) = true /\
  heading_shape (heading s) /\
  Forall (fun b => truthy b = true /\ bullet_shape b) (bullets s).

(** What [normalizeNotesState] returns. *)
Record normalized (n : NotesState) : Prop := {
  nz_title : trimmed_text (title n);
  nz_sections : Forall wf_section (sections n);
  nz_count : (length (sections n) <= MAX_SECTIONS)%nat;
  nz_updated : trimmed_text (lastUpdatedAt n);
  nz_chunk : trimmed_text (lastChunkId n)
}.

(** No bullet of the document begins with a unit of the glyph class. *)
Definition glyph_free (n : NotesState) : bool :=
  forallb (fun s => forallb (fun b => negb (starts_with_glyph b)) (bullets s))
          (sections n).

(** ** Sample documents *)

(** One section whose only bullet carries a dash and a number. *)
Definition numbered_bullet_input : value :=
  VObj [ (lit "sections",
          VArr [ VObj [ (lit "heading", VStr (lit "Topic"));
                        (lit "bullets",
                         VArr [ VStr (lit "- 1) hello world") ]) ] ]) ].

(** Two bullets whose keys share 9 tokens of 11, the shorter key being the
    beginning of the longer. *)
Definition eleven_tokens : jstring :=
  lit "alpha beta gamma delta epsilon zeta eta theta iota kappa lambda".
Definition nine_tokens : jstring :=
  lit "alpha beta gamma delta epsilon zeta eta theta iota".

(** The two bullets of the specification's scenario: 5 tokens of 6 shared. *)
Definition diffusion_down : jstring :=
  lit "Diffusion moves molecules down the concentration gradient".
Definition diffusion_along : jstring :=
  lit "Diffusion moves molecules along the concentration gradient".

(** Two bullets sharing 4 tokens of 5, neither key inside the other. *)
Definition osmosis_water : jstring :=
  lit "Osmosis moves water across membranes".
Definition osmosis_salt : jstring :=
  lit "Osmosis moves salt across membranes".

(** A stored document with a section that has a heading and no bullet, as
    a manual edit can leave it. *)
Definition empty_section_notes : value :=
  VObj [ (lit "sections",
          VArr [ VObj [ (lit "heading", VStr (lit "Introduction"));
                        (lit "bullets", VArr []) ] ]) ].

(** A stored document whose only bullet carries several number glyphs. *)
Definition eroding_notes : value :=
  VObj [ (lit "sections",
          VArr [ VObj [ (lit "heading", VStr (lit "Topic"));
                        (lit "bullets",
                         VArr [ VStr (lit "- 1) 2) 3) abcdefg") ]) ] ]) ].

(** A stored section of 81 bullets, none a near-duplicate of another. *)
Definition numbered_fact (i : nat) : jstring :=
  lit "lecture point "
  ++ [N.of_nat (97 + i / 26); N.of_nat (97 + i mod 26)] ++ lit "xxxxxx".

Definition long_section_notes : value :=
  VObj [ (lit "sections",
          VArr [ VObj [ (lit "heading", VStr (lit "Long Lecture"));
                        (lit "bullets",
                         VArr (map (fun i => VStr (numbered_fact i))
                                   (seq 0 81))) ] ]) ].

(** A stored document and a proposal that extends its section and adds one. *)
Definition biology_notes : value :=
  VObj [ (lit "title", VStr (lit "Cell Biology"));
         (lit "sections",
          VArr [ VObj [ (lit "heading",
                         VStr (lit "Cell Biology :: Membrane Transport"));
                        (lit "bullets",
                         VArr [ VStr diffusion_along ]) ] ]) ].

Definition biology_proposal : value :=
  VObj [ (lit "sections",
          VArr [ VObj [ (lit "heading",
                         VStr (lit "Cell Biology :: Membrane Transport"));
                        (lit "bullets",
                         VArr [ VStr diffusion_down;
                                VStr osmosis_water ]) ];
                 VObj [ (lit "heading", VStr (lit "Enzyme Kinetics"));
                        (lit "bullets",
                         VArr [ VStr (lit "Key exam tip: review chapter 3 before the test");
                                VStr (lit "Enzymes lower the activation energy") ]) ] ]) ].

(** A model reply in the legacy shape, with untidy text. *)
Definition untidy_input : value :=
  VObj [ (lit "title", VStr (lit "  Cell Biology  "));
         (lit "outline",
          VArr [ VObj [ (lit "heading", VStr (lit " Membrane   Transport: "));
                        (lit "bullets",
                         VArr [ VStr (lit "*  Diffusion moves molecules   down the gradient ");
                                VStr (lit "Key exam tip: review chapter 3");
                                VNum 0;
                                VStr (lit "short") ]) ];
                 VNull;
                 VObj [ (lit "heading", VStr (lit "--")) ] ]);
         (lit "lastUpdatedChunkId", VStr (lit " chunk_7 ")) ].

End Notes.

(* ================================================================== *)
(** * Content script: caption capture and chunking *)
(* ================================================================== *)

Module Capture.

Definition CHUNK_SECONDS : Z := 180.
Definition CHUNK_MAX_CHARS : nat := 5000.
Definition UPDATE_WINDOW_MS : Z := 15000.

(** What the script reads of a video element.  Media times are doubles;
    every double is a rational, and the times are modelled by rationals. *)
Record Media : Type := mkMedia {
  currentTime : Q;
  paused : bool;
  ended : bool
}.

(** The page at the time a handler runs.  Elements are named by numbers.
    [video] is the element that
    [document.querySelector('video#primaryVideo') || document.querySelector('video')]
    yields, [media] is what the video elements show then, whether they are
    still in the page or not, [captionFound] is the element
    [findCaptionElement()] yields, and [textContent] the text of the
    elements. *)
Record Dom : Type := mkDom {
  video : option nat;
  media : nat -> Media;
  captionFound : option nat;
  textContent : nat -> jstring
}.

(** What a handler takes from outside: the page, the successive readings of
    [Date.now()] and the successive values of
    [Math.random().toString(36).slice(2, 9)]. *)
Record Env : Type := mkEnv {
  dom : Dom;
  clock : nat -> Z;
  random : nat -> jstring
}.

Module Entry.
Record t : Type := mk {
  text : jstring;
  startTime : Q;
  endTime : Q;
  tStart : Q;
  tEnd : Q;
  timestamp : Z
}.
End Entry.

Module Chunk.
Record t : Type := mk {
  chunkId : jstring;
  tStart : Q;
  tEnd : Q;
  parts : list jstring;
  text : jstring
}.
End Chunk.

(** The snapshot of a chunk that is sent in a message. *)
Module Finalized.
Record t : Type := mk {
  chunkId : jstring;
  tStart : Q;
  tEnd : Q;
  text : jstring
}.
End Finalized.

Definition snapshot (c : Chunk.t) : Finalized.t :=
  Finalized.mk (Chunk.chunkId c) (Chunk.tStart c) (Chunk.tEnd c) (Chunk.text c).

Record Status : Type := mkStatus {
  captionsDetected : bool;
  captionElementDetected : bool;
  captionsUpdating : bool;
  statusIsCapturing : bool;
  videoFound : bool
}.

(** The messages given to [chrome.runtime.sendMessage]. *)
Inductive Message : Type :=
| FINALIZE_CHUNK (chunk : Finalized.t) (tailContext : jstring)
| TRANSCRIPT_UPDATE (transcript : list Entry.t)
                    (currentChunk : option Finalized.t)
| STATUS_UPDATE (payload : Status).

(** The variables of the script.  [videoElement] and [captionElement] hold
    elements; what an element shows is read from the page when the script
    reads it.  [clockReads] counts the readings of the clock and [outbox]
    lists the messages sent, oldest first. *)
Record State : Type := mkState {
  videoElement : option nat;
  captionElement : option nat;
  isCapturing : bool;
  transcriptBuffer : list Entry.t;
  currentChunk : option Chunk.t;
  chunkStartWallTime : option Z;
  lastCaptionUpdateAt : Z;
  lastVideoMoveAt : Z;
  lastVideoTimeSample : option Q;
  lastSentStatus : option Status;
  clockReads : nat;
  outbox : list Message
}.

Definition set_videoElement (x : option nat) (st : State) : State :=
  mkState x (captionElement st) (isCapturing st) (transcriptBuffer st)
    (currentChunk st) (chunkStartWallTime st) (lastCaptionUpdateAt st)
    (lastVideoMoveAt st) (lastVideoTimeSample st) (lastSentStatus st)
    (clockReads st) (outbox st).
Definition set_captionElement (x : option nat) (st : State) : State :=
  mkState (videoElement st) x (isCapturing st) (transcriptBuffer st)
    (currentChunk st) (chunkStartWallTime st) (lastCaptionUpdateAt st)
    (lastVideoMoveAt st) (lastVideoTimeSample st) (lastSentStatus st)
    (clockReads st) (outbox st).
Definition set_isCapturing (x : bool) (st : State) : State :=
  mkState (videoElement st) (captionElement st) x (transcriptBuffer st)
    (currentChunk st) (chunkStartWallTime st) (lastCaptionUpdateAt st)
    (lastVideoMoveAt st) (lastVideoTimeSample st) (lastSentStatus st)
    (clockReads st) (outbox st).
Definition set_transcriptBuffer (x : list Entry.t) (st : State) : State :=
  mkState (videoElement st) (captionElement st) (isCapturing st) x
    (currentChunk st) (chunkStartWallTime st) (lastCaptionUpdateAt st)
    (lastVideoMoveAt st) (lastVideoTimeSample st) (lastSentStatus st)
    (clockReads st) (outbox st).
Definition set_currentChunk (x : option Chunk.t) (st : State) : State :=
  mkState (videoElement st) (captionElement st) (isCapturing st)
    (transcriptBuffer st) x (chunkStartWallTime st) (lastCaptionUpdateAt st)
    (lastVideoMoveAt st) (lastVideoTimeSample st) (lastSentStatus st)
    (clockReads st) (outbox st).
Definition set_chunkStartWallTime (x : option Z) (st : State) : State :=
  mkState (videoElement st) (captionElement st) (isCapturing st)
    (transcriptBuffer st) (currentChunk st) x (lastCaptionUpdateAt st)
    (lastVideoMoveAt st) (lastVideoTimeSample st) (lastSentStatus st)
    (clockReads st) (outbox st).
Definition set_lastCaptionUpdateAt (x : Z) (st : State) : State :=
  mkState (videoElement st) (captionElement st) (isCapturing st)
    (transcriptBuffer st) (currentChunk st) (chunkStartWallTime st) x
    (lastVideoMoveAt st) (lastVideoTimeSample st) (lastSentStatus st)
    (clockReads st) (outbox st).
Definition set_lastVideoMoveAt (x : Z) (st : State) : State :=
  mkState (videoElement st) (captionElement st) (isCapturing st)
    (transcriptBuffer st) (currentChunk st) (chunkStartWallTime st)
    (lastCaptionUpdateAt st) x (lastVideoTimeSample st) (lastSentStatus st)
    (clockReads st) (outbox st).
Definition set_lastVideoTimeSample (x : option Q) (st : State) : State :=
  mkState (videoElement st) (captionElement st) (isCapturing st)
    (transcriptBuffer st) (currentChunk st) (chunkStartWallTime st)
    (lastCaptionUpdateAt st) (lastVideoMoveAt st) x (lastSentStatus st)
    (clockReads st) (outbox st).
Definition set_lastSentStatus (x : option Status) (st : State) : State :=
  mkState (videoElement st) (captionElement st) (isCapturing st)
    (transcriptBuffer st) (currentChunk st) (chunkStartWallTime st)
    (lastCaptionUpdateAt st) (lastVideoMoveAt st) (lastVideoTimeSample st) x
    (clockReads st) (outbox st).
Definition set_clockReads (x : nat) (st : State) : State :=
  mkState (videoElement st) (captionElement st) (isCapturing st)
    (transcriptBuffer st) (currentChunk st) (chunkStartWallTime st)
    (lastCaptionUpdateAt st) (lastVideoMoveAt st) (lastVideoTimeSample st)
    (lastSentStatus st) x (outbox st).
Definition set_outbox (x : list Message) (st : State) : State :=
  mkState (videoElement st) (captionElement st) (isCapturing st)
    (transcriptBuffer st) (currentChunk st) (chunkStartWallTime st)
    (lastCaptionUpdateAt st) (lastVideoMoveAt st) (lastVideoTimeSample st)
    (lastSentStatus st) (clockReads st) x.

Definition initial : State :=
  mkState None None false [] None None 0 0 None None 0 [].

Definition send (m : Message) (st : State) : State :=
  set_outbox (outbox st ++ [m]) st.

(** [Date.now()] *)
Definition Date_now (env : Env) (st : State) : Z * State :=
  (clock env (clockReads st), set_clockReads (S (clockReads st)) st).

Definition same_element (a b : option nat) : bool :=
  match a, b with
  | Some x, Some y => Nat.eqb x y
  | None, None => true
  | _, _ => false
  end.

Definition refreshVideoElement (env : Env) (st : State) : State :=
  let nextVideo := video (dom env) in
  if same_element nextVideo (videoElement st) then st
  else set_lastVideoTimeSample None (set_videoElement nextVideo st).

(** [videoElement.currentTime || 0] *)
Definition time_or_zero (m : Media) : Q :=
  if Qeq_bool (currentTime m) 0 then 0%Q else currentTime m.

Definition getVideoTime (env : Env) (st : State) : Q * State :=
  let st := refreshVideoElement env st in
  (match videoElement st with
   | Some v => time_or_zero (media (dom env) v)
   | None => 0%Q
   end, st).

(** [Math.abs(currentTime - lastVideoTimeSample) > 0.05] on doubles.  The
    literal is the double 7205759403792794 / 2^57, whose significand is
    even, and the difference is rounded to the nearest double, ties to even:
    the rounded difference is above the literal exactly when the exact
    difference is above the middle of the literal and the next double, which
    is 14411518807585589 / 2^58. *)
Definition MOVE_THRESHOLD : Q :=
  14411518807585589 # 288230376151711744.

Definition refreshVideoMovement (env : Env) (st : State) : State :=
  match videoElement st with
  | None => st
  | Some v =>
      let '(now, st) := Date_now env st in
      let currentTime := time_or_zero (media (dom env) v) in
      match lastVideoTimeSample st with
      | None => set_lastVideoTimeSample (Some currentTime) st
      | Some sample =>
          let st :=
            if negb (Qle_bool (Qabs (currentTime - sample)) MOVE_THRESHOLD)
            then set_lastVideoMoveAt now st else st in
          set_lastVideoTimeSample (Some currentTime) st
      end
  end.

Definition isCaptionsUpdating (env : Env) (st : State) : bool * State :=
  let '(now, st) := Date_now env st in
  ((now - lastCaptionUpdateAt st <=? UPDATE_WINDOW_MS)%Z
   && (now - lastVideoMoveAt st <=? UPDATE_WINDOW_MS)%Z, st).

Definition is_some {A} (o : option A) : bool :=
  match o with Some _ => true | None => false end.

Definition buildStatusPayload (env : Env) (st : State) : Status * State :=
  let captionsDetected := is_some (captionElement st) in
  let '(captionsUpdating, st) :=
    if captionsDetected then isCaptionsUpdating env st else (false, st) in
  (mkStatus captionsDetected captionsDetected captionsUpdating
            (isCapturing st) (is_some (videoElement st)), st).

Definition shallowStatusEqual (a b : Status) : bool :=
  Bool.eqb (captionsDetected a) (captionsDetected b)
  && Bool.eqb (captionElementDetected a) (captionElementDetected b)
  && Bool.eqb (captionsUpdating a) (captionsUpdating b)
  && Bool.eqb (statusIsCapturing a) (statusIsCapturing b)
  && Bool.eqb (videoFound a) (videoFound b).

Definition sendStatus (force : bool) (env : Env) (st : State) : State :=
  let '(payload, st) := buildStatusPayload env st in
  let unchanged :=
    match lastSentStatus st with
    | Some sent => shallowStatusEqual payload sent
    | None => false
    end in
  if negb force && unchanged then st
  else send (STATUS_UPDATE payload) (set_lastSentStatus (Some payload) st).

Definition sendTranscriptUpdate (st : State) : State :=
  send (TRANSCRIPT_UPDATE (slice_last 50 (transcriptBuffer st))
                          (option_map snapshot (currentChunk st))) st.

(** [text.trim().replace(/\s+/g, ' ').replace(/\u200b/g, '')] *)
Definition normalizeText (text : jstring) : jstring :=
  filter (fun c => negb (N.eqb c 8203)) (collapse_ws (trim text)).

Definition appendTranscriptEntry (text : jstring) (tNow : Q) (now : Z)
  (st : State) : State :=
  set_transcriptBuffer
    (transcriptBuffer st ++ [Entry.mk text tNow tNow tNow tNow now]) st.

(** The decimal digits of a number, as in a template literal. *)
Definition decimal (z : Z) : jstring :=
  lit (NilZero.string_of_int (Z.to_int z)).

Definition generateChunkId (env : Env) (st : State) : jstring * State :=
  let '(now, st) := Date_now env st in
  (lit "chunk_" ++ decimal now ++ lit "_" ++ random env (clockReads st), st).

Definition appendChunkPart (env : Env) (text : jstring) (tNow : Q)
  (st : State) : State :=
  match currentChunk st with
  | None =>
      let '(chunkId, st) := generateChunkId env st in
      let st :=
        set_currentChunk (Some (Chunk.mk chunkId tNow tNow [text] text)) st in
      let '(now, st) := Date_now env st in
      set_chunkStartWallTime (Some now) st
  | Some c =>
      let parts := Chunk.parts c ++ [text] in
      set_currentChunk
        (Some (Chunk.mk (Chunk.chunkId c) (Chunk.tStart c) tNow parts
                        (join [SP] parts))) st
  end.

Definition replaceLastChunkPart (text : jstring) (tNow : Q) (st : State)
  : State :=
  match currentChunk st with
  | None => st
  | Some c =>
      if Nat.eqb (length (Chunk.parts c)) 0 then st
      else
        let parts := update_last (fun _ => text) (Chunk.parts c) in
        set_currentChunk
          (Some (Chunk.mk (Chunk.chunkId c) (Chunk.tStart c) tNow parts
                          (join [SP] parts))) st
  end.

(** [getVideoTime() - 30] is rounded to a double.  For the times a video
    shows (doubles from 0 up to 2^53) this changes no comparison with the
    start time of an entry, which is such a time: the difference is exact
    from 16 seconds on, and negative before 30 seconds. *)
Definition getTailContext (env : Env) (st : State) : jstring * State :=
  let '(t, st) := getVideoTime env st in
  let cutoff := (t - 30)%Q in
  (join [SP]
     (map Entry.text
        (filter (fun entry => Qle_bool cutoff (Entry.startTime entry))
                (transcriptBuffer st))), st).

Definition finalizeChunk (env : Env) (st : State) : State :=
  match currentChunk st with
  | None => st
  | Some c =>
      if negb (truthy (trim (Chunk.text c))) then st
      else
        let finalizedChunk := snapshot c in
        let '(tailContext, st) := getTailContext env st in
        let st := send (FINALIZE_CHUNK finalizedChunk tailContext) st in
        set_chunkStartWallTime None (set_currentChunk None st)
  end.

(** Truthiness of [chunkStartWallTime]: set, and not the number 0. *)
Definition wall_time_set (t : option Z) : option Z :=
  match t with
  | Some z => if Z.eqb z 0 then None else Some z
  | None => None
  end.

Definition maybeFinalizeChunk (env : Env) (nowMs : Z) (st : State) : State :=
  match currentChunk st, wall_time_set (chunkStartWallTime st) with
  | Some c, Some startedAt =>
      let elapsedSeconds := Qmake (nowMs - startedAt) 1000 in
      let shouldFinalize :=
        Qle_bool (inject_Z CHUNK_SECONDS) elapsedSeconds
        || Nat.ltb CHUNK_MAX_CHARS (length (Chunk.text c))
        || match videoElement st with
           | Some v => paused (media (dom env) v) || ended (media (dom env) v)
           | None => false
           end in
      if shouldFinalize then finalizeChunk env st else st
  | _, _ => st
  end.

Definition handleCaptionChange (env : Env) (st : State) : State :=
  match isCapturing st, captionElement st with
  | true, Some captionElement =>
      let rawText := textContent (dom env) captionElement in
      let text := normalizeText rawText in
      if negb (truthy text) then st
      else
        let st := refreshVideoElement env st in
        let st := refreshVideoMovement env st in
        let '(now, st) := Date_now env st in
        let '(tNow, st) := getVideoTime env st in
        let lastEntry := last_of (transcriptBuffer st) in
        let duplicate :=
          match lastEntry with
          | Some e => Js.eqb (Entry.text e) text
          | None => false
          end in
        if duplicate then st
        else
          let shouldReplace :=
            match lastEntry with
            | Some e => startsWith text (Entry.text e)
            | None => false
            end in
          let st :=
            if shouldReplace then
              let st :=
                set_transcriptBuffer
                  (update_last
                     (fun e => Entry.mk text (Entry.startTime e) tNow
                                        (Entry.tStart e) tNow now)
                     (transcriptBuffer st)) st in
              replaceLastChunkPart text tNow st
            else
              let st :=
                match lastEntry with
                | Some e =>
                    if Qle_bool (Entry.startTime e) tNow then
                      set_transcriptBuffer
                        (update_last
                           (fun e => Entry.mk (Entry.text e)
                                              (Entry.startTime e) tNow
                                              (Entry.tStart e) tNow
                                              (Entry.timestamp e))
                           (transcriptBuffer st)) st
                    else st
                | None => st
                end in
              let st := appendTranscriptEntry text tNow now st in
              appendChunkPart env text tNow st in
          let st := set_lastCaptionUpdateAt now st in
          let st := maybeFinalizeChunk env now st in
          let st := sendTranscriptUpdate st in
          sendStatus false env st
  | _, _ => st
  end.

Definition detachCaptionObserver (st : State) : State :=
  set_captionElement None st.

Definition findAndAttachCaptionElement (env : Env) (st : State) : State :=
  match captionFound (dom env) with
  | None => sendStatus false env st
  | Some found =>
      if same_element (Some found) (captionElement st) then st
      else
        let st := detachCaptionObserver st in
        let st := set_captionElement (Some found) st in
        let st := handleCaptionChange env st in
        sendStatus false env st
  end.

(** The messages the side panel sends to the script that change the
    accumulator. *)
Inductive Command : Type :=
| START_CAPTURE
| PAUSE_CAPTURE
| CLEAR_SESSION.

Definition onMessage (message : Command) (env : Env) (st : State) : State :=
  match message with
  | START_CAPTURE =>
      let st := set_isCapturing true st in
      let st := refreshVideoElement env st in
      let st := findAndAttachCaptionElement env st in
      let st := refreshVideoMovement env st in
      sendStatus true env st
  | PAUSE_CAPTURE =>
      let st := set_isCapturing false st in
      let st := if is_some (currentChunk st) then finalizeChunk env st
                else st in
      sendStatus true env st
  | CLEAR_SESSION =>
      let st := set_transcriptBuffer [] st in
      let st := set_currentChunk None st in
      let st := set_chunkStartWallTime None st in
      let st := set_lastCaptionUpdateAt 0 st in
      let st := set_isCapturing false st in
      let st := send (TRANSCRIPT_UPDATE [] None) st in
      sendStatus true env st
  end.

(** The media time the page shows: what [getVideoTime()] returns. *)
Definition page_time (env : Env) : Q :=
  match video (dom env) with
  | Some v => time_or_zero (media (dom env) v)
  | None => 0%Q
  end.

(** The state and the two times a caption event works with: after the video
    has been refreshed and sampled and the clock read. *)
Definition observed (env : Env) (st : State) : State :=
  snd (getVideoTime env
         (snd (Date_now env
                 (refreshVideoMovement env (refreshVideoElement env st))))).

Definition event_now (env : Env) (st : State) : Z :=
  fst (Date_now env (refreshVideoMovement env (refreshVideoElement env st))).

(** The handler from its de-duplication rules on, for a caption [text] read
    at wall-clock time [now] and media time [tNow]. *)
Definition store_caption (env : Env) (text : jstring) (now : Z) (tNow : Q)
  (st : State) : State :=
  let lastEntry := last_of (transcriptBuffer st) in
  let duplicate :=
    match lastEntry with
    | Some e => Js.eqb (Entry.text e) text
    | None => false
    end in
  if duplicate then st
  else
    let shouldReplace :=
      match lastEntry with
      | Some e => startsWith text (Entry.text e)
      | None => false
      end in
    let st :=
      if shouldReplace then
        let st :=
          set_transcriptBuffer
            (update_last
               (fun e => Entry.mk text (Entry.startTime e) tNow
                                  (Entry.tStart e) tNow now)
               (transcriptBuffer st)) st in
        replaceLastChunkPart text tNow st
      else
        let st :=
          match lastEntry with
          | Some e =>
              if Qle_bool (Entry.startTime e) tNow then
                set_transcriptBuffer
                  (update_last
                     (fun e => Entry.mk (Entry.text e)
                                        (Entry.startTime e) tNow
                                        (Entry.tStart e) tNow
                                        (Entry.timestamp e))
                     (transcriptBuffer st)) st
              else st
          | None => st
          end in
        let st := appendTranscriptEntry text tNow now st in
        appendChunkPart env text tNow st in
    let st := set_lastCaptionUpdateAt now st in
    let st := maybeFinalizeChunk env now st in
    let st := sendTranscriptUpdate st in
    sendStatus false env st.

(** The part of the state the accumulator is made of. *)
Record Accumulator : Type := mkAccumulator {
  acc_capturing : bool;
  acc_caption : option nat;
  acc_transcript : list Entry.t;
  acc_chunk : option Chunk.t;
  acc_started : option Z;
  acc_outbox : list Message
}.

Definition accumulator (st : State) : Accumulator :=
  mkAccumulator (isCapturing st) (captionElement st) (transcriptBuffer st)
                (currentChunk st) (chunkStartWallTime st) (outbox st).

(** The chunk after its last part has been replaced. *)
Definition with_last_part (text : jstring) (tNow : Q) (c : Chunk.t)
  : Chunk.t :=
  let parts := update_last (fun _ => text) (Chunk.parts c) in
  Chunk.mk (Chunk.chunkId c) (Chunk.tStart c) tNow parts (join [SP] parts).

(** The messages of one kind in an outbox. *)
Definition finalized_chunks (ms : list Message) : list Finalized.t :=
  flat_map (fun m => match m with
                     | FINALIZE_CHUNK c _ => [c]
                     | _ => []
                     end) ms.

(** The grown entry that replaces the last one. *)
Definition grown_entry (env : Env) (st : State) (text : jstring)
  (e : Entry.t) : Entry.t :=
  Entry.mk text (Entry.startTime e) (page_time env)
           (Entry.tStart e) (page_time env) (event_now env st).

(** ** A sample session *)

Definition playing_video : Media := mkMedia (12 # 1) false false.

Definition page_showing (caption : string) : Env :=
  mkEnv (mkDom (Some 1) (fun _ => playing_video) (Some 7)
               (fun _ => lit caption))
        (fun k => 1700000000000 + Z.of_nat k)%Z
        (fun _ => lit "k3x9q2a").

(** Capture started on a page whose caption reads "the cell membrane is". *)
Definition first_caption_captured : State :=
  onMessage START_CAPTURE (page_showing "the cell membrane is") initial.

Definition first_entry : Entry.t :=
  Entry.mk (lit "the cell membrane is") (12 # 1) (12 # 1) (12 # 1) (12 # 1)
           1700000000001.

Definition first_chunk : Chunk.t :=
  Chunk.mk (lit "chunk_1700000000002_k3x9q2a") (12 # 1) (12 # 1)
           [lit "the cell membrane is"] (lit "the cell membrane is").

(** The same session when the video is paused: the first caption closes its
    chunk at once. *)
Definition paused_page_showing (caption : string) : Env :=
  mkEnv (mkDom (Some 1) (fun _ => mkMedia (12 # 1) true false) (Some 7)
               (fun _ => lit caption))
        (fun k => 1700000000000 + Z.of_nat k)%Z
        (fun _ => lit "k3x9q2a").

Definition first_caption_finalized : State :=
  onMessage START_CAPTURE (paused_page_showing "the cell membrane is") initial.

End Capture.

(* ================================================================== *)
(** * Service worker: the synthesis queue *)
(* ================================================================== *)

Module Worker.

Import Notes.
Import Capture(Finalized.t, Finalized.mk, Finalized.chunkId, Finalized.text).

Definition MIN_LLM_INTERVAL_MS : Z := 5000.

Inductive Provider : Type := GEMINI | OPENAI | ANTHROPIC.

Definition provider_name (p : Provider) : string :=
  match p with
  | GEMINI => "gemini"
  | OPENAI => "openai"
  | ANTHROPIC => "anthropic"
  end.

Definition DEFAULT_PROVIDER : Provider := GEMINI.

Definition DEFAULT_MODELS (p : Provider) : string :=
  match p with
  | GEMINI => "gemini-2.0-flash"
  | OPENAI => "gpt-4o-mini"
  | ANTHROPIC => "claude-3-5-haiku-latest"
  end.

(** [isValidProvider(value)], with the provider it names. *)
Definition valid_provider (v : value) : option Provider :=
  match v with
  | VStr s =>
      if Js.eqb s (lit "gemini") then Some GEMINI
      else if Js.eqb s (lit "openai") then Some OPENAI
      else if Js.eqb s (lit "anthropic") then Some ANTHROPIC
      else None
  | _ => None
  end.

(** ** Tightening the cleaned transcript *)

(** The class [[\s,.\-!?]] *)
Definition is_filler_tail (c : char) : bool :=
  (is_space c || N.eqb c 44 || N.eqb c 46 || N.eqb c 45 || N.eqb c 33
   || N.eqb c 63)%bool.

(** [/^(uh+|um+|hmm+|mm+|yeah+|okay+|ok+|right+|so+|well+|like+|you know|i mean|alright|all right|let's see|huh)[\s,.\-!?]*$/i] *)
Definition FILLER_ONLY_RE : list (list pitem) :=
  [ plit "u" ++ [PPlus 104%N];
    plit "u" ++ [PPlus 109%N];
    plit "hm" ++ [PPlus 109%N];
    plit "m" ++ [PPlus 109%N];
    plit "yea" ++ [PPlus 104%N];
    plit "oka" ++ [PPlus 121%N];
    plit "o" ++ [PPlus 107%N];
    plit "righ" ++ [PPlus 116%N];
    plit "s" ++ [PPlus 111%N];
    plit "wel" ++ [PPlus 108%N];
    plit "lik" ++ [PPlus 101%N];
    plit "you know";
    plit "i mean";
    plit "alright";
    plit "all right";
    plit "let's see";
    plit "huh" ].

Definition filler_only (s : jstring) : bool :=
  existsb (fun p => match_here p (forallb is_filler_tail) s) FILLER_ONLY_RE.

Definition FILLER_TOKENS : list jstring :=
  map lit ["uh"; "um"; "hmm"; "yeah"; "okay"; "ok"; "right"; "so"; "well";
           "like"]%string.

(** The class [[-*•]] *)
Definition is_dash_glyph (c : char) : bool :=
  (N.eqb c 45 || N.eqb c 42 || N.eqb c 8226)%bool.

Definition normalizeSentence (text : jstring) : jstring :=
  trim (strip_leading is_dash_glyph (collapse_ws text)).

Definition isFillerSentence (sentence : jstring) : bool :=
  if negb (truthy sentence) then true
  else if filler_only sentence then true
  else
    let normalized := trim (collapse_ws (flat_map lower_alnum sentence)) in
    if negb (truthy normalized) then true
    else
      let tokens := filter truthy (split_sp normalized) in
      if Nat.leb (length tokens) 2
      then forallb (fun token => mem token FILLER_TOKENS) tokens
      else false.

(** The class [[.!?]] *)
Definition is_sentence_end (c : char) : bool :=
  (N.eqb c 46 || N.eqb c 33 || N.eqb c 63)%bool.

(** [line.split(/(?<=[.!?])\s+/)]: a run of white space splits the line when
    the unit before it ends a sentence.  [after_end] tells that the previous
    unit does; [in_gap] that a separating run is being skipped. *)
Fixpoint split_sentences_from (cur : jstring) (after_end in_gap : bool)
  (s : jstring) : list jstring :=
  match s with
  | [] => [rev cur]
  | c :: r =>
      if in_gap then
        (if is_space c then split_sentences_from [] false true r
         else split_sentences_from [c] (is_sentence_end c) false r)
      else if is_space c && after_end then
        rev cur :: split_sentences_from [] false true r
      else split_sentences_from (c :: cur) (is_sentence_end c) false r
  end.

Definition split_sentences (line : jstring) : list jstring :=
  split_sentences_from [] false false line.

(** The loop of [tightenCleanTranscript]. *)
Fixpoint tighten_from (cleaned : list jstring) (rawParts : list jstring)
  : list jstring :=
  match rawParts with
  | [] => cleaned
  | part :: rest =>
      let sentence := normalizeSentence part in
      if negb (truthy sentence) then tighten_from cleaned rest
      else if isFillerSentence sentence then tighten_from cleaned rest
      else
        let repeated :=
          match last_of cleaned with
          | Some last => truthy last && isNearDuplicateText last sentence
          | None => false
          end in
        if repeated then tighten_from cleaned rest
        else tighten_from (cleaned ++ [sentence]) rest
  end.

Definition tightenCleanTranscript (text : jstring) : jstring :=
  if negb (truthy text) then []
  else
    let rawParts :=
      flat_map split_sentences
        (split_runs (fun c => N.eqb c 10)
           (map (fun c => if N.eqb c 13 then 10%N else c) text)) in
    trim (collapse_ws (join [SP] (tighten_from [] rawParts))).

(** ** Reading the reply of the model *)

Definition ends_with (s suffix : jstring) : bool :=
  startsWith (rev s) (rev suffix).

(** [s.indexOf(c)] and [s.lastIndexOf(c)] *)
Fixpoint indexOf_from (i : nat) (c : char) (s : jstring) : option nat :=
  match s with
  | [] => None
  | x :: r => if N.eqb x c then Some i else indexOf_from (S i) c r
  end.

Definition indexOf (c : char) (s : jstring) : option nat := indexOf_from 0 c s.

Definition lastIndexOf (c : char) (s : jstring) : option nat :=
  match indexOf c (rev s) with
  | Some i => Some (length s - 1 - i)
  | None => None
  end.

Definition strip_fences (text : jstring) : jstring :=
  let s := trim text in
  (* .replace(/^```json\s*/i, '') *)
  let s := if match_here (plit "```json") (fun _ => true) s
           then dropWhile is_space (skipn 7 s) else s in
  (* .replace(/^```\s*/i, '') *)
  let s := if startsWith s (lit "```")
           then dropWhile is_space (skipn 3 s) else s in
  (* .replace(/\s*```$/, '') *)
  let s := if ends_with s (lit "```")
           then dropEndWhile is_space (firstn (length s - 3) s) else s in
  trim s.

(** ** Settings *)

Record AiSettings : Type := mkAiSettings {
  aiNotesEnabled : bool;
  provider : Provider;
  keys : Provider -> jstring;
  models : Provider -> jstring
}.

(** [a || b] on strings *)
Definition or_str (a b : jstring) : jstring := if truthy a then a else b.

(** [typeof v === 'string' ? v.trim() : ''] *)
Definition trimmed_string (v : value) : jstring :=
  match v with
  | VStr s => trim s
  | _ => []
  end.

Definition normalizeModelName (name : value) : jstring :=
  match name with
  | VStr s =>
      if negb (truthy s) then []
      else trim (if startsWith s (lit "models/") then skipn 7 s else s)
  | _ => []
  end.

Definition getStoredKey (stored : value) (p : Provider) : jstring :=
  let keys := and_get stored "keys" in
  if js_truthy keys then trimmed_string (get keys (provider_name p)) else [].

Definition getStoredModel (stored : value) (p : Provider) : jstring :=
  let models := and_get stored "models" in
  if js_truthy models then
    match get models (provider_name p) with
    | VStr s => normalizeModelName (VStr s)
    | _ => []
    end
  else [].

(** The settings [getAiSettings] builds from the stored value and from the
    keys of the worker's global scope. *)
Definition settings_of (storedValue : value) (globals : Provider -> value)
  : AiSettings :=
  let stored := if js_truthy storedValue then storedValue else VObj [] in
  let envKeys := fun p => trimmed_string (globals p) in
  let legacyGeminiKey := trimmed_string (get stored "apiKey") in
  let keys := fun p =>
    match p with
    | GEMINI => or_str (or_str (getStoredKey stored GEMINI) legacyGeminiKey)
                       (envKeys GEMINI)
    | _ => or_str (getStoredKey stored p) (envKeys p)
    end in
  let models := fun p =>
    match p with
    | GEMINI => or_str (or_str (getStoredModel stored GEMINI)
                               (normalizeModelName (get stored "model")))
                       (lit (DEFAULT_MODELS GEMINI))
    | _ => or_str (getStoredModel stored p) (lit (DEFAULT_MODELS p))
    end in
  mkAiSettings (js_truthy (get stored "aiNotesEnabled"))
               (match valid_provider (get stored "provider") with
                | Some p => p
                | None => DEFAULT_PROVIDER
                end)
               keys models.

Definition getProviderApiKey (settings : AiSettings) (p : Provider) : jstring :=
  trim (keys settings p).

(** ** The world of the worker *)

Inductive Broadcast : Type :=
| NOTES_UPDATE (notes : NotesState)
| ERROR (message : jstring).

Inductive CallKind : Type := CLEAN | MERGE | REPAIR.

(** An outbound model call: when it started and when it ended. *)
Record ModelCall : Type := mkCall {
  call_kind : CallKind;
  call_provider : Provider;
  call_start : Z;
  call_end : Z
}.

(** The state of the worker and what it has done: the stored notes and
    settings, the time of the last pass through the rate limiter, the clock
    ([Date.now()], which advances while the worker awaits), the messages
    broadcast, the console, the model calls made, the chunk tasks run and the
    errors thrown, each oldest first. *)
Record World : Type := mkWorld {
  notesState : value;
  aiSettings : value;
  envKeys : Provider -> value;
  lastLlmCallAt : Z;
  now : Z;
  sidePanel : list Broadcast;
  console : list jstring;
  modelCalls : list ModelCall;
  tasksRun : list (option Finalized.t);
  thrown : list jstring
}.

Definition set_notesState (x : value) (w : World) : World :=
  mkWorld x (aiSettings w) (envKeys w) (lastLlmCallAt w) (now w) (sidePanel w)
    (console w) (modelCalls w) (tasksRun w) (thrown w).
Definition set_aiSettings (x : value) (w : World) : World :=
  mkWorld (notesState w) x (envKeys w) (lastLlmCallAt w) (now w) (sidePanel w)
    (console w) (modelCalls w) (tasksRun w) (thrown w).
Definition set_envKeys (x : Provider -> value) (w : World) : World :=
  mkWorld (notesState w) (aiSettings w) x (lastLlmCallAt w) (now w)
    (sidePanel w) (console w) (modelCalls w) (tasksRun w) (thrown w).
Definition set_lastLlmCallAt (x : Z) (w : World) : World :=
  mkWorld (notesState w) (aiSettings w) (envKeys w) x (now w) (sidePanel w)
    (console w) (modelCalls w) (tasksRun w) (thrown w).
Definition set_now (x : Z) (w : World) : World :=
  mkWorld (notesState w) (aiSettings w) (envKeys w) (lastLlmCallAt w) x
    (sidePanel w) (console w) (modelCalls w) (tasksRun w) (thrown w).
Definition set_sidePanel (x : list Broadcast) (w : World) : World :=
  mkWorld (notesState w) (aiSettings w) (envKeys w) (lastLlmCallAt w)
    (now w) x (console w) (modelCalls w) (tasksRun w) (thrown w).
Definition set_console (x : list jstring) (w : World) : World :=
  mkWorld (notesState w) (aiSettings w) (envKeys w) (lastLlmCallAt w) (now w)
    (sidePanel w) x (modelCalls w) (tasksRun w) (thrown w).
Definition set_modelCalls (x : list ModelCall) (w : World) : World :=
  mkWorld (notesState w) (aiSettings w) (envKeys w) (lastLlmCallAt w) (now w)
    (sidePanel w) (console w) x (tasksRun w) (thrown w).
Definition set_tasksRun (x : list (option Finalized.t)) (w : World) : World :=
  mkWorld (notesState w) (aiSettings w) (envKeys w) (lastLlmCallAt w) (now w)
    (sidePanel w) (console w) (modelCalls w) x (thrown w).
Definition set_thrown (x : list jstring) (w : World) : World :=
  mkWorld (notesState w) (aiSettings w) (envKeys w) (lastLlmCallAt w) (now w)
    (sidePanel w) (console w) (modelCalls w) (tasksRun w) x.

(** ** Asynchronous code *)

Inductive Outcome (A : Type) : Type :=
| Returns (a : A)
| Throws (message : jstring).

Arguments Returns {A} a.
Arguments Throws {A} message.

(** What an awaited operation of the environment yields, and how long the
    worker waits for it. *)
Record Await (A : Type) : Type := mkAwait {
  outcome : Outcome A;
  took : N
}.

Definition M (A : Type) : Type := World -> Outcome A * World.

Definition ret {A} (a : A) : M A := fun w => (Returns a, w).

Definition bind {A B} (m : M A) (k : A -> M B) : M B :=
  fun w =>
    match m w with
    | (Returns a, w') => k a w'
    | (Throws e, w') => (Throws e, w')
    end.

Notation "x <- m ;; k" := (bind m (fun x => k))
  (at level 61, m at next level, right associativity).
Notation "m ;;; k" := (bind m (fun _ => k))
  (at level 61, right associativity).

(** [throw new Error(message)] *)
Definition throw {A} (message : jstring) : M A :=
  fun w => (Throws message, set_thrown (thrown w ++ [message]) w).

(** [try { body } catch (error) { handler }] *)
Definition try_catch {A} (body : M A) (handler : jstring -> M A) : M A :=
  fun w =>
    match body w with
    | (Returns a, w') => (Returns a, w')
    | (Throws e, w') => handler e w'
    end.

(** [await operation] *)
Definition await {A} (a : Await A) : M A :=
  fun w =>
    let w := set_now (now w + Z.of_N (took a)) w in
    match outcome a with
    | Returns x => (Returns x, w)
    | Throws e => (Throws e, set_thrown (thrown w ++ [e]) w)
    end.

Definition read {A} (f : World -> A) : M A := fun w => (Returns (f w), w).
Definition write (f : World -> World) : M unit := fun w => (Returns tt, f w).

Definition broadcastToSidePanel (message : Broadcast) : M unit :=
  write (fun w => set_sidePanel (sidePanel w ++ [message]) w).

Definition console_error (line : jstring) : M unit :=
  write (fun w => set_console (console w ++ [line]) w).

(** What the environment answers to one chunk task: the two storage reads,
    the lateness of the timer of [sleep], the model resolution, the three
    model calls, the text of [new Date().toISOString()] and the storage
    write. *)
Record TaskEnv : Type := mkTaskEnv {
  notesRead : Await unit;
  settingsRead : Await unit;
  sleepLate : N;
  resolved : Await jstring;
  cleaned : Await jstring;
  merged : Await jstring;
  repaired : Await jstring;
  isoNow : jstring;
  stored : Await unit
}.

Definition getNotesState (env : TaskEnv) : M NotesState :=
  await (notesRead env) ;;;
  read (fun w => normalizeNotesState (notesState w)).

(** [chrome.storage.session.set] stores the value and resolves, or rejects
    and stores nothing. *)
Definition updateNotesState (env : TaskEnv) (notes : NotesState) : M unit :=
  await (stored env) ;;;
  write (set_notesState
           (value_of_notes (normalizeNotesState (value_of_notes notes)))).

Definition getAiSettings (env : TaskEnv) : M AiSettings :=
  await (settingsRead env) ;;;
  read (fun w => settings_of (aiSettings w) (envKeys w)).

(** [sleep(ms)]: the timer fires [ms] milliseconds later, or later still. *)
Definition sleep (env : TaskEnv) (ms : Z) : M unit :=
  await (mkAwait (Returns tt) (Z.to_N ms + sleepLate env)).

Definition waitForRateLimit (env : TaskEnv) : M unit :=
  t <- read now ;;
  lastCall <- read lastLlmCallAt ;;
  let delay := Z.max 0 (MIN_LLM_INTERVAL_MS - (t - lastCall)) in
  (if (0 <? delay)%Z then sleep env delay else ret tt) ;;;
  t' <- read now ;;
  write (set_lastLlmCallAt t').

(** [callModelText]: one call to the provider, with its own retries.  The
    prompts are not modelled: the answer is whatever the environment says,
    so the texts that only enter a prompt (the tail context, the heading
    inventory) have no part in what follows. *)
Definition callModelText (kind : CallKind) (p : Provider)
  (answer : Await jstring) : M jstring :=
  fun w =>
    let started := now w in
    let '(r, w) := await answer w in
    (r, set_modelCalls (modelCalls w ++ [mkCall kind p started (now w)]) w).

(** ** What a computation may do, for the proofs *)

(** The call was made between the two times. *)
Definition in_window (lo hi : Z) (c : ModelCall) : Prop :=
  (lo <= call_start c /\ call_start c <= call_end c /\ call_end c <= hi)%Z.

(** From [w] to [w']: time has passed and model calls have been made, and
    nothing else has changed. *)
Record effects (w w' : World) : Prop := {
  ef_notes : notesState w' = notesState w;
  ef_settings : aiSettings w' = aiSettings w;
  ef_envKeys : envKeys w' = envKeys w;
  ef_last : lastLlmCallAt w' = lastLlmCallAt w;
  ef_now : (now w <= now w')%Z;
  ef_panel : sidePanel w' = sidePanel w;
  ef_console : console w' = console w;
  ef_tasks : tasksRun w' = tasksRun w;
  ef_calls : exists calls,
      modelCalls w' = modelCalls w ++ calls /\
      Forall (in_window (now w) (now w')) calls
}.

(** The errors thrown are recorded: none when the computation returns, the
    one it throws otherwise. *)
Definition tracks {A} (r : Outcome A) (w w' : World) : Prop :=
  match r with
  | Returns _ => thrown w' = thrown w
  | Throws e => thrown w' = thrown w ++ [e]
  end.

Definition quiet {A} (m : M A) : Prop :=
  forall w, effects w (snd (m w)) /\ tracks (fst (m w)) w (snd (m w)).

(** From [w] to [w']: the rate limiter has been passed, and nothing else
    has changed. *)
Record limiter_passed (w w' : World) : Prop := {
  lp_notes : notesState w' = notesState w;
  lp_settings : aiSettings w' = aiSettings w;
  lp_envKeys : envKeys w' = envKeys w;
  lp_stamp : lastLlmCallAt w' = now w';
  lp_spacing : (lastLlmCallAt w + MIN_LLM_INTERVAL_MS <= lastLlmCallAt w')%Z;
  lp_now : (now w <= now w')%Z;
  lp_panel : sidePanel w' = sidePanel w;
  lp_console : console w' = console w;
  lp_tasks : tasksRun w' = tasksRun w;
  lp_calls : modelCalls w' = modelCalls w;
  lp_thrown : thrown w' = thrown w
}.

(** What a task that reached the rate limiter has done when it ends: it has
    passed the limiter, made its model calls after that, and either stored
    and broadcast new notes without an error, or thrown one error, logged
    and broadcast it, and left the notes alone. *)
Record worked (w w' : World) : Prop := {
  wk_spacing : (lastLlmCallAt w + MIN_LLM_INTERVAL_MS <= lastLlmCallAt w')%Z;
  wk_stamp : (now w <= lastLlmCallAt w')%Z;
  wk_tasks : tasksRun w' = tasksRun w;
  wk_calls : exists calls,
      modelCalls w' = modelCalls w ++ calls /\
      Forall (fun c => (lastLlmCallAt w' <= call_start c)%Z /\
                       (call_start c <= call_end c)%Z) calls;
  wk_result :
    (thrown w' = thrown w /\ console w' = console w /\
     exists updatedNotes,
       sidePanel w' = sidePanel w ++ [NOTES_UPDATE updatedNotes] /\
       notesState w'
       = value_of_notes (normalizeNotesState (value_of_notes updatedNotes)))
    \/
    (exists e line message,
       thrown w' = thrown w ++ [e] /\
       notesState w' = notesState w /\
       console w' = console w ++ [line] /\
       sidePanel w' = sidePanel w ++ [ERROR message])
}.

(** ** The queue *)

(** A finalized chunk waiting in the queue, with the answers the environment
    will give while it is processed. *)
Record Task : Type := mkTask {
  task_chunk : option Finalized.t;
  task_tailContext : jstring;
  task_env : TaskEnv
}.

(** [promise.then(callback)] and [promise.catch(handler)], for a promise
    known by how it settles. *)
Definition then_ (settled : Outcome unit) (callback : M unit) : M unit :=
  match settled with
  | Returns _ => callback
  | Throws e => fun w => (Throws e, w)
  end.

Definition catch_ (m : M unit) (handler : jstring -> M unit) : M unit :=
  fun w =>
    match m w with
    | (Returns a, w') => (Returns a, w')
    | (Throws e, w') => handler e w'
    end.

(** ** The chunk task *)

Section Parsing.

(** [JSON.parse], which is not part of the repository: the value of a text,
    or [None] when it throws. *)
Variable JSON_parse : jstring -> option value.

(** [tryParseJson]: the parsed value, or [null]. *)
Definition tryParseJson (text : jstring) : value :=
  if negb (truthy text) then VNull
  else
    let stripped := strip_fences text in
    match JSON_parse stripped with
    | Some v => v
    | None =>
        match indexOf 123%N stripped, lastIndexOf 125%N stripped with
        | Some start, Some end_ =>
            if Nat.ltb start end_ then
              match JSON_parse (firstn (end_ + 1 - start) (skipn start stripped))
              with
              | Some v => v
              | None => VNull
              end
            else VNull
        | _, _ => VNull
        end
    end.

Definition parseAndValidateNotesJson (env : TaskEnv) (p : Provider)
  (rawText : jstring) : M NotesState :=
  let parsed := tryParseJson rawText in
  if js_truthy parsed then ret (normalizeNotesState parsed)
  else
    repairedText <- callModelText REPAIR p (repaired env) ;;
    let repaired := tryParseJson repairedText in
    if negb (js_truthy repaired)
    then throw (lit "Model output could not be parsed as valid JSON.")
    else ret (normalizeNotesState repaired).

Definition updateNotesWithLLM (env : TaskEnv) (notes : NotesState)
  (chunk : Finalized.t) (p : Provider) : M NotesState :=
  let previousNotes := normalizeNotesState (value_of_notes notes) in
  cleanedRaw <- callModelText CLEAN p (cleaned env) ;;
  let cleanText := tightenCleanTranscript cleanedRaw in
  if negb (truthy (trim cleanText)) then
    ret (mkNotes (title previousNotes) (sections previousNotes)
                 (lastUpdatedAt previousNotes)
                 (or_else (Some (Finalized.chunkId chunk))
                          (lastChunkId previousNotes)))
  else
    mergedRaw <- callModelText MERGE p (merged env) ;;
    mergedParsed <- parseAndValidateNotesJson env p mergedRaw ;;
    let qualityMerged :=
      enforceCumulativeQuality (value_of_notes previousNotes)
                               (value_of_notes mergedParsed) in
    ret (mkNotes (title qualityMerged) (sections qualityMerged)
                 (Some (isoNow env))
                 (or_else (or_else (Some (Finalized.chunkId chunk))
                                   (lastChunkId qualityMerged)) None)).

(** The body of the [try] of [handleFinalizeChunk]. *)
Definition update_notes (env : TaskEnv) (currentNotes : NotesState)
  (chunk : Finalized.t) (p : Provider) : M unit :=
  await (resolved env) ;;;
  updatedNotes <- updateNotesWithLLM env currentNotes chunk p ;;
  updateNotesState env updatedNotes ;;;
  broadcastToSidePanel (NOTES_UPDATE updatedNotes).

Definition handleFinalizeChunk (env : TaskEnv) (chunk : option Finalized.t)
  (tailContext : jstring) : M unit :=
  write (fun w => set_tasksRun (tasksRun w ++ [chunk]) w) ;;;
  match chunk with
  | None => ret tt
  | Some c =>
      if negb (truthy (Finalized.text c))
         || negb (truthy (trim (Finalized.text c)))
      then ret tt
      else
        currentNotes <- getNotesState env ;;
        aiSettings <- getAiSettings env ;;
        if negb (aiNotesEnabled aiSettings) then ret tt
        else
          let provider := provider aiSettings in
          let apiKey := getProviderApiKey aiSettings provider in
          if negb (truthy apiKey) then
            broadcastToSidePanel
              (ERROR (lit "AI Notes enabled, but no API key saved for "
                      ++ lit (provider_name provider) ++ lit "."))
          else
            waitForRateLimit env ;;;
            try_catch
              (update_notes env currentNotes c provider)
              (fun error =>
                 console_error (lit "Error updating notes with "
                                ++ lit (provider_name provider) ++ lit ": "
                                ++ error) ;;;
                 broadcastToSidePanel
                   (ERROR (lit (provider_name provider)
                           ++ lit " notes update failed: " ++ error)))
  end.

(** The link a FINALIZE_CHUNK message adds to [llmQueue]. *)
Definition enqueue (task : Task) (llmQueue : Outcome unit) : M unit :=
  catch_ (then_ llmQueue
                (handleFinalizeChunk (task_env task) (task_chunk task)
                                     (task_tailContext task)))
         (fun error => console_error (lit "Chunk processing failed: " ++ error)).

(** The links run one after the other, in the order of the messages. *)
Fixpoint drain (tasks : list Task) (llmQueue : Outcome unit) (w : World)
  : Outcome unit * World :=
  match tasks with
  | [] => (llmQueue, w)
  | task :: rest =>
      let '(llmQueue, w) := enqueue task llmQueue w in
      drain rest llmQueue w
  end.

(** ** The parts of a chunk task, for the proofs *)

(** The task from the rate limiter on. *)
Definition model_work (env : TaskEnv) (currentNotes : NotesState)
  (c : Finalized.t) (p : Provider) : M unit :=
  waitForRateLimit env ;;;
  try_catch
    (update_notes env currentNotes c p)
    (fun error =>
       console_error (lit "Error updating notes with "
                      ++ lit (provider_name p) ++ lit ": " ++ error) ;;;
       broadcastToSidePanel
         (ERROR (lit (provider_name p)
                 ++ lit " notes update failed: " ++ error))).

(** The task has text, its two reads succeed, the feature is enabled and
    the active provider has a key: it reaches the rate limiter, with these
    notes and this provider. *)
Definition ready (env : TaskEnv) (chunk : option Finalized.t) (w : World)
  : option (Finalized.t * NotesState * Provider) :=
  match chunk with
  | None => None
  | Some c =>
      if negb (truthy (Finalized.text c))
         || negb (truthy (trim (Finalized.text c)))
      then None
      else
        match outcome (notesRead env), outcome (settingsRead env) with
        | Returns _, Returns _ =>
            let settings := settings_of (aiSettings w) (envKeys w) in
            if aiNotesEnabled settings
               && truthy (getProviderApiKey settings (provider settings))
            then Some (c, normalizeNotesState (notesState w), provider settings)
            else None
        | _, _ => None
        end
  end.

(** The world when the rate limiter is reached. *)
Definition ready_world (env : TaskEnv) (chunk : option Finalized.t)
  (w : World) : World :=
  set_now (now w + Z.of_N (took (notesRead env))
           + Z.of_N (took (settingsRead env)))
          (set_tasksRun (tasksRun w ++ [chunk]) w).

End Parsing.

(** ** A sample run *)

(** A parser that knows one text. *)
Definition sample_parse (s : jstring) : option value :=
  if Js.eqb s (lit "{}") then Some (VObj []) else None.

Definition at_once {A} (a : A) : Await A := mkAwait (Returns a) 0.

(** Answers of a well-behaved environment: storage answers at once, the
    model is resolved in 300 ms, cleans the captions in 1200 ms and merges
    them in 900 ms. *)
Definition sample_env : TaskEnv :=
  mkTaskEnv (at_once tt) (at_once tt) 0
            (mkAwait (Returns (lit "gemini-2.0-flash")) 300)
            (mkAwait (Returns (lit "The cell membrane is semi-permeable.")) 1200)
            (mkAwait (Returns (lit "{}")) 900)
            (mkAwait (Returns (lit "{}")) 900)
            (lit "2026-01-01T00:00:00.000Z")
            (at_once tt).

(** The same environment when the storage write is rejected. *)
Definition failing_store_env : TaskEnv :=
  mkTaskEnv (at_once tt) (at_once tt) 0
            (mkAwait (Returns (lit "gemini-2.0-flash")) 300)
            (mkAwait (Returns (lit "The cell membrane is semi-permeable.")) 1200)
            (mkAwait (Returns (lit "{}")) 900)
            (mkAwait (Returns (lit "{}")) 900)
            (lit "2026-01-01T00:00:00.000Z")
            (mkAwait (Throws (lit "QUOTA_BYTES quota exceeded")) 0).

Definition sample_chunk (n : string) : Finalized.t :=
  Finalized.mk (lit n) (12 # 1) (40 # 1) (lit "the cell membrane is semi-permeable").

Definition no_globals (p : Provider) : value := VUndefined.

(** A worker with a Gemini key and the feature enabled, at time 100000. *)
Definition enabled_world : World :=
  mkWorld VUndefined
          (VObj [ (lit "aiNotesEnabled", VBool true);
                  (lit "provider", VStr (lit "gemini"));
                  (lit "keys", VObj [ (lit "gemini", VStr (lit "sk-test")) ]) ])
          no_globals 0 100000 [] [] [] [] [].

(** The same worker with the feature disabled. *)
Definition disabled_world : World :=
  mkWorld VUndefined
          (VObj [ (lit "aiNotesEnabled", VBool false);
                  (lit "provider", VStr (lit "gemini"));
                  (lit "keys", VObj [ (lit "gemini", VStr (lit "sk-test")) ]) ])
          no_globals 0 100000 [] [] [] [] [].

(** The same worker with the feature enabled and no key. *)
Definition keyless_world : World :=
  mkWorld VUndefined
          (VObj [ (lit "aiNotesEnabled", VBool true);
                  (lit "provider", VStr (lit "openai")) ])
          no_globals 0 100000 [] [] [] [] [].

End Worker.
(* ================================================================== *)
(** * Shapes of de-duplicated lists, for the proofs *)
(* ================================================================== *)

Module Quality.

Import Notes.

(** No text of the list is a near-duplicate of an earlier one. *)
Definition distinct_bullets (l : list jstring) : Prop :=
  ForallOrdPairs
    (fun earlier later => isNearDuplicateText earlier later = false) l.

(** A bullet as [dedupeBullets] keeps it: sanitized from one of the [raw]
    texts. *)
Definition kept_bullet (raw : list jstring) (b : jstring) : Prop :=
  truthy b = true /\ bullet_shape b /\
  exists r, In r raw /\ b = sanitizeBullet (VStr r).

(** The score of a section against a canonical target. *)
Definition heading_score (target : jstring) (s : Section_) : Q :=
  tokenSetSimilarity target (canonicalHeading (heading s)).

(** The headings the merge appends after the headings [before]: each is
    sanitized, is not a placeholder, and has the canonical form of no
    heading before it. *)
Fixpoint fresh_headings (before added : list jstring) : Prop :=
  match added with
  | [] => True
  | h :: rest =>
      (isUsefulHeading h = true /\ sanitizeHeading (VStr h) = h /\
       Forall (fun h0 => canonicalHeading h0 <> canonicalHeading h) before) /\
      fresh_headings (before ++ [h]) rest
  end.

(** No text of the list is a near-duplicate of the text before it. *)
Fixpoint no_repeats (l : list jstring) : Prop :=
  match l with
  | a :: (b :: _) as rest => isNearDuplicateText a b = false /\ no_repeats rest
  | _ => True
  end.

End Quality.

(* ================================================================== *)
(** * Service worker: models, settings and the other messages *)
(* ================================================================== *)

Module Models.

Import Worker.

Definition PREFERRED_MODELS (p : Provider) : list jstring :=
  map lit
    match p with
    | GEMINI => ["gemini-2.5-flash"; "gemini-2.0-flash";
                 "gemini-2.0-flash-lite"; "gemini-1.5-flash";
                 "gemini-1.5-pro"]%string
    | OPENAI => ["gpt-4.1-mini"; "gpt-4o-mini"; "gpt-4o"]%string
    | ANTHROPIC => ["claude-3-5-haiku-latest"; "claude-3-5-sonnet-latest";
                    "claude-3-7-sonnet-latest"]%string
    end.

(** [available.map(normalizeModelName).filter(Boolean)] *)
Definition normalized_names (available : list jstring) : list jstring :=
  filter truthy (map (fun name => normalizeModelName (VStr name)) available).

(** [pickModel]: every caller passes the names of a model list and the
    name of a model, all strings. *)
Definition pickModel (available : list jstring) (requested : jstring)
  (preferredOrder : list jstring) (fallbackDefault : jstring) : jstring :=
  let normalized := normalized_names available in
  let requestedNorm := normalizeModelName (VStr requested) in
  if truthy requestedNorm && mem requestedNorm normalized then requestedNorm
  else
    match find (fun preferred => mem preferred normalized) preferredOrder with
    | Some preferred => preferred
    | None =>
        match normalized with
        | first :: _ => first
        | [] => fallbackDefault
        end
    end.

Definition resolveAnthropicModel (requestedModel : jstring) : jstring :=
  let requested := normalizeModelName (VStr requestedModel) in
  if truthy requested then requested
  else hd [] (PREFERRED_MODELS ANTHROPIC).

End Models.

Module Service.

Import Notes Worker.

(** ** Settings *)

(** [result.aiSettings || {}] *)
Definition stored_settings (storedValue : value) : value :=
  if js_truthy storedValue then storedValue else VObj [].

(** The key and the model [saveAiSettings] starts from, for a provider. *)
Definition kept_key (stored : value) (p : Provider) : jstring :=
  match p with
  | GEMINI => or_str (getStoredKey stored GEMINI)
                     (trimmed_string (get stored "apiKey"))
  | _ => getStoredKey stored p
  end.

Definition kept_model (stored : value) (p : Provider) : jstring :=
  match p with
  | GEMINI => or_str (or_str (getStoredModel stored GEMINI)
                             (normalizeModelName (get stored "model")))
                     (lit (DEFAULT_MODELS GEMINI))
  | _ => or_str (getStoredModel stored p) (lit (DEFAULT_MODELS p))
  end.

(** The key of a provider after the [forEach] over the providers. *)
Definition next_key (stored message : value) (p : Provider) : jstring :=
  let messageKeys := get message "keys" in
  if js_truthy messageKeys && is_object messageKeys then
    match get messageKeys (provider_name p) with
    | VStr raw => if truthy (trim raw) then trim raw else kept_key stored p
    | _ => kept_key stored p
    end
  else kept_key stored p.

Definition next_provider (stored message : value) : Provider :=
  match valid_provider (get message "provider") with
  | Some p => p
  | None =>
      match valid_provider (get stored "provider") with
      | Some p => p
      | None => DEFAULT_PROVIDER
      end
  end.

Definition per_provider (f : Provider -> jstring) : value :=
  VObj [ (lit (provider_name GEMINI), VStr (f GEMINI));
         (lit (provider_name OPENAI), VStr (f OPENAI));
         (lit (provider_name ANTHROPIC), VStr (f ANTHROPIC)) ].

(** The key the message submits for a provider: [''] when it has none. *)
Definition submitted_key (message : value) (p : Provider) : jstring :=
  let messageKeys := get message "keys" in
  if js_truthy messageKeys && is_object messageKeys
  then trimmed_string (get messageKeys (provider_name p))
  else [].

(** The object [saveAiSettings] stores. *)
Definition next_settings (storedValue message : value) : value :=
  let stored := stored_settings storedValue in
  VObj [ (lit "aiNotesEnabled",
          VBool (js_truthy (get message "aiNotesEnabled")));
         (lit "provider",
          VStr (lit (provider_name (next_provider stored message))));
         (lit "keys", per_provider (next_key stored message));
         (lit "models", per_provider (kept_model stored)) ].

(** [saveAiSettings]: the first read of the storage, the write, and
    [getAiSettings] with its own read. *)
Definition saveAiSettings (firstRead written : Await unit) (env : TaskEnv)
  (message : value) : M AiSettings :=
  await firstRead ;;;
  stored <- read aiSettings ;;
  await written ;;;
  write (set_aiSettings (next_settings stored message)) ;;;
  getAiSettings env.

Record AiSettingsView : Type := mkView {
  view_aiNotesEnabled : bool;
  view_provider : Provider;
  activeModel : option jstring;
  keyConfigured : Provider -> bool
}.

Definition buildAiSettingsView (settings : AiSettings) : AiSettingsView :=
  mkView (aiNotesEnabled settings) (provider settings)
         (if truthy (models settings (provider settings))
          then Some (models settings (provider settings)) else None)
         (fun p => truthy (keys settings p)).

(** ** Notes saved by hand *)

Definition saveManualNotesState (env : TaskEnv) (notes : value)
  : M NotesState :=
  let normalized := normalizeNotesState notes in
  let normalized :=
    mkNotes (title normalized) (sections normalized) (Some (isoNow env))
            (lastChunkId normalized) in
  updateNotesState env normalized ;;;
  broadcastToSidePanel (NOTES_UPDATE normalized) ;;;
  ret normalized.

(** ** The sentences of a cleaned transcript *)

(** The [rawParts] of [tightenCleanTranscript]. *)
Definition raw_parts (text : jstring) : list jstring :=
  flat_map split_sentences
    (split_runs (fun c => N.eqb c 10)
       (map (fun c => if N.eqb c 13 then 10%N else c) text)).

(** A sentence as [tightenCleanTranscript] keeps it. *)
Definition kept_sentence (parts : list jstring) (s : jstring) : Prop :=
  truthy s = true /\ isFillerSentence s = false /\
  exists part, In part parts /\ s = normalizeSentence part.

(** ** A reply inside a code fence *)

Definition is_backtick (c : char) : bool := N.eqb c 96.

(** The unit is a [j], in either case. *)
Definition is_j (c : char) : bool := N.eqb (ascii_fold c) 106.

Definition FENCE : jstring := lit "```".

(** A body between two fences: the opening fence, a word after it, and
    white space around the body. *)
Definition fenced (word ws1 body ws2 : jstring) : jstring :=
  FENCE ++ word ++ ws1 ++ body ++ ws2 ++ FENCE.

(** ** What a computation leaves alone, for the proofs *)


(** The kinds of the model calls made from [w] to [w']. *)
Definition kinds_between (w w' : World) (kinds : list CallKind) : Prop :=
  exists calls,
    modelCalls w' = modelCalls w ++ calls /\ map call_kind calls = kinds.


(** ** A sample message *)

(** The side panel saves an OpenAI key and leaves the Gemini field blank. *)
Definition save_message : value :=
  VObj [ (lit "aiNotesEnabled", VBool true);
         (lit "provider", VStr (lit "openai"));
         (lit "keys", VObj [ (lit "openai", VStr (lit "  sk-new  "));
                             (lit "gemini", VStr (lit "   ")) ]) ].

End Service.

(* ================================================================== *)
(** * Content script: the session *)
(* ================================================================== *)

Module Session.

Import Capture.

(** [ensureCaptionElementStillAttached]; [contains] is
    [document.contains] on the caption elements. *)
Definition ensureCaptionElementStillAttached (contains : nat -> bool)
  (env : Env) (st : State) : State :=
  match captionElement st with
  | None => st
  | Some el =>
      if contains el then st
      else findAndAttachCaptionElement env (detachCaptionObserver st)
  end.

Definition tick (contains : nat -> bool) (env : Env) (st : State) : State :=
  let st := refreshVideoMovement env st in
  let st := refreshVideoElement env st in
  let st := ensureCaptionElementStillAttached contains env st in
  sendStatus false env st.

(** The callback of the document observer. *)
Definition documentObserver (contains : nat -> bool) (env : Env)
  (st : State) : State :=
  let st := refreshVideoElement env st in
  let st :=
    match captionElement st with
    | None => findAndAttachCaptionElement env st
    | Some el =>
        if negb (contains el)
        then findAndAttachCaptionElement env (detachCaptionObserver st)
        else st
    end in
  let st := refreshVideoMovement env st in
  sendStatus false env st.

(** What can happen to the script: the caption observer or the document
    observer fires, the timer ticks, a message arrives. *)
Inductive Event : Type :=
| CaptionMutation
| DocumentMutation (contains : nat -> bool)
| Tick (contains : nat -> bool)
| Received (message : Command).

Definition step (event : Event) (env : Env) (st : State) : State :=
  match event with
  | CaptionMutation => handleCaptionChange env st
  | DocumentMutation contains => documentObserver contains env st
  | Tick contains => tick contains env st
  | Received message => onMessage message env st
  end.

(** The events of a session, each with the page as it is then. *)
Fixpoint run (events : list (Event * Env)) (st : State) : State :=
  match events with
  | [] => st
  | (event, env) :: rest => run rest (step event env st)
  end.

(** An event that is not a message. *)
Definition passive (event : Event) : bool :=
  match event with
  | Received _ => false
  | _ => true
  end.

(** ** The shape of the accumulator, for the proofs *)

(** The last status in an outbox. *)
Definition last_status (ms : list Message) : option Status :=
  fold_left (fun acc m => match m with
                          | STATUS_UPDATE payload => Some payload
                          | _ => acc
                          end) ms None.

(** The chunk in progress is made of its parts, and its last part is the
    text of the last transcript entry. *)
Record chunk_coherent (transcript : list Entry.t) (c : Chunk.t) : Prop := {
  cc_parts : Chunk.parts c <> [];
  cc_text : Chunk.text c = join [SP] (Chunk.parts c);
  cc_truthy : Forall (fun part => truthy part = true) (Chunk.parts c);
  cc_last : last_of (Chunk.parts c)
            = option_map Entry.text (last_of transcript)
}.

Record coherent (st : State) : Prop := {
  co_entries :
    Forall (fun e => truthy (Entry.text e) = true) (transcriptBuffer st);
  co_chunk :
    match currentChunk st with
    | Some c => chunk_coherent (transcriptBuffer st) c /\
                chunkStartWallTime st <> None
    | None => chunkStartWallTime st = None
    end;
  co_finalized :
    Forall (fun c => truthy (trim (Finalized.text c)) = true)
           (finalized_chunks (outbox st));
  co_status : last_status (outbox st) = lastSentStatus st
}.

(** The part of the state the shape is about. *)
Definition core (st : State)
  : list Entry.t * option Chunk.t * option Z * list Message * option Status :=
  (transcriptBuffer st, currentChunk st, chunkStartWallTime st, outbox st,
   lastSentStatus st).

(** What the script has recorded. *)
Definition recorded (st : State)
  : bool * list Entry.t * option Chunk.t * list Finalized.t :=
  (isCapturing st, transcriptBuffer st, currentChunk st,
   finalized_chunks (outbox st)).

(** The texts of the entries that [getTailContext] joins. *)
Definition tail_context (env : Env) (transcript : list Entry.t) : jstring :=
  join [SP]
    (map Entry.text
       (filter (fun entry => Qle_bool (page_time env - 30)%Q
                                      (Entry.startTime entry))
               transcript)).

(** The parts of the chunk in progress. *)
Definition open_parts (st : State) : list jstring :=
  match currentChunk st with
  | Some c => Chunk.parts c
  | None => []
  end.

End Session.

(* ================================================================== *)
(** * Service worker: the calls to the providers *)
(* ================================================================== *)

Module Providers.

Import Worker Models.
Import Capture(decimal).

Definition MODEL_CACHE_TTL_MS : Z := 5 * 60 * 1000.

(** An HTTP response, as far as the worker looks at it: [response.text()]
    and [response.json()] are awaited and may reject. *)
Record Response : Type := mkResponse {
  ok : bool;
  status : Z;
  text_ : Await jstring;
  json : Await value
}.

(** The requests of the worker.  Of a chat request the model, the key and
    (for OpenAI) the presence of [response_format] are kept; the prompts and
    the temperature have no part in what follows. *)
Inductive Request : Type :=
| LIST_GEMINI (apiKey : jstring)
| LIST_OPENAI (apiKey : jstring)
| CHAT_GEMINI (model apiKey : jstring)
| CHAT_OPENAI (model apiKey : jstring) (jsonMode : bool)
| CHAT_ANTHROPIC (model apiKey : jstring).

Record CacheEntry : Type := mkCache {
  cache_apiKey : jstring;
  fetchedAt : Z;
  cache_models : list jstring
}.

(** [modelCache], the clock and the requests given to [fetch], oldest
    first. *)
Record Net : Type := mkNet {
  cacheGemini : CacheEntry;
  cacheOpenAI : CacheEntry;
  time : Z;
  requests : list Request
}.

Definition start : Net :=
  mkNet (mkCache [] 0 []) (mkCache [] 0 []) 0 [].

Definition set_cacheGemini (x : CacheEntry) (s : Net) : Net :=
  mkNet x (cacheOpenAI s) (time s) (requests s).
Definition set_cacheOpenAI (x : CacheEntry) (s : Net) : Net :=
  mkNet (cacheGemini s) x (time s) (requests s).
Definition set_time (x : Z) (s : Net) : Net :=
  mkNet (cacheGemini s) (cacheOpenAI s) x (requests s).
Definition set_requests (x : list Request) (s : Net) : Net :=
  mkNet (cacheGemini s) (cacheOpenAI s) (time s) x.

(** Asynchronous code over this state. *)
Definition P (A : Type) : Type := Net -> Outcome A * Net.

Definition unit_ {A} (a : A) : P A := fun s => (Returns a, s).

Definition then_do {A B} (m : P A) (k : A -> P B) : P B :=
  fun s =>
    match m s with
    | (Returns a, s') => k a s'
    | (Throws e, s') => (Throws e, s')
    end.

Notation "x <~ m ;; k" := (then_do m (fun x => k))
  (at level 61, m at next level, right associativity).

Definition raise {A} (message : jstring) : P A := fun s => (Throws message, s).

Definition wait {A} (a : Await A) : P A :=
  fun s => (outcome a, set_time (time s + Z.of_N (took a)) s).

(** The message of the [TypeError] thrown when the property [k] of [null]
    or [undefined] is read, as Chrome words it. *)
Definition type_error (v : value) (k : string) : jstring :=
  lit "Cannot read properties of "
  ++ match v with
     | VNull => lit "null"
     | _ => lit "undefined"
     end
  ++ lit " (reading '" ++ lit k ++ lit "')".

(** Reading a property of a value that may be [null] or [undefined]. *)
Definition member (v : value) (k : string) : P value :=
  match v with
  | VNull | VUndefined => raise (type_error v k)
  | _ => unit_ (get v k)
  end.

(** [encodeURIComponent(s)] throws a [URIError] when [s] holds a surrogate
    that is not part of a pair: a high surrogate (D800-DBFF) that no low
    surrogate (DC00-DFFF) follows, or a low surrogate that follows no high
    one.  The encoded text only enters the address of a request, which is
    not modelled. *)
Definition is_high_surrogate (c : char) : bool :=
  char_in 55296%N 56319%N c.
Definition is_low_surrogate (c : char) : bool :=
  char_in 56320%N 57343%N c.

Fixpoint well_formed (s : jstring) : bool :=
  match s with
  | [] => true
  | c :: r =>
      if is_high_surrogate c then
        match r with
        | low :: r' => is_low_surrogate low && well_formed r'
        | [] => false
        end
      else if is_low_surrogate c then false
      else well_formed r
  end.

Definition encodeURIComponent (s : jstring) : P unit :=
  if well_formed s then unit_ tt else raise (lit "URI malformed").

(** [v[0]] *)
Definition index0 (v : value) : value :=
  match v with
  | VArr (x :: _) => x
  | VStr (c :: _) => VStr [c]
  | VObj props => lookup (lit "0") props
  | _ => VUndefined
  end.

(** ** Reading the replies *)

(** [part && typeof part.text === 'string' ? part.text : ''] *)
Definition text_of (part : value) : jstring :=
  if js_truthy part then
    match get part "text" with
    | VStr t => t
    | _ => []
    end
  else [].

Definition extractGeminiText (data : value) : jstring :=
  let candidates := and_get data "candidates" in
  let candidate := if js_truthy candidates then index0 candidates
                   else candidates in
  if negb (js_truthy candidate) || negb (js_truthy (get candidate "content"))
  then []
  else
    match get (get candidate "content") "parts" with
    | VArr parts => trim (concat (map text_of parts))
    | _ => []
    end.

Definition extractOpenAIText (content : value) : jstring :=
  match content with
  | VStr s => trim s
  | VArr items =>
      trim (concat
              (map (fun item =>
                      match item with
                      | VStr s => s
                      | _ =>
                          if js_truthy item then
                            match get item "text" with
                            | VStr t => t
                            | _ =>
                                match get item "type", get item "value" with
                                | VStr ty, VStr v =>
                                    if Js.eqb ty (lit "text") then v else []
                                | _, _ => []
                                end
                            end
                          else []
                      end) items))
  | _ => []
  end.

Definition extractAnthropicText (data : value) : jstring :=
  let parts :=
    if js_truthy data then
      match get data "content" with
      | VArr parts => parts
      | _ => []
      end
    else [] in
  trim (concat
          (map (fun part =>
                  if js_truthy part then
                    match get part "type", get part "text" with
                    | VStr ty, VStr t =>
                        if Js.eqb ty (lit "text") then t else []
                    | _, _ => []
                    end
                  else []) parts)).

(** [choice && choice.message ? choice.message.content : ''], for the
    [choice] of [callOpenAIText]. *)
Definition openai_content (data : value) : value :=
  let choice :=
    if js_truthy data then
      match get data "choices" with
      | VArr choices => index0 (VArr choices)
      | _ => VNull
      end
    else VNull in
  if js_truthy choice && js_truthy (get choice "message")
  then get (get choice "message") "content"
  else VStr [].

(** ** The names of a model list *)

Definition nullish (v : value) : bool :=
  match v with
  | VNull | VUndefined => true
  | _ => false
  end.

(** [methods.includes('generateContent')] *)
Definition generates (model : value) : bool :=
  match get model "supportedGenerationMethods" with
  | VArr methods =>
      existsb (fun m => match m with
                        | VStr s => Js.eqb s (lit "generateContent")
                        | _ => false
                        end) methods
  | _ => false
  end.

(** The [filter], [map], [filter] of [listGeminiModels]; the filter throws
    at the first model that is [null] or [undefined], whose property it
    reads. *)
Definition gemini_names (models : list value) : P (list jstring) :=
  match find nullish models with
  | Some model => raise (type_error model "supportedGenerationMethods")
  | None =>
      unit_ (filter truthy
               (map (fun model => normalizeModelName (get model "name"))
                    (filter generates models)))
  end.

Definition openai_names (models : list value) : list jstring :=
  filter truthy
    (map (fun model =>
            if js_truthy model then
              match get model "id" with
              | VStr id => trim id
              | _ => []
              end
            else []) models).

Definition array_or_empty (v : value) : list value :=
  match v with
  | VArr items => items
  | _ => []
  end.

Definition cache_hit (cache : CacheEntry) (apiKey : jstring) (now : Z)
  : bool :=
  Js.eqb (cache_apiKey cache) apiKey
  && (now - fetchedAt cache <? MODEL_CACHE_TTL_MS)%Z
  && Nat.ltb 0 (length (cache_models cache)).

(** The parameters of a chat call that decide what it does. *)
Record Params : Type := mkParams {
  model : jstring;
  apiKey : jstring;
  jsonReply : bool;
  _retriedModel : bool;
  _retryWithoutJsonMode : bool
}.

Definition with_model (m : jstring) (params : Params) : Params :=
  mkParams m (apiKey params) (jsonReply params) true
           (_retryWithoutJsonMode params).

Definition without_json_mode (params : Params) : Params :=
  mkParams (model params) (apiKey params) (jsonReply params)
           (_retriedModel params) true.

Section Replies.

(** How the successive calls of [fetch] settle: with the response of the
    network, or rejected. *)
Variable replies : nat -> Await Response.

(** [await fetch(...)]: the call is recorded, and settles as the network
    says. *)
Definition fetch (request : Request) : P Response :=
  fun s =>
    wait (replies (length (requests s)))
         (set_requests (requests s ++ [request]) s).

Definition listGeminiModels (key : jstring) : P (list jstring) :=
  fun s =>
    let cache := cacheGemini s in
    let now := time s in
    if cache_hit cache key now then (Returns (cache_models cache), s)
    else
      (encoded <~ encodeURIComponent key ;;
       response <~ fetch (LIST_GEMINI key) ;;
       if negb (ok response) then
         body <~ wait (text_ response) ;;
         raise (lit "Gemini ListModels failed (" ++ decimal (status response)
                ++ lit "): " ++ firstn 300 body)
       else
         data <~ wait (json response) ;;
         models <~ member data "models" ;;
         names <~ gemini_names (array_or_empty models) ;;
         fun s => (Returns names, set_cacheGemini (mkCache key now names) s))
        s.

Definition listOpenAIModels (key : jstring) : P (list jstring) :=
  fun s =>
    let cache := cacheOpenAI s in
    let now := time s in
    if cache_hit cache key now then (Returns (cache_models cache), s)
    else
      (response <~ fetch (LIST_OPENAI key) ;;
       if negb (ok response) then
         body <~ wait (text_ response) ;;
         raise (lit "OpenAI ListModels failed (" ++ decimal (status response)
                ++ lit "): " ++ firstn 300 body)
       else
         data <~ wait (json response) ;;
         models <~ member data "data" ;;
         let names := openai_names (array_or_empty models) in
         fun s => (Returns names, set_cacheOpenAI (mkCache key now names) s))
        s.

Definition resolveGeminiModel (key requestedModel : jstring) : P jstring :=
  available <~ listGeminiModels key ;;
  unit_ (pickModel available requestedModel (PREFERRED_MODELS GEMINI)
                   (lit (DEFAULT_MODELS GEMINI))).

Definition resolveOpenAIModel (key requestedModel : jstring) : P jstring :=
  available <~ listOpenAIModels key ;;
  unit_ (pickModel available requestedModel (PREFERRED_MODELS OPENAI)
                   (lit (DEFAULT_MODELS OPENAI))).

(** [throw new Error(`... API ${status} (${model}): ${body.slice(0, 400)}`)] *)
Definition api_error (name : string) (response : Response) (m : jstring)
  : P jstring :=
  errorBody <~ wait (text_ response) ;;
  raise (lit name ++ lit " API " ++ decimal (status response) ++ lit " ("
         ++ m ++ lit "): " ++ firstn 400 errorBody).

(** The three chat calls.  Each calls itself again with a flag set that it
    tests before it does: [self] is that call. *)
Definition callGeminiText_body (self : Params -> P jstring) (params : Params)
  : P jstring :=
  let requestedModel :=
    normalizeModelName
      (VStr (or_str (model params) (lit (DEFAULT_MODELS GEMINI)))) in
  encodedModel <~ encodeURIComponent requestedModel ;;
  encodedKey <~ encodeURIComponent (apiKey params) ;;
  response <~ fetch (CHAT_GEMINI requestedModel (apiKey params)) ;;
  if negb (ok response) then
    if (status response =? 404)%Z && negb (_retriedModel params) then
      fallbackModel <~ resolveGeminiModel (apiKey params) requestedModel ;;
      if truthy fallbackModel && negb (Js.eqb fallbackModel requestedModel)
      then self (with_model fallbackModel params)
      else api_error "Gemini" response requestedModel
    else api_error "Gemini" response requestedModel
  else
    data <~ wait (json response) ;;
    let text := extractGeminiText data in
    if negb (truthy text) then raise (lit "Gemini returned no text output.")
    else unit_ text.

Definition callOpenAIText_body (self : Params -> P jstring) (params : Params)
  : P jstring :=
  let requestedModel :=
    or_str (model params) (lit (DEFAULT_MODELS OPENAI)) in
  let jsonMode := jsonReply params && negb (_retryWithoutJsonMode params) in
  response <~ fetch (CHAT_OPENAI requestedModel (apiKey params) jsonMode) ;;
  if negb (ok response) then
    let after_model :=
      if (status response =? 400)%Z && jsonMode
         && negb (_retryWithoutJsonMode params)
      then self (without_json_mode params)
      else api_error "OpenAI" response requestedModel in
    if (status response =? 404)%Z && negb (_retriedModel params) then
      fallbackModel <~ resolveOpenAIModel (apiKey params) requestedModel ;;
      if truthy fallbackModel && negb (Js.eqb fallbackModel requestedModel)
      then self (with_model fallbackModel params)
      else after_model
    else after_model
  else
    data <~ wait (json response) ;;
    let text := extractOpenAIText (openai_content data) in
    if negb (truthy text) then raise (lit "OpenAI returned no text output.")
    else unit_ text.

Definition callAnthropicText_body (self : Params -> P jstring)
  (params : Params) : P jstring :=
  let requestedModel :=
    or_str (model params) (lit (DEFAULT_MODELS ANTHROPIC)) in
  response <~ fetch (CHAT_ANTHROPIC requestedModel (apiKey params)) ;;
  if negb (ok response) then
    if (status response =? 404)%Z && negb (_retriedModel params) then
      let fallbackModel := resolveAnthropicModel requestedModel in
      if truthy fallbackModel && negb (Js.eqb fallbackModel requestedModel)
      then self (with_model fallbackModel params)
      else api_error "Anthropic" response requestedModel
    else api_error "Anthropic" response requestedModel
  else
    data <~ wait (json response) ;;
    let text := extractAnthropicText data in
    if negb (truthy text) then raise (lit "Anthropic returned no text output.")
    else unit_ text.

(** The call made when every flag is set makes no further call. *)
Definition no_further_call (params : Params) : P jstring :=
  raise (lit "unreachable").

(** A call sets one flag when it calls itself, so the calls nest at most
    twice for Gemini and Anthropic (one flag) and three times for OpenAI
    (two flags). *)
Definition callGeminiText : Params -> P jstring :=
  callGeminiText_body (callGeminiText_body no_further_call).

Definition callOpenAIText : Params -> P jstring :=
  callOpenAIText_body
    (callOpenAIText_body (callOpenAIText_body no_further_call)).

Definition callAnthropicText : Params -> P jstring :=
  callAnthropicText_body (callAnthropicText_body no_further_call).

End Replies.

(** ** What a call has sent, for the proofs *)

(** The calls of [fetch] made from [s] to [s']. *)
Definition sent_between (s s' : Net) (sent : list Request) : Prop :=
  requests s' = requests s ++ sent.

Definition is_chat (request : Request) : bool :=
  match request with
  | LIST_GEMINI _ | LIST_OPENAI _ => false
  | _ => true
  end.

(** What a chat call may return: text that is not empty and is trimmed. *)
Definition text_reply (r : Outcome jstring) : Prop :=
  match r with
  | Returns text => truthy text = true /\ trim text = text
  | Throws _ => True
  end.

(** The call sends at most [chats] chat requests and [total] requests in
    all, and what it returns is text. *)
Definition bounded_call (call : P jstring) (s : Net) (chats total : nat)
  : Prop :=
  exists sent,
    sent_between s (snd (call s)) sent /\
    length (filter is_chat sent) <= chats /\
    length sent <= total /\
    text_reply (fst (call s)).

(** The requests for a model list among those of a call: none, or one. *)
Definition list_requests (lst : list Request) : Prop :=
  length lst <= 1 /\ filter is_chat lst = [].

(** After a call of [listModels] at [s] that ended at [s1] with [names]: the
    cache holds the names for the key, stamped with the time at which the
    call began unless the call was itself served from the cache, and serves
    them without a request for as long as it is fresh. *)
Definition cached (listModels : jstring -> P (list jstring))
  (cache : Net -> CacheEntry) (key : jstring) (s s1 : Net)
  (names : list jstring) : Prop :=
  cache_apiKey (cache s1) = key /\
  cache_models (cache s1) = names /\
  (cache s1 = cache s \/ fetchedAt (cache s1) = time s) /\
  forall s2,
    cache s2 = cache s1 ->
    (time s2 - fetchedAt (cache s1) < MODEL_CACHE_TTL_MS)%Z ->
    listModels key s2 = (Returns names, s2).

End Providers.


(* ================================================================== *)
(** * Facts about strings *)
(* ================================================================== *)

Module JsFacts.

Lemma eqb_refl (s : jstring) : Js.eqb s s = true.
Proof.
  induction s as [|c s IH]; simpl; [reflexivity|].
  now rewrite N.eqb_refl, IH.
Qed.

Lemma eqb_eq (a b : jstring) : Js.eqb a b = true <-> a = b.
Proof.
  split.
  - revert b; induction a as [|x a IH]; intros [|y b] H; simpl in H;
      try discriminate; [reflexivity|].
    apply andb_true_iff in H as [Hx Hab].
    apply N.eqb_eq in Hx. apply IH in Hab. congruence.
  - intros ->. apply eqb_refl.
Qed.

Lemma dropWhile_head p s : head_not p (dropWhile p s) = true.
Proof.
  induction s as [|c s IH]; simpl; [reflexivity|].
  destruct (p c) eqn:E; [exact IH|]. simpl. now rewrite E.
Qed.

Lemma dropWhile_fix p s : head_not p s = true -> dropWhile p s = s.
Proof.
  destruct s as [|c s]; simpl; [reflexivity|].
  now destruct (p c).
Qed.

Lemma dropWhile_suffix p s : exists pre, s = pre ++ dropWhile p s.
Proof.
  induction s as [|c s [pre IH]]; simpl.
  - now exists [].
  - destruct (p c).
    + exists (c :: pre). simpl. now rewrite <- IH.
    + now exists [].
Qed.

Lemma dropEndWhile_last p s : head_not p (rev (dropEndWhile p s)) = true.
Proof.
  unfold dropEndWhile. rewrite rev_involutive. apply dropWhile_head.
Qed.

Lemma dropEndWhile_fix p s :
  head_not p (rev s) = true -> dropEndWhile p s = s.
Proof.
  intros H. unfold dropEndWhile. rewrite (dropWhile_fix _ _ H).
  apply rev_involutive.
Qed.

Lemma dropEndWhile_prefix p s : exists suf, s = dropEndWhile p s ++ suf.
Proof.
  unfold dropEndWhile.
  destruct (dropWhile_suffix p (rev s)) as [pre H].
  exists (rev pre).
  rewrite <- rev_app_distr, <- H. symmetry. apply rev_involutive.
Qed.

(** The head of a non-empty prefix is the head of the whole. *)
Lemma head_not_prefix p (a b : jstring) :
  head_not p (a ++ b) = true -> head_not p a = true.
Proof. destruct a; simpl; auto. Qed.

(** The last unit of a non-empty suffix is the last unit of the whole. *)
Lemma last_not_suffix p (a b : jstring) :
  b <> [] -> head_not p (rev (a ++ b)) = true -> head_not p (rev b) = true.
Proof.
  intros Hb. rewrite rev_app_distr.
  destruct (rev b) as [|c r] eqn:E.
  - apply (f_equal (@rev _)) in E. rewrite rev_involutive in E. contradiction.
  - simpl. auto.
Qed.

Lemma trim_head s : head_not is_space (trim s) = true.
Proof.
  unfold trim.
  destruct (dropEndWhile_prefix is_space (dropWhile is_space s)) as [suf H].
  apply head_not_prefix with (b := suf). rewrite <- H. apply dropWhile_head.
Qed.

Lemma trim_last s : head_not is_space (rev (trim s)) = true.
Proof. apply dropEndWhile_last. Qed.

Lemma trim_fix s :
  head_not is_space s = true -> head_not is_space (rev s) = true ->
  trim s = s.
Proof.
  intros H1 H2. unfold trim. rewrite (dropWhile_fix _ _ H1).
  now apply dropEndWhile_fix.
Qed.

Lemma trim_idem s : trim (trim s) = trim s.
Proof. apply trim_fix; [apply trim_head | apply trim_last]. Qed.

(** ** Collapsed strings *)

Lemma collapsed_weaken s :
  collapsed_from true s = true -> collapsed_from false s = true.
Proof.
  destruct s as [|c s]; simpl; [reflexivity|].
  destruct (is_space c); [|auto].
  rewrite andb_false_r. discriminate.
Qed.

Lemma collapsed_collapse f s : collapsed_from f (collapse_from f s) = true.
Proof.
  revert f; induction s as [|c s IH]; intros f; simpl; [reflexivity|].
  destruct (is_space c) eqn:Ec.
  - destruct f; [apply IH|].
    simpl. change (is_space SP) with true. simpl. apply IH.
  - simpl. rewrite Ec. apply IH.
Qed.

Lemma collapse_fix f s : collapsed_from f s = true -> collapse_from f s = s.
Proof.
  revert f; induction s as [|c s IH]; intros f H; simpl in *; [reflexivity|].
  destruct (is_space c) eqn:Ec.
  - apply andb_true_iff in H as [H Hs]. apply andb_true_iff in H as [Hc Hf].
    apply N.eqb_eq in Hc. destruct f; [discriminate|].
    subst c. now rewrite IH.
  - now rewrite IH.
Qed.

Lemma collapsed_app_l f a b :
  collapsed_from f (a ++ b) = true -> collapsed_from f a = true.
Proof.
  revert f; induction a as [|c a IH]; intros f H; simpl in *; [reflexivity|].
  destruct (is_space c).
  - apply andb_true_iff in H as [H Hs]. rewrite H. simpl. now apply IH.
  - now apply IH.
Qed.

Lemma collapsed_app_r f a b :
  collapsed_from f (a ++ b) = true -> collapsed_from false b = true.
Proof.
  revert f; induction a as [|c a IH]; intros f H; simpl in *.
  - destruct f; [now apply collapsed_weaken | exact H].
  - destruct (is_space c).
    + apply andb_true_iff in H as [_ Hs]. now apply IH in Hs.
    + now apply IH in H.
Qed.

Lemma collapsed_dropWhile p s :
  collapsed_from false s = true -> collapsed_from false (dropWhile p s) = true.
Proof.
  intros H. destruct (dropWhile_suffix p s) as [pre E].
  rewrite E in H. now apply collapsed_app_r in H.
Qed.

Lemma collapsed_dropEndWhile p s :
  collapsed_from false s = true ->
  collapsed_from false (dropEndWhile p s) = true.
Proof.
  intros H. destruct (dropEndWhile_prefix p s) as [suf E].
  rewrite E in H. now apply collapsed_app_l in H.
Qed.

Lemma collapsed_trim s :
  collapsed_from false s = true -> collapsed_from false (trim s) = true.
Proof.
  intros H. unfold trim.
  now apply collapsed_dropEndWhile, collapsed_dropWhile.
Qed.

(** ** Lengths *)

Lemma dropWhile_length p s : length (dropWhile p s) <= length s.
Proof.
  destruct (dropWhile_suffix p s) as [pre E].
  rewrite E at 2. rewrite length_app. lia.
Qed.

Lemma dropEndWhile_length p s : length (dropEndWhile p s) <= length s.
Proof.
  destruct (dropEndWhile_prefix p s) as [suf E].
  rewrite E at 2. rewrite length_app. lia.
Qed.

Lemma trim_length s : length (trim s) <= length s.
Proof.
  unfold trim.
  pose proof (dropEndWhile_length is_space (dropWhile is_space s)).
  pose proof (dropWhile_length is_space s). lia.
Qed.

Lemma truthy_nonempty (s : jstring) : truthy s = true <-> s <> [].
Proof. destruct s; simpl; split; congruence. Qed.

End JsFacts.

(* ================================================================== *)
(** * Facts about normalisation and the quality merge *)
(* ================================================================== *)

Module NotesFacts.

Import Notes JsFacts.

(** ** The scenarios of the specification, evaluated *)

Example banned_bullet_is_rejected :
  sanitizeBullet (VStr (lit "Key exam tip: review chapter 3 before the test"))
  = [].
Proof. vm_compute. reflexivity. Qed.

Example near_duplicate_bullet_is_filtered :
  dedupeBullets [diffusion_along; diffusion_down] = [diffusion_along].
Proof. vm_compute. reflexivity. Qed.

Example same_heading_is_merged :
  map (fun s => (heading s, length (bullets s)))
      (sections (enforceCumulativeQuality biology_notes biology_proposal))
  = [ (lit "Cell Biology :: Membrane Transport", 2);
      (lit "Enzyme Kinetics", 1) ].
Proof. vm_compute. reflexivity. Qed.

Example legacy_fields_are_accepted :
  normalizeNotesState untidy_input
  = mkNotes (Some (lit "Cell Biology"))
            [ mkSection (lit "Membrane Transport")
                [ lit "Diffusion moves molecules down the gradient" ] ]
            None (Some (lit "chunk_7")).
Proof. vm_compute. reflexivity. Qed.

(** ** Sanitizers *)

Lemma space_is_heading_tail c : is_space c = true -> is_heading_tail c = true.
Proof. intros H. unfold is_heading_tail. rewrite H. apply orb_true_r. Qed.

Lemma head_not_tail_space s :
  head_not is_heading_tail s = true -> head_not is_space s = true.
Proof.
  destruct s as [|c s]; simpl; [reflexivity|].
  destruct (is_space c) eqn:E; [|reflexivity].
  now rewrite (space_is_heading_tail _ E).
Qed.

Lemma sanitizeHeading_shape v :
  truthy (sanitizeHeading v) = true -> heading_shape (sanitizeHeading v).
Proof.
  destruct v as [| | | |s| |]; simpl; try discriminate.
  set (X := dropEndWhile is_heading_tail (collapse_ws s)).
  destruct (truthy (trim X)) eqn:Ht; simpl; [|discriminate].
  destruct (Nat.ltb (length (trim X)) 3) eqn:Hl; simpl; [discriminate|].
  intros _.
  assert (HX : collapsed_from false X = true)
    by apply collapsed_dropEndWhile, collapsed_collapse.
  constructor; auto.
  - now apply collapsed_trim.
  - apply trim_head.
  - assert (HlX : head_not is_heading_tail (rev X) = true)
      by apply dropEndWhile_last.
    unfold trim in *.
    destruct (dropWhile_suffix is_space X) as [pre E].
    destruct (dropWhile is_space X) as [|c Y] eqn:EY.
    + discriminate Ht.
    + rewrite E in HlX. apply last_not_suffix in HlX; [|discriminate].
      rewrite dropEndWhile_fix; [exact HlX|].
      now apply head_not_tail_space.
Qed.

Lemma sanitizeHeading_fix h :
  truthy h = true -> heading_shape h -> sanitizeHeading (VStr h) = h.
Proof.
  intros Ht [Hc Hh Hl Hn]. simpl.
  unfold collapse_ws. rewrite (collapse_fix _ _ Hc).
  rewrite (dropEndWhile_fix _ _ Hl).
  rewrite trim_fix; auto using head_not_tail_space.
  now rewrite Ht, Hn.
Qed.

(** Sanitizing a heading twice is sanitizing it once. *)
Lemma sanitizeHeading_idem v :
  sanitizeHeading (VStr (sanitizeHeading v)) = sanitizeHeading v.
Proof.
  destruct (truthy (sanitizeHeading v)) eqn:Ht.
  - apply sanitizeHeading_fix; auto using sanitizeHeading_shape.
  - destruct (sanitizeHeading v); [reflexivity | discriminate].
Qed.

Lemma collapsed_strip s :
  collapsed_from false s = true ->
  collapsed_from false (strip_leading_glyphs s) = true.
Proof.
  intros H. unfold strip_leading_glyphs, strip_leading.
  pose proof (collapsed_dropWhile is_space s H) as H1.
  destruct (dropWhile is_space s) as [|c r]; [exact H|].
  destruct (is_glyph c); [|exact H].
  now apply collapsed_dropWhile, collapsed_dropWhile.
Qed.

Lemma sanitizeBullet_shape v :
  truthy (sanitizeBullet v) = true -> bullet_shape (sanitizeBullet v).
Proof.
  destruct v as [| | | |s| |]; simpl; try discriminate.
  set (X := strip_leading_glyphs (trim (collapse_ws s))).
  destruct (truthy (trim X)) eqn:Ht; simpl; [|discriminate].
  destruct (search BANNED_NOTE_CONTENT_RE (trim X)) eqn:Hb; [discriminate|].
  destruct (Nat.ltb (length (trim X)) 8) eqn:Hl; [discriminate|].
  intros _. constructor; auto using trim_head, trim_last.
  apply collapsed_trim, collapsed_strip, collapsed_trim, collapsed_collapse.
Qed.

(** A sanitized bullet that does not begin with a glyph is left alone. *)
Lemma sanitizeBullet_fix b :
  truthy b = true -> bullet_shape b -> starts_with_glyph b = false ->
  sanitizeBullet (VStr b) = b.
Proof.
  intros Ht [Hc Hh Hl Hb Hn] Hg. simpl.
  unfold collapse_ws. rewrite (collapse_fix _ _ Hc).
  rewrite (trim_fix _ Hh Hl).
  assert (Hs : strip_leading_glyphs b = b).
  { unfold strip_leading_glyphs, strip_leading.
    rewrite (dropWhile_fix _ _ Hh).
    destruct b as [|c r]; [reflexivity|]. simpl in Hg. now rewrite Hg. }
  rewrite Hs, (trim_fix _ Hh Hl), Ht, Hb, Hn. reflexivity.
Qed.

(** ** Normalised notes *)

Lemma nonblank_string_trimmed v t :
  nonblank_string v = Some t -> truthy t = true /\ trim t = t.
Proof.
  destruct v as [| | | |s| |]; simpl; try discriminate.
  destruct (truthy (trim s)) eqn:Ht; [|discriminate].
  intros [= <-]. split; [exact Ht | apply trim_idem].
Qed.

Lemma nonblank_string_option_trimmed v : trimmed_text (nonblank_string v).
Proof.
  destruct (nonblank_string v) eqn:E; simpl; [|exact I].
  now apply nonblank_string_trimmed with (v := v).
Qed.

Lemma nonblank_string_fix o :
  trimmed_text o -> nonblank_string (value_of_option o) = o.
Proof.
  destruct o as [t|]; simpl; [|reflexivity].
  intros [Ht Hf]. now rewrite Hf, Ht.
Qed.

Lemma sanitized_bullets_shape items :
  Forall (fun b => truthy b = true /\ bullet_shape b)
         (filter truthy (map sanitizeBullet items)).
Proof.
  apply Forall_forall. intros b Hb.
  apply filter_In in Hb as [Hin Ht].
  apply in_map_iff in Hin as [v [<- _]].
  split; [exact Ht | now apply sanitizeBullet_shape].
Qed.

Lemma normalizeSection_wf v s : normalizeSection v = Some s -> wf_section s.
Proof.
  unfold normalizeSection.
  destruct (truthy (sanitizeHeading (and_get v "heading"))) eqn:Ht;
    [|discriminate].
  intros [= <-]. split; [|split]; simpl.
  - exact Ht.
  - now apply sanitizeHeading_shape.
  - destruct (and_get v "bullets"); try constructor.
    apply sanitized_bullets_shape.
Qed.

Lemma filter_map_Forall {A B} (f : A -> option B) (P : B -> Prop) l :
  (forall x y, f x = Some y -> P y) -> Forall P (filter_map f l).
Proof.
  intros H. induction l as [|x l IH]; simpl; [constructor|].
  destruct (f x) eqn:E; [constructor; eauto | exact IH].
Qed.

Lemma Forall_firstn {A} (P : A -> Prop) n l :
  Forall P l -> Forall P (firstn n l).
Proof.
  intros H. rewrite <- (firstn_skipn n l) in H.
  now apply Forall_app in H.
Qed.

(** [normalizeNotesState] always returns a normalised document. *)
Lemma normalize_normalized x : normalized (normalizeNotesState x).
Proof.
  unfold normalizeNotesState.
  destruct (negb (js_truthy x) || negb (is_object x)).
  - constructor; simpl; auto. unfold MAX_SECTIONS; lia.
  - constructor; simpl.
    + apply nonblank_string_option_trimmed.
    + apply Forall_firstn, filter_map_Forall. apply normalizeSection_wf.
    + unfold slice_to. apply firstn_le_length.
    + apply nonblank_string_option_trimmed.
    + destruct (nonblank_string (get x "lastChunkId")) eqn:E.
      * simpl. now apply nonblank_string_trimmed with (v := get x "lastChunkId").
      * apply nonblank_string_option_trimmed.
Qed.

Lemma resanitize_bullets bs :
  Forall (fun b => truthy b = true /\ bullet_shape b) bs ->
  (forall b, In b bs -> starts_with_glyph b = false) ->
  filter truthy (map sanitizeBullet (map VStr bs)) = bs.
Proof.
  induction 1 as [|b bs [Ht Hs] _ IH]; intros Hg; cbn [map filter];
    [reflexivity|].
  rewrite sanitizeBullet_fix by (auto; apply Hg; now left).
  rewrite Ht, IH; [reflexivity|]. intros b' Hb'. apply Hg. now right.
Qed.

Lemma section_heading_read s :
  and_get (value_of_section s) "heading" = VStr (heading s).
Proof. reflexivity. Qed.

Lemma section_bullets_read s :
  and_get (value_of_section s) "bullets" = VArr (map VStr (bullets s)).
Proof. reflexivity. Qed.

Lemma renormalize_section s :
  wf_section s ->
  (forall b, In b (bullets s) -> starts_with_glyph b = false) ->
  normalizeSection (value_of_section s) = Some s.
Proof.
  intros [Ht [Hh Hb]] Hg. unfold normalizeSection.
  rewrite section_heading_read, section_bullets_read.
  rewrite (sanitizeHeading_fix Ht Hh), Ht.
  rewrite resanitize_bullets by assumption. now destruct s.
Qed.

Lemma renormalize_sections ss :
  Forall wf_section ss ->
  (forall s b, In s ss -> In b (bullets s) -> starts_with_glyph b = false) ->
  filter_map normalizeSection (map value_of_section ss) = ss.
Proof.
  induction 1 as [|s ss Hs _ IH]; intros Hg; cbn [map filter_map];
    [reflexivity|].
  rewrite renormalize_section;
    [ | exact Hs | intros b Hb; apply (Hg s b); simpl; auto ].
  rewrite IH; [reflexivity|].
  intros s' b Hs' Hb. apply (Hg s' b); simpl; auto.
Qed.

Lemma notes_reads n :
  get (value_of_notes n) "title" = value_of_option (title n) /\
  get (value_of_notes n) "sections"
    = VArr (map value_of_section (sections n)) /\
  get (value_of_notes n) "lastUpdatedAt" = value_of_option (lastUpdatedAt n) /\
  get (value_of_notes n) "lastChunkId" = value_of_option (lastChunkId n) /\
  get (value_of_notes n) "lastUpdatedChunkId" = VUndefined.
Proof. repeat split; reflexivity. Qed.

(** Normalising a normalised document whose bullets do not begin with a
    glyph gives the document back. *)
Lemma normalize_fix n :
  normalized n ->
  (forall s b, In s (sections n) -> In b (bullets s) ->
               starts_with_glyph b = false) ->
  normalizeNotesState (value_of_notes n) = n.
Proof.
  intros [Ht Hs Hl Hu Hc] Hg.
  destruct (notes_reads n) as (E1 & E2 & E3 & E4 & E5).
  unfold normalizeNotesState.
  rewrite E1, E2, E3, E4, E5.
  change (negb (js_truthy (value_of_notes n))
          || negb (is_object (value_of_notes n))) with false.
  cbv iota.
  rewrite !nonblank_string_fix by assumption.
  rewrite renormalize_sections by assumption.
  unfold slice_to. rewrite firstn_all2 by exact Hl.
  destruct n as [t ss u c]; simpl. now destruct c.
Qed.

Lemma glyph_free_spec n :
  glyph_free n = true ->
  forall s b, In s (sections n) -> In b (bullets s) ->
              starts_with_glyph b = false.
Proof.
  unfold glyph_free. intros H s b Hs Hb.
  rewrite forallb_forall in H. specialize (H s Hs).
  rewrite forallb_forall in H. specialize (H b Hb).
  now apply negb_true_iff in H.
Qed.

(** *** Bullets that begin with a glyph *)

(** A sanitized bullet that begins with a glyph is shortened or rejected by
    the next pass. *)
Lemma sanitizeBullet_shortens b :
  truthy b = true -> bullet_shape b -> starts_with_glyph b = true ->
  length (sanitizeBullet (VStr b)) < length b.
Proof.
  intros Ht [Hc Hh Hl _ _] Hg.
  destruct b as [|c r]; [discriminate|]. cbn [starts_with_glyph] in Hg.
  assert (Hlen : length (trim (strip_leading_glyphs
                                 (trim (collapse_ws (c :: r)))))
                 < length (c :: r)).
  { unfold collapse_ws. rewrite (collapse_fix _ _ Hc), (trim_fix _ Hh Hl).
    unfold strip_leading_glyphs, strip_leading.
    rewrite (dropWhile_fix _ _ Hh), Hg. cbn [dropWhile]. rewrite Hg.
    pose proof (trim_length (dropWhile is_space (dropWhile is_glyph r))).
    pose proof (dropWhile_length is_space (dropWhile is_glyph r)).
    pose proof (dropWhile_length is_glyph r).
    cbn [length]. lia. }
  unfold sanitizeBullet.
  destruct (negb _); [cbn [length]; lia|].
  destruct (search _ _); [cbn [length]; lia|].
  destruct (Nat.ltb _ _); [cbn [length]; lia | exact Hlen].
Qed.

Lemma filter_length_le {A} (f : A -> bool) l : length (filter f l) <= length l.
Proof.
  induction l as [|x l IH]; cbn [filter length]; [lia|].
  destruct (f x); cbn [length]; lia.
Qed.

(** A list that re-sanitizing leaves as it is consists of fixed points. *)
Lemma resanitize_fix_inv bs :
  filter truthy (map sanitizeBullet (map VStr bs)) = bs ->
  forall b, In b bs -> sanitizeBullet (VStr b) = b.
Proof.
  induction bs as [|b bs IH]; intros H x Hx; [contradiction|].
  cbn [map filter] in H.
  destruct (truthy (sanitizeBullet (VStr b))).
  - injection H as Hb Hrest. destruct Hx as [<- | Hx]; auto.
  - exfalso.
    pose proof (filter_length_le truthy
                  (map sanitizeBullet (map VStr bs))) as Hle.
    rewrite H, !length_map in Hle. cbn [length] in Hle. lia.
Qed.

Lemma filter_map_length {A B} (f : A -> option B) l :
  length (filter_map f l) <= length l.
Proof.
  induction l as [|x l IH]; cbn [filter_map length]; [lia|].
  destruct (f x); cbn [length]; lia.
Qed.

Lemma renormalize_section_eq s :
  truthy (heading s) = true -> heading_shape (heading s) ->
  normalizeSection (value_of_section s)
  = Some (mkSection (heading s)
            (filter truthy (map sanitizeBullet (map VStr (bullets s))))).
Proof.
  intros Ht Hh. unfold normalizeSection.
  rewrite section_heading_read, section_bullets_read.
  now rewrite (sanitizeHeading_fix Ht Hh), Ht.
Qed.

Lemma renormalize_sections_inv ss :
  Forall wf_section ss ->
  filter_map normalizeSection (map value_of_section ss) = ss ->
  forall s b, In s ss -> In b (bullets s) -> sanitizeBullet (VStr b) = b.
Proof.
  induction 1 as [|s ss (Ht & Hh & _) _ IH]; intros H x b Hx Hb;
    [contradiction|].
  cbn [map filter_map] in H. rewrite (renormalize_section_eq _ Ht Hh) in H.
  injection H as Hs Hrest. destruct Hx as [<- | Hx].
  - apply resanitize_fix_inv with (bs := bullets s); [|exact Hb].
    rewrite <- Hs at 2. reflexivity.
  - now apply (IH Hrest x).
Qed.

(** A normalised document that normalisation leaves as it is has no bullet
    that begins with a glyph. *)
Lemma normalize_fix_inv n :
  normalized n -> normalizeNotesState (value_of_notes n) = n ->
  glyph_free n = true.
Proof.
  intros [Ht Hs Hl Hu Hc] H.
  destruct (notes_reads n) as (E1 & E2 & E3 & E4 & E5).
  unfold normalizeNotesState in H. rewrite E1, E2, E3, E4, E5 in H.
  change (negb (js_truthy (value_of_notes n))
          || negb (is_object (value_of_notes n))) with false in H.
  cbv iota in H.
  apply (f_equal sections) in H. cbn [sections] in H.
  assert (Hsec : filter_map normalizeSection (map value_of_section (sections n))
                 = sections n).
  { assert (Hlen : length (filter_map normalizeSection
                             (map value_of_section (sections n)))
                   <= MAX_SECTIONS).
    { pose proof (filter_map_length normalizeSection
                    (map value_of_section (sections n))) as Hle.
      rewrite length_map in Hle. lia. }
    unfold slice_to in H. now rewrite firstn_all2 in H by exact Hlen. }
  unfold glyph_free. apply forallb_forall. intros s Hin.
  apply forallb_forall. intros b Hb. apply negb_true_iff.
  destruct (starts_with_glyph b) eqn:Hg; [|reflexivity]. exfalso.
  pose proof (renormalize_sections_inv Hs Hsec s b Hin Hb) as Hfix.
  rewrite Forall_forall in Hs. destruct (Hs s Hin) as (_ & _ & Hbs).
  rewrite Forall_forall in Hbs. destruct (Hbs b Hb) as [Htb Hshape].
  pose proof (sanitizeBullet_shortens Htb Hshape Hg) as Hlt.
  rewrite Hfix in Hlt. lia.
Qed.

(** *** The second pass *)

(** A pattern that is found in no place of a text is found in no place of
    its tail. *)
Lemma search_suffix alts pre s :
  search alts (pre ++ s) = false -> search alts s = false.
Proof.
  induction pre as [|c pre IH]; intros H; [exact H|].
  apply IH. cbn [app search] in H.
  now apply orb_false_iff in H as [_ H].
Qed.

(** What the next pass makes of a sanitized bullet that begins with a
    glyph: the glyph run and the white space after it are gone, and what is
    left is kept if it still has 8 units. *)
Lemma sanitizeBullet_glyph_led b :
  truthy b = true -> bullet_shape b -> starts_with_glyph b = true ->
  let rest := dropWhile is_space (dropWhile is_glyph b) in
  sanitizeBullet (VStr b) = if Nat.ltb (length rest) 8 then [] else rest.
Proof.
  intros Ht [Hc Hh Hl Hb Hn] Hg. cbv zeta.
  destruct b as [|c r]; [discriminate|]. cbn [starts_with_glyph] in Hg.
  set (rest := dropWhile is_space (dropWhile is_glyph (c :: r))).
  assert (Hs : strip_leading_glyphs (c :: r) = rest).
  { unfold strip_leading_glyphs, strip_leading.
    rewrite (dropWhile_fix _ _ Hh). now rewrite Hg. }
  unfold sanitizeBullet. cbv zeta.
  unfold collapse_ws. rewrite (collapse_fix _ _ Hc), (trim_fix _ Hh Hl), Hs.
  destruct rest as [|x rest'] eqn:Er; [reflexivity|].
  assert (Hsuf : exists pre, c :: r = pre ++ x :: rest').
  { destruct (dropWhile_suffix is_glyph (c :: r)) as [p1 E1].
    destruct (dropWhile_suffix is_space (dropWhile is_glyph (c :: r)))
      as [p2 E2].
    exists (p1 ++ p2). rewrite <- app_assoc. fold rest in E2.
    rewrite Er in E2. now rewrite <- E2. }
  destruct Hsuf as [pre Hsuf].
  assert (Htrim : trim (x :: rest') = x :: rest').
  { apply trim_fix.
    - rewrite <- Er. apply dropWhile_head.
    - rewrite Hsuf in Hl. now apply last_not_suffix in Hl. }
  rewrite Htrim. cbn [truthy negb].
  rewrite Hsuf in Hb. now rewrite (search_suffix _ _ _ Hb).
Qed.

Lemma resanitized_sections ss :
  Forall wf_section ss ->
  filter_map normalizeSection (map value_of_section ss)
  = map (fun s => mkSection (heading s)
                    (filter truthy (map sanitizeBullet (map VStr (bullets s)))))
        ss.
Proof.
  induction 1 as [|s ss (Ht & Hh & _) _ IH]; cbn [map filter_map];
    [reflexivity|].
  now rewrite (renormalize_section_eq _ Ht Hh), IH.
Qed.

(** C1, amended.  What a second normalisation does to a normalised
    document, for every input: the title, the two identifiers, the number
    and the order of the sections and every heading stay; the bullets of
    each section are sanitized again and the empty results removed.  A
    bullet that does not begin with a bullet or number glyph (one of
    [- * • 0-9 . )]) stays as it is; one that does loses its leading run of
    glyphs and the white space after it, and is dropped when fewer than 8
    units are left.  So normalising twice is normalising once exactly when
    no bullet of the normalised document begins with a glyph. *)
Theorem normalizeNotesState_second_pass (x : value) :
  let n := normalizeNotesState x in
  let again := normalizeNotesState (value_of_notes n) in
  title again = title n /\
  lastUpdatedAt again = lastUpdatedAt n /\
  lastChunkId again = lastChunkId n /\
  sections again
  = map (fun s => mkSection (heading s)
                    (filter truthy (map sanitizeBullet (map VStr (bullets s)))))
        (sections n) /\
  (forall s b, In s (sections n) -> In b (bullets s) ->
     sanitizeBullet (VStr b)
     = if starts_with_glyph b then
         let rest := dropWhile is_space (dropWhile is_glyph b) in
         if Nat.ltb (length rest) 8 then [] else rest
       else b) /\
  (again = n <-> glyph_free n = true).
Proof.
  cbv zeta.
  pose proof (normalize_normalized x) as Hn.
  set (n := normalizeNotesState x) in *.
  assert (Hagain :
            normalizeNotesState (value_of_notes n)
            = mkNotes (title n)
                (map (fun s => mkSection (heading s)
                          (filter truthy
                             (map sanitizeBullet (map VStr (bullets s)))))
                     (sections n))
                (lastUpdatedAt n) (lastChunkId n)).
  { destruct Hn as [Ht Hs Hl Hu Hc].
    destruct (notes_reads n) as (E1 & E2 & E3 & E4 & E5).
    unfold normalizeNotesState at 1.
    rewrite E1, E2, E3, E4, E5.
    change (negb (js_truthy (value_of_notes n))
            || negb (is_object (value_of_notes n))) with false.
    cbv iota.
    rewrite !nonblank_string_fix by assumption.
    rewrite (resanitized_sections Hs).
    unfold slice_to. rewrite firstn_all2 by (now rewrite length_map).
    now destruct (lastChunkId n). }
  rewrite Hagain. cbn [title sections lastUpdatedAt lastChunkId].
  repeat (split; [reflexivity|]). split.
  - intros s b Hs Hb.
    destruct Hn as [_ Hwf _ _ _]. rewrite Forall_forall in Hwf.
    destruct (Hwf s Hs) as (_ & _ & Hbs). rewrite Forall_forall in Hbs.
    destruct (Hbs b Hb) as [Htb Hshape].
    destruct (starts_with_glyph b) eqn:Hg.
    + now apply sanitizeBullet_glyph_led.
    + now apply sanitizeBullet_fix.
  - rewrite <- Hagain. split.
    + now apply normalize_fix_inv.
    + intros Hg. apply normalize_fix; [exact Hn | now apply glyph_free_spec].
Qed.

(** C1, as stated, fails: the bullet "- 1) hello world" is normalised to
    "1) hello world", and normalising that document again strips the number
    and leaves "hello world". *)
Lemma normalizeNotesState_not_idempotent :
  normalizeNotesState (value_of_notes (normalizeNotesState numbered_bullet_input))
  <> normalizeNotesState numbered_bullet_input.
Proof. vm_compute. discriminate. Qed.

(** ** Near-duplicate bullets *)

Lemma startsWith_refl s : startsWith s s = true.
Proof.
  induction s as [|c s IH]; simpl; [reflexivity|].
  now rewrite N.eqb_refl, IH.
Qed.

Lemma includes_refl s : includes s s = true.
Proof. destruct s; simpl; [reflexivity|]. now rewrite N.eqb_refl, startsWith_refl. Qed.

Lemma similarity_empty_l b : tokenSetSimilarity [] b = 0%Q.
Proof. reflexivity. Qed.

Lemma similarity_empty_r a : tokenSetSimilarity a [] = 0%Q.
Proof.
  unfold tokenSetSimilarity.
  change (length (token_set [])) with 0%nat.
  now rewrite orb_true_r.
Qed.

Lemma below_threshold_zero : Qle_bool NEAR_DUPLICATE_THRESHOLD 0%Q = false.
Proof. reflexivity. Qed.

Lemma falsy_empty (s : jstring) : truthy s = false -> s = [].
Proof. destruct s; simpl; congruence. Qed.

(** The three tests of [isNearDuplicateText] in one equation: the threshold
    on the similarity of the keys, or one non-empty key inside the other. *)
Lemma isNearDuplicateText_eq a b :
  isNearDuplicateText a b =
  let an := semanticTextKey a in
  let bn := semanticTextKey b in
  Qle_bool NEAR_DUPLICATE_THRESHOLD (tokenSetSimilarity an bn)
  || (truthy an && truthy bn && (includes an bn || includes bn an)).
Proof.
  unfold isNearDuplicateText. cbv zeta.
  destruct (truthy a) eqn:Ha; simpl.
  2:{ apply falsy_empty in Ha. subst a.
      change (semanticTextKey []) with (@nil char).
      now rewrite similarity_empty_l. }
  destruct (truthy b) eqn:Hb; simpl.
  2:{ apply falsy_empty in Hb. subst b.
      change (semanticTextKey []) with (@nil char).
      rewrite similarity_empty_r. simpl. now rewrite andb_false_r. }
  destruct (truthy (semanticTextKey a)) eqn:Han; simpl.
  2:{ apply falsy_empty in Han. rewrite Han.
      now rewrite similarity_empty_l. }
  destruct (truthy (semanticTextKey b)) eqn:Hbn; simpl.
  2:{ apply falsy_empty in Hbn. rewrite Hbn.
      now rewrite similarity_empty_r. }
  destruct (Js.eqb (semanticTextKey a) (semanticTextKey b)) eqn:E.
  - apply eqb_eq in E. rewrite E, includes_refl. simpl.
    now rewrite orb_true_r.
  - destruct (includes (semanticTextKey a) (semanticTextKey b)
              || includes (semanticTextKey b) (semanticTextKey a)); simpl.
    + now rewrite orb_true_r.
    + now rewrite orb_false_r.
Qed.

(** C5, amended.  Token-set similarity of the canonical keys at or above
    0.82 makes two bullets near-duplicates.  Below 0.82 they are
    near-duplicates exactly when one (non-empty) canonical key is a substring
    of the other, equal keys included; with neither key inside the other they
    are not. *)
Theorem isNearDuplicateText_threshold (a b : jstring) :
  let an := semanticTextKey a in
  let bn := semanticTextKey b in
  (Qle NEAR_DUPLICATE_THRESHOLD (tokenSetSimilarity an bn) ->
   isNearDuplicateText a b = true) /\
  (Qlt (tokenSetSimilarity an bn) NEAR_DUPLICATE_THRESHOLD ->
   includes an bn = false -> includes bn an = false ->
   isNearDuplicateText a b = false) /\
  (Qlt (tokenSetSimilarity an bn) NEAR_DUPLICATE_THRESHOLD ->
   truthy an = true -> truthy bn = true ->
   includes an bn || includes bn an = true ->
   isNearDuplicateText a b = true).
Proof.
  cbv zeta. rewrite isNearDuplicateText_eq. cbv zeta.
  split; [|split].
  - intros H. apply Qle_bool_iff in H. now rewrite H.
  - intros H H1 H2. rewrite H1, H2.
    destruct (Qle_bool _ _) eqn:E.
    + apply Qle_bool_iff in E. exfalso. now apply (Qlt_not_le _ _ H).
    + simpl. apply andb_false_r.
  - intros _ Ha Hb Hi. rewrite Ha, Hb, Hi. apply orb_true_r.
Qed.

Lemma isNearDuplicateText_threshold_witness :
  (Qle NEAR_DUPLICATE_THRESHOLD
       (tokenSetSimilarity (semanticTextKey diffusion_down)
                           (semanticTextKey diffusion_along)) /\
   isNearDuplicateText diffusion_down diffusion_along = true) /\
  (Qlt (tokenSetSimilarity (semanticTextKey osmosis_water)
                           (semanticTextKey osmosis_salt))
       NEAR_DUPLICATE_THRESHOLD /\
   isNearDuplicateText osmosis_water osmosis_salt = false) /\
  (Qlt (tokenSetSimilarity (semanticTextKey eleven_tokens)
                           (semanticTextKey nine_tokens))
       NEAR_DUPLICATE_THRESHOLD /\
   isNearDuplicateText eleven_tokens nine_tokens = true).
Proof.
  assert (H1 : Qle NEAR_DUPLICATE_THRESHOLD
                 (tokenSetSimilarity (semanticTextKey diffusion_down)
                                     (semanticTextKey diffusion_along))).
  { vm_compute. discriminate. }
  assert (H2 : Qlt (tokenSetSimilarity (semanticTextKey osmosis_water)
                                       (semanticTextKey osmosis_salt))
                   NEAR_DUPLICATE_THRESHOLD).
  { vm_compute. reflexivity. }
  assert (H3 : Qlt (tokenSetSimilarity (semanticTextKey eleven_tokens)
                                       (semanticTextKey nine_tokens))
                   NEAR_DUPLICATE_THRESHOLD).
  { vm_compute. reflexivity. }
  split; [|split]; (split; [assumption|]).
  - exact (proj1 (isNearDuplicateText_threshold diffusion_down diffusion_along)
                 H1).
  - apply (proj1 (proj2 (isNearDuplicateText_threshold osmosis_water
                                                       osmosis_salt)) H2);
      vm_compute; reflexivity.
  - apply (proj2 (proj2 (isNearDuplicateText_threshold eleven_tokens
                                                       nine_tokens)) H3);
      vm_compute; reflexivity.
Defined.

(** C5, as stated, fails below the threshold: the keys of these two bullets
    share 9 tokens of 11 (similarity 0.818...), yet the shorter key is a
    substring of the longer and the bullets are near-duplicates. *)
Lemma isNearDuplicateText_true_below_threshold :
  Qlt (tokenSetSimilarity (semanticTextKey eleven_tokens)
                          (semanticTextKey nine_tokens))
      NEAR_DUPLICATE_THRESHOLD /\
  isNearDuplicateText eleven_tokens nine_tokens <> false.
Proof. split; [vm_compute; reflexivity | vm_compute; discriminate]. Qed.

(** ** Size caps *)

Lemma slice_last_length {A} n (l : list A) : length (slice_last n l) <= n.
Proof. unfold slice_last. rewrite length_skipn. lia. Qed.

Lemma slice_last_min {A} n (l : list A) :
  length (slice_last n l) = Nat.min n (length l).
Proof. unfold slice_last. rewrite length_skipn. lia. Qed.

Lemma slice_last_tail {A} n (l : list A) :
  l = firstn (length l - n) l ++ slice_last n l.
Proof. unfold slice_last. symmetry. apply firstn_skipn. Qed.

Lemma In_firstn {A} n (l : list A) x : In x (firstn n l) -> In x l.
Proof.
  intros H. rewrite <- (firstn_skipn n l). apply in_or_app. now left.
Qed.

Lemma result_section_origin previous candidate s :
  In s (sections (enforceCumulativeQuality previous candidate)) ->
  exists m,
    In m (merged_sections (normalizeNotesState previous)
                          (normalizeNotesState candidate)) /\
    s = finish_section m /\ keep_section s = true.
Proof.
  unfold enforceCumulativeQuality. cbn [sections]. unfold slice_to.
  intros H. apply In_firstn in H. apply filter_In in H as [H Hk].
  apply in_map_iff in H as [m [<- Hm]]. now exists m.
Qed.

(** Filtering after the map is mapping after the filter. *)
Lemma filter_map_commute {A B} (f : A -> B) (p : B -> bool) l :
  filter p (map f l) = map f (filter (fun x => p (f x)) l).
Proof.
  induction l as [|x l IH]; cbn [map filter]; [reflexivity|].
  destruct (p (f x)); cbn [map]; now rewrite IH.
Qed.

(** A section passes the final filter when it has a heading and a bullet
    after its last de-duplication. *)
Lemma keep_finished m :
  keep_section (finish_section m)
  = truthy (sanitizeHeading (VStr (heading m)))
    && negb (Nat.eqb (length (dedupeBullets (bullets m))) 0).
Proof.
  unfold keep_section, finish_section. cbn [heading bullets].
  f_equal. rewrite slice_last_min.
  unfold MAX_BULLETS_PER_SECTION.
  destruct (length (dedupeBullets (bullets m))); reflexivity.
Qed.

(** C3.  Whatever the two documents, the sections of the merged document
    are, in their order, the first 30 of the merged sections that have a
    heading and at least one bullet after de-duplication; each has at most
    80 bullets, and they are the tail of its de-duplicated list: all of it
    when it has at most 80 bullets, its last 80 otherwise. *)
Theorem enforceCumulativeQuality_caps (previous candidate : value) :
  let merged := merged_sections (normalizeNotesState previous)
                                (normalizeNotesState candidate) in
  let result := enforceCumulativeQuality previous candidate in
  let deduped m := dedupeBullets (bullets m) in
  let kept :=
    filter (fun m => truthy (sanitizeHeading (VStr (heading m)))
                     && negb (Nat.eqb (length (deduped m)) 0)) merged in
  length (sections result) = Nat.min MAX_SECTIONS (length kept) /\
  (forall s, In s (sections result) ->
     length (bullets s) <= MAX_BULLETS_PER_SECTION) /\
  (forall i m, i < MAX_SECTIONS -> nth_error kept i = Some m ->
     exists s dropped,
       nth_error (sections result) i = Some s /\
       heading s = sanitizeHeading (VStr (heading m)) /\
       deduped m = dropped ++ bullets s /\
       length (bullets s)
       = Nat.min MAX_BULLETS_PER_SECTION (length (deduped m))).
Proof.
  cbv zeta.
  assert (E : sections (enforceCumulativeQuality previous candidate)
              = firstn MAX_SECTIONS
                  (map finish_section
                     (filter (fun m =>
                                truthy (sanitizeHeading (VStr (heading m)))
                                && negb (Nat.eqb
                                           (length (dedupeBullets (bullets m)))
                                           0))
                             (merged_sections (normalizeNotesState previous)
                                              (normalizeNotesState candidate))))).
  { unfold enforceCumulativeQuality. cbn [sections]. unfold slice_to.
    rewrite filter_map_commute. f_equal. f_equal.
    apply filter_ext. intros m. apply keep_finished. }
  rewrite E. split; [|split].
  - rewrite length_firstn, length_map. reflexivity.
  - intros s Hs. apply In_firstn in Hs. apply in_map_iff in Hs as [m [<- _]].
    cbn [finish_section bullets]. apply slice_last_length.
  - intros i m Hi Hm.
    exists (finish_section m),
           (firstn (length (dedupeBullets (bullets m)) - MAX_BULLETS_PER_SECTION)
                   (dedupeBullets (bullets m))).
    split; [|split; [reflexivity|split]].
    + rewrite nth_error_firstn.
      destruct (Nat.ltb_spec i MAX_SECTIONS) as [_|Hge]; [|lia].
      now apply map_nth_error.
    + cbn [finish_section bullets]. apply slice_last_tail.
    + cbn [finish_section bullets]. apply slice_last_min.
Qed.

(** A stored section of 81 bullets, none a near-duplicate of another: the
    merge drops the oldest and keeps the other 80 in their order. *)
Example recency_cap_keeps_the_last_80 :
  map bullets (sections (enforceCumulativeQuality long_section_notes VNull))
  = [map numbered_fact (seq 1 80)].
Proof. vm_compute. reflexivity. Qed.

(** ** Previous sections through the merge *)

Lemma dedupe_from_prefix out l : exists extra, dedupe_from out l = out ++ extra.
Proof.
  revert out; induction l as [|raw l IH]; intros out; cbn [dedupe_from].
  - exists []. now rewrite app_nil_r.
  - destruct (negb (truthy (sanitizeBullet (VStr raw)))); [apply IH|].
    destruct (existsb _ out); [apply IH|].
    destruct (IH (out ++ [sanitizeBullet (VStr raw)])) as [extra E].
    exists (sanitizeBullet (VStr raw) :: extra).
    rewrite E, <- app_assoc. reflexivity.
Qed.

(** De-duplicating keeps in the first place a first bullet that sanitizing
    leaves alone. *)
Lemma dedupe_keeps_head b rest :
  truthy b = true -> sanitizeBullet (VStr b) = b ->
  exists more, dedupeBullets (b :: rest) = b :: more.
Proof.
  intros Ht Hf. unfold dedupeBullets. cbn [dedupe_from].
  rewrite Hf, Ht. cbn [negb existsb app].
  destruct (dedupe_from_prefix [b] rest) as [extra E].
  exists extra. now rewrite E.
Qed.

Lemma nth_error_set_bullets index bs merged i m :
  nth_error merged i = Some m ->
  nth_error (set_bullets index bs merged) i
  = Some (if Nat.eqb i index then mkSection (heading m) bs else m).
Proof.
  revert index i; induction merged as [|x merged IH]; intros index i H.
  - destruct i; discriminate.
  - destruct index, i; simpl in *; auto; congruence.
Qed.

(** One round of the merge keeps every section in place, with its heading,
    and keeps its first bullet when sanitizing leaves that bullet alone. *)
Lemma merge_incoming_keeps merged inc i m b :
  nth_error merged i = Some m ->
  exists m',
    nth_error (merge_incoming merged inc) i = Some m' /\
    heading m' = heading m /\
    (truthy b = true -> sanitizeBullet (VStr b) = b ->
     (exists rest, bullets m = b :: rest) ->
     exists rest', bullets m' = b :: rest').
Proof.
  intros H. unfold merge_incoming.
  destruct (negb _ || _); [now exists m|].
  destruct (findMatchingSectionIndex merged _) as [index|].
  - destruct (nth_error merged index) as [target|] eqn:Et; [|now exists m].
    rewrite nth_error_set_bullets with (m := m) by exact H.
    destruct (Nat.eqb i index) eqn:Ei.
    + apply Nat.eqb_eq in Ei. subst index.
      assert (target = m) by congruence. subst target.
      eexists. split; [reflexivity|]. split; [reflexivity|].
      cbn [bullets]. intros Ht Hf [rest ->]. cbn [app].
      now apply dedupe_keeps_head.
    + now exists m.
  - destruct (isUsefulHeading _); [|now exists m].
    exists m. split; [|auto].
    rewrite nth_error_app1; [exact H|].
    apply nth_error_Some. congruence.
Qed.

Lemma fold_merge_keeps incs merged i m b :
  nth_error merged i = Some m ->
  exists m',
    nth_error (fold_left merge_incoming incs merged) i = Some m' /\
    heading m' = heading m /\
    (truthy b = true -> sanitizeBullet (VStr b) = b ->
     (exists rest, bullets m = b :: rest) ->
     exists rest', bullets m' = b :: rest').
Proof.
  revert merged m; induction incs as [|inc incs IH]; intros merged m H;
    cbn [fold_left].
  - now exists m.
  - destruct (merge_incoming_keeps merged inc i b H) as (m1 & H1 & Hh1 & Hs1).
    destruct (IH _ _ H1) as (m2 & H2 & Hh2 & Hs2).
    exists m2. split; [exact H2|]. split; [congruence | auto].
Qed.

Lemma firstn_mono_In {A} n k (l : list A) x :
  n <= k -> In x (firstn n l) -> In x (firstn k l).
Proof.
  intros Hle H. replace n with (Nat.min n k) in H by lia.
  rewrite <- firstn_firstn in H. now apply In_firstn in H.
Qed.

(** An element that passes the filter is found in the filtered list no
    later than it was in the list. *)
Lemma filter_keeps_early {A} (f : A -> bool) l i x :
  nth_error l i = Some x -> f x = true -> In x (firstn (S i) (filter f l)).
Proof.
  revert i; induction l as [|y l IH]; intros i H Hf.
  - destruct i; discriminate.
  - destruct i; simpl in H.
    + injection H as ->. cbn [filter]. rewrite Hf. now left.
    + specialize (IH i H Hf). cbn [filter]. destruct (f y).
      * right. exact IH.
      * apply firstn_mono_In with (n := S i); [lia | exact IH].
Qed.

Lemma normalized_heading_fix n s :
  normalized n -> In s (sections n) ->
  truthy (heading s) = true /\ sanitizeHeading (VStr (heading s)) = heading s.
Proof.
  intros [_ Hs _ _ _] Hin.
  rewrite Forall_forall in Hs. destruct (Hs s Hin) as (Ht & Hh & _).
  split; [exact Ht | now apply sanitizeHeading_fix].
Qed.

Lemma normalized_first_bullet_fix n s b rest :
  normalized n -> In s (sections n) -> bullets s = b :: rest ->
  starts_with_glyph b = false ->
  truthy b = true /\ sanitizeBullet (VStr b) = b.
Proof.
  intros [_ Hs _ _ _] Hin Hb Hg.
  rewrite Forall_forall in Hs. destruct (Hs s Hin) as (_ & _ & Hbs).
  rewrite Hb in Hbs. inversion Hbs as [|? ? [Ht Hsh] _]; subst.
  split; [exact Ht | now apply sanitizeBullet_fix].
Qed.

(** C4, amended.  The merge never deletes a section of the normalised
    previous document whose first bullet does not begin with a bullet or
    number glyph.  Whatever the candidate holds, such a section stays at its
    place among the merged sections, with its heading and with that bullet
    first in its de-duplicated list; and the output has, no later than at
    that place, a section with its heading and the last 80 bullets of that
    list, which is not empty: neither the candidate, nor the final filter,
    nor the cap of 30 sections removes it. *)
Theorem previous_sections_kept
  (previous candidate : value) (i : nat) (s : Section_)
  (b : jstring) (rest : list jstring) :
  nth_error (sections (normalizeNotesState previous)) i = Some s ->
  bullets s = b :: rest ->
  starts_with_glyph b = false ->
  exists m more s',
    nth_error (merged_sections (normalizeNotesState previous)
                               (normalizeNotesState candidate)) i = Some m /\
    heading m = heading s /\
    dedupeBullets (bullets m) = b :: more /\
    In s' (firstn (S i) (sections (enforceCumulativeQuality previous candidate)))
    /\
    heading s' = heading s /\
    bullets s' = slice_last MAX_BULLETS_PER_SECTION (b :: more) /\
    bullets s' <> [].
Proof.
  intros H Hb Hg.
  pose proof (normalize_normalized previous) as Hn.
  pose proof (nth_error_In _ _ H) as Hin.
  destruct (@normalized_first_bullet_fix _ _ _ _ Hn Hin Hb Hg) as [Ht Hf].
  assert (H0 : nth_error (initial_sections (normalizeNotesState previous)) i
               = Some (mkSection (heading s) (dedupeBullets (bullets s)))).
  { unfold initial_sections.
    apply (map_nth_error
             (fun section => mkSection (heading section)
                                       (dedupeBullets (bullets section)))
             i (sections (normalizeNotesState previous)) H). }
  destruct (fold_merge_keeps
              (sections (normalizeNotesState candidate)) _ i b H0)
    as (m & Hm & Hh & Hs).
  cbn [heading bullets] in Hh, Hs.
  destruct Hs as [rest' Hrest]; [exact Ht | exact Hf | |].
  { rewrite Hb. destruct (dedupe_keeps_head rest Ht Hf) as [more E].
    now exists more. }
  destruct (dedupe_keeps_head rest' Ht Hf) as [more Hmore].
  rewrite <- Hrest in Hmore.
  exists m, more, (finish_section m).
  destruct (@normalized_heading_fix _ _ Hn Hin) as [Hth Hfh].
  assert (Hhead : heading (finish_section m) = heading s).
  { cbn [finish_section heading]. now rewrite Hh. }
  assert (Hbul : bullets (finish_section m)
                 = slice_last MAX_BULLETS_PER_SECTION (b :: more)).
  { cbn [finish_section bullets]. now rewrite Hmore. }
  assert (Hne : bullets (finish_section m) <> []).
  { rewrite Hbul. intros E.
    pose proof (slice_last_min MAX_BULLETS_PER_SECTION (b :: more)) as Hl.
    rewrite E in Hl. cbn [length] in Hl.
    unfold MAX_BULLETS_PER_SECTION in Hl. lia. }
  split; [exact Hm|]. split; [exact Hh|]. split; [exact Hmore|].
  split; [|split; [exact Hhead | split; [exact Hbul | exact Hne]]].
  unfold enforceCumulativeQuality. cbn [sections]. unfold slice_to.
  assert (i < length (sections (normalizeNotesState previous)))
    by (apply nth_error_Some; congruence).
  pose proof (nz_count Hn). unfold MAX_SECTIONS in *.
  rewrite firstn_firstn.
  replace (Nat.min (S i) 30) with (S i) by lia.
  apply filter_keeps_early.
  - now apply map_nth_error.
  - unfold keep_section. rewrite Hhead, Hth. cbn [andb].
    apply Nat.ltb_lt.
    destruct (bullets (finish_section m)); [contradiction|cbn; lia].
Qed.

Lemma previous_sections_kept_witness :
  let s := mkSection (lit "Cell Biology :: Membrane Transport")
                     [diffusion_along] in
  nth_error (sections (normalizeNotesState biology_notes)) 0 = Some s /\
  bullets s = [diffusion_along] /\
  starts_with_glyph diffusion_along = false /\
  exists m more s',
    nth_error (merged_sections (normalizeNotesState biology_notes)
                               (normalizeNotesState biology_proposal)) 0
    = Some m /\
    heading m = heading s /\
    dedupeBullets (bullets m) = diffusion_along :: more /\
    In s' (firstn 1 (sections (enforceCumulativeQuality biology_notes
                                                        biology_proposal))) /\
    heading s' = heading s /\
    bullets s' = slice_last MAX_BULLETS_PER_SECTION (diffusion_along :: more) /\
    bullets s' <> [].
Proof.
  cbv zeta.
  split; [vm_compute; reflexivity|].
  split; [reflexivity|]. split; [vm_compute; reflexivity|].
  apply (@previous_sections_kept biology_notes biology_proposal 0
           (mkSection (lit "Cell Biology :: Membrane Transport")
                      [diffusion_along])
           diffusion_along []);
    vm_compute; reflexivity.
Defined.

(** C4, as stated, fails: a stored section with a heading and no bullet is
    part of the normalised previous document, and the merge drops it. *)
Lemma empty_previous_section_deleted :
  exists s,
    In s (sections (normalizeNotesState empty_section_notes)) /\
    ~ exists s',
        In s' (sections (enforceCumulativeQuality empty_section_notes VNull)) /\
        heading s' = heading s.
Proof.
  exists (mkSection (lit "Introduction") []). split.
  - vm_compute. now left.
  - vm_compute. intros [s' [[] _]].
Qed.

(** The condition on the first bullet cannot be dropped either.  The only
    bullet of this previous section carries several number glyphs: on its
    own the section is kept, but a candidate that extends it makes the merge
    sanitize the bullet once more, what is left is too short, and the
    section is dropped. *)
Example glyph_led_section_eroded :
  map (fun s => (heading s, bullets s))
      (sections (enforceCumulativeQuality eroding_notes VNull))
  = [(lit "Topic", [lit "3) abcdefg"])] /\
  sections (enforceCumulativeQuality eroding_notes eroding_notes) = [].
Proof. vm_compute. split; reflexivity. Qed.

End NotesFacts.

(* ================================================================== *)
(** * Facts about the caption accumulator *)
(* ================================================================== *)

Module CaptureFacts.

Import Capture JsFacts.

(** ** The sample session, evaluated *)

Example first_caption_opens_a_chunk :
  transcriptBuffer first_caption_captured = [first_entry] /\
  currentChunk first_caption_captured = Some first_chunk /\
  finalized_chunks (outbox first_caption_captured) = [].
Proof. vm_compute. repeat split. Qed.

Example paused_video_closes_the_chunk :
  transcriptBuffer first_caption_finalized = [first_entry] /\
  currentChunk first_caption_finalized = None /\
  finalized_chunks (outbox first_caption_finalized) = [snapshot first_chunk].
Proof. vm_compute. repeat split. Qed.

Example exact_duplicate_is_ignored :
  transcriptBuffer
    (handleCaptionChange (page_showing "the cell membrane is")
                         first_caption_captured)
  = [first_entry].
Proof. vm_compute. reflexivity. Qed.

Example pause_finalizes_the_chunk :
  finalized_chunks
    (outbox (onMessage PAUSE_CAPTURE (page_showing "the cell membrane is")
                       first_caption_captured))
  = [snapshot first_chunk].
Proof. vm_compute. reflexivity. Qed.

(** ** What the helpers leave alone *)

Lemma same_element_eq a b : same_element a b = true -> a = b.
Proof.
  destruct a, b; cbn; try discriminate; [|reflexivity].
  intros H. apply Nat.eqb_eq in H. now subst.
Qed.

Lemma refreshVideoElement_video env st :
  videoElement (refreshVideoElement env st) = video (dom env).
Proof.
  unfold refreshVideoElement.
  destruct (same_element _ _) eqn:E; [|reflexivity].
  symmetry. now apply same_element_eq.
Qed.

Lemma refreshVideoElement_frame env st :
  accumulator (refreshVideoElement env st) = accumulator st.
Proof.
  unfold refreshVideoElement. now destruct (same_element _ _).
Qed.

Lemma refreshVideoMovement_video env st :
  videoElement (refreshVideoMovement env st) = videoElement st.
Proof.
  unfold refreshVideoMovement.
  destruct (videoElement st) eqn:E; [|exact E].
  cbn. destruct (lastVideoTimeSample st); [|exact E].
  now destruct (negb _).
Qed.

Lemma refreshVideoMovement_frame env st :
  accumulator (refreshVideoMovement env st) = accumulator st.
Proof.
  unfold refreshVideoMovement.
  destruct (videoElement st); [|reflexivity].
  cbn. destruct (lastVideoTimeSample st); [|reflexivity].
  now destruct (negb _).
Qed.

Lemma getVideoTime_value env st : fst (getVideoTime env st) = page_time env.
Proof.
  unfold getVideoTime, page_time. cbn [fst].
  now rewrite refreshVideoElement_video.
Qed.

Lemma getVideoTime_state env st :
  snd (getVideoTime env st) = refreshVideoElement env st.
Proof. reflexivity. Qed.

Lemma sendStatus_frame force env st :
  exists sent,
    outbox (sendStatus force env st) = outbox st ++ sent /\
    finalized_chunks sent = [] /\
    isCapturing (sendStatus force env st) = isCapturing st /\
    captionElement (sendStatus force env st) = captionElement st /\
    transcriptBuffer (sendStatus force env st) = transcriptBuffer st /\
    currentChunk (sendStatus force env st) = currentChunk st /\
    chunkStartWallTime (sendStatus force env st) = chunkStartWallTime st.
Proof.
  unfold sendStatus, buildStatusPayload, isCaptionsUpdating.
  destruct (is_some (captionElement st)); cbn;
    match goal with |- context [if ?c then _ else _] => destruct c end; cbn;
    try (exists []; rewrite app_nil_r; now repeat split);
    (eexists [_]; now repeat split).
Qed.

Lemma observed_frame env st : accumulator (observed env st) = accumulator st.
Proof.
  unfold observed. rewrite getVideoTime_state, refreshVideoElement_frame.
  unfold Date_now. cbn [snd].
  change (accumulator (set_clockReads ?n ?s)) with (accumulator s).
  now rewrite refreshVideoMovement_frame, refreshVideoElement_frame.
Qed.

Lemma observed_video env st :
  videoElement (observed env st) = video (dom env).
Proof.
  unfold observed. rewrite getVideoTime_state.
  apply refreshVideoElement_video.
Qed.

Lemma observed_fields env st :
  isCapturing (observed env st) = isCapturing st /\
  captionElement (observed env st) = captionElement st /\
  transcriptBuffer (observed env st) = transcriptBuffer st /\
  currentChunk (observed env st) = currentChunk st /\
  chunkStartWallTime (observed env st) = chunkStartWallTime st /\
  outbox (observed env st) = outbox st.
Proof.
  pose proof (observed_frame env st) as H.
  unfold accumulator in H. now injection H.
Qed.

(** The handler is its prelude followed by [store_caption]. *)
Lemma handleCaptionChange_unfold env st el :
  isCapturing st = true ->
  captionElement st = Some el ->
  truthy (normalizeText (textContent (dom env) el)) = true ->
  handleCaptionChange env st
  = store_caption env (normalizeText (textContent (dom env) el))
                  (event_now env st) (page_time env) (observed env st).
Proof.
  intros Hc Hel Ht. unfold handleCaptionChange. rewrite Hc, Hel, Ht.
  cbn [negb]. unfold observed, event_now.
  destruct (Date_now env (refreshVideoMovement env (refreshVideoElement env st)))
    as [now st0].
  cbn [fst snd].
  pose proof (getVideoTime_value env st0) as Hv.
  destruct (getVideoTime env st0) as [tNow st1].
  cbn [fst snd] in *. subst tNow. reflexivity.
Qed.

(** ** Lists *)

Lemma last_of_app {A} (l : list A) x : last_of (l ++ [x]) = Some x.
Proof. unfold last_of. now rewrite rev_app_distr. Qed.

Lemma last_of_split {A} (l : list A) x :
  last_of l = Some x -> l = removelast l ++ [x].
Proof.
  unfold last_of. intros H.
  destruct (rev l) as [|y r] eqn:E; [discriminate|].
  injection H as ->.
  apply (f_equal (@rev A)) in E. rewrite rev_involutive in E. cbn in E.
  subst l. now rewrite removelast_last.
Qed.

Lemma update_last_spec {A} (f : A -> A) (l : list A) x :
  last_of l = Some x -> update_last f l = removelast l ++ [f x].
Proof.
  intros H. unfold last_of in H. unfold update_last.
  destruct (rev l) as [|y r] eqn:Er; [discriminate|].
  injection H as ->.
  apply (f_equal (@rev A)) in Er. rewrite rev_involutive in Er. cbn in Er.
  rewrite Er. now rewrite removelast_last.
Qed.

Lemma update_last_length {A} (f : A -> A) (l : list A) :
  length (update_last f l) = length l.
Proof.
  unfold update_last. rewrite <- (length_rev l).
  destruct (rev l) as [|y r]; [reflexivity|].
  rewrite length_app, length_rev. cbn. lia.
Qed.

Lemma nonempty_last_of {A} (l : list A) : l <> [] -> exists x, last_of l = Some x.
Proof.
  intros H. unfold last_of. destruct (rev l) as [|y r] eqn:E.
  - apply (f_equal (@rev A)) in E. rewrite rev_involutive in E. contradiction.
  - now exists y.
Qed.

(** ** Finalizing *)

Lemma finalized_chunks_app a b :
  finalized_chunks (a ++ b) = finalized_chunks a ++ finalized_chunks b.
Proof. unfold finalized_chunks. apply flat_map_app. Qed.

(** [finalizeChunk] on an open chunk: nothing happens (blank text), or the
    snapshot is sent and the chunk is closed. *)
Lemma finalizeChunk_cases env st c :
  currentChunk st = Some c ->
  finalizeChunk env st = st \/
  exists tail,
    truthy (trim (Chunk.text c)) = true /\
    currentChunk (finalizeChunk env st) = None /\
    chunkStartWallTime (finalizeChunk env st) = None /\
    transcriptBuffer (finalizeChunk env st) = transcriptBuffer st /\
    isCapturing (finalizeChunk env st) = isCapturing st /\
    captionElement (finalizeChunk env st) = captionElement st /\
    outbox (finalizeChunk env st)
    = outbox st ++ [FINALIZE_CHUNK (snapshot c) tail].
Proof.
  intros Hc. unfold finalizeChunk. rewrite Hc.
  destruct (truthy (trim (Chunk.text c))); cbn [negb]; [|now left].
  right. unfold getTailContext.
  pose proof (refreshVideoElement_frame env st) as Hf.
  unfold accumulator in Hf. injection Hf as H1 H2 H3 H4 H5 H6.
  unfold getVideoTime. cbn.
  rewrite H1, H2, H3, H6. eexists. repeat split.
Qed.

Lemma maybeFinalizeChunk_cases env now st :
  maybeFinalizeChunk env now st = st \/
  maybeFinalizeChunk env now st = finalizeChunk env st.
Proof.
  unfold maybeFinalizeChunk.
  destruct (currentChunk st); [|now left].
  destruct (wall_time_set _); [|now left].
  match goal with |- context [if ?c then _ else _] => destruct c end;
    [now right | now left].
Qed.

Lemma maybeFinalizeChunk_closed env now st :
  currentChunk st = None -> maybeFinalizeChunk env now st = st.
Proof. intros H. unfold maybeFinalizeChunk. now rewrite H. Qed.

(** The two reports at the end of the handler change nothing in the
    accumulator and send no chunk. *)
Lemma reports_frame env st :
  let st' := sendStatus false env (sendTranscriptUpdate st) in
  transcriptBuffer st' = transcriptBuffer st /\
  currentChunk st' = currentChunk st /\
  chunkStartWallTime st' = chunkStartWallTime st /\
  exists sent,
    outbox st' = outbox st ++ sent /\ finalized_chunks sent = [].
Proof.
  cbv zeta.
  destruct (sendStatus_frame false env (sendTranscriptUpdate st))
    as (sent & Ho & Hf & _ & _ & Ht & Hc & Hw).
  rewrite Ht, Hc, Hw, Ho. repeat split.
  eexists (_ :: sent). split.
  - unfold sendTranscriptUpdate, send. cbn [outbox set_outbox].
    rewrite <- app_assoc. reflexivity.
  - cbn. exact Hf.
Qed.

Lemma replaceLastChunkPart_open text tNow st c :
  currentChunk st = Some c -> Chunk.parts c <> [] ->
  replaceLastChunkPart text tNow st
  = set_currentChunk (Some (with_last_part text tNow c)) st.
Proof.
  intros Hc Hp. unfold replaceLastChunkPart, with_last_part. rewrite Hc.
  destruct (Chunk.parts c) eqn:E; [contradiction|]. reflexivity.
Qed.

Lemma replaceLastChunkPart_closed text tNow st :
  currentChunk st = None -> replaceLastChunkPart text tNow st = st.
Proof. intros Hc. unfold replaceLastChunkPart. now rewrite Hc. Qed.

Lemma replaceLastChunkPart_transcript text tNow st :
  transcriptBuffer (replaceLastChunkPart text tNow st) = transcriptBuffer st.
Proof.
  unfold replaceLastChunkPart. destruct (currentChunk st); [|reflexivity].
  now destruct (Nat.eqb _ _).
Qed.

Lemma maybeFinalizeChunk_transcript env now st :
  transcriptBuffer (maybeFinalizeChunk env now st) = transcriptBuffer st.
Proof.
  destruct (maybeFinalizeChunk_cases env now st) as [-> | ->]; [reflexivity|].
  destruct (currentChunk st) as [c|] eqn:Hc.
  - destruct (finalizeChunk_cases env st Hc) as [-> | (tail & _ & _ & _ & H & _)];
      [reflexivity | exact H].
  - unfold finalizeChunk. now rewrite Hc.
Qed.

(** In the growth case the handler is this composition. *)
Lemma handleCaptionChange_growth env st el e :
  isCapturing st = true ->
  captionElement st = Some el ->
  truthy (normalizeText (textContent (dom env) el)) = true ->
  last_of (transcriptBuffer st) = Some e ->
  startsWith (normalizeText (textContent (dom env) el)) (Entry.text e) = true ->
  Js.eqb (Entry.text e) (normalizeText (textContent (dom env) el)) = false ->
  let text := normalizeText (textContent (dom env) el) in
  handleCaptionChange env st
  = sendStatus false env
      (sendTranscriptUpdate
         (maybeFinalizeChunk env (event_now env st)
            (set_lastCaptionUpdateAt (event_now env st)
               (replaceLastChunkPart text (page_time env)
                  (set_transcriptBuffer
                     (removelast (transcriptBuffer st)
                      ++ [grown_entry env st text e])
                     (observed env st)))))).
Proof.
  intros Hc Hel Ht Hl Hsw Hne. cbv zeta.
  rewrite (handleCaptionChange_unfold env st Hc Hel Ht).
  unfold store_caption.
  destruct (observed_fields env st) as (_ & _ & Hb & _).
  rewrite Hb, Hl, Hne, Hsw.
  now rewrite (update_last_spec _ _ Hl).
Qed.

(** C6.  A caption event handled while capturing whose normalised text
    extends the text of the last transcript entry (it starts with it and is
    not the same text, which the exact-duplicate rule ignores) appends no
    entry: the last entry keeps its start time and takes the new text and the
    current media time as end time.  When a chunk is in progress its last
    part is replaced by the new text and its text is the parts joined again;
    that chunk is the one in progress afterwards, unless the finalize
    predicate closed it, and then it is the chunk that was sent. *)
Theorem prefix_growth_replaces_in_place
  (env : Env) (st : State) (el : nat) (e : Entry.t) :
  isCapturing st = true ->
  captionElement st = Some el ->
  truthy (normalizeText (textContent (dom env) el)) = true ->
  last_of (transcriptBuffer st) = Some e ->
  startsWith (normalizeText (textContent (dom env) el)) (Entry.text e) = true ->
  Js.eqb (Entry.text e) (normalizeText (textContent (dom env) el)) = false ->
  let text := normalizeText (textContent (dom env) el) in
  let st' := handleCaptionChange env st in
  transcriptBuffer st'
  = removelast (transcriptBuffer st) ++ [grown_entry env st text e] /\
  length (transcriptBuffer st') = length (transcriptBuffer st) /\
  Entry.text (grown_entry env st text e) = text /\
  Entry.endTime (grown_entry env st text e) = page_time env /\
  Entry.startTime (grown_entry env st text e) = Entry.startTime e /\
  forall c,
    currentChunk st = Some c -> Chunk.parts c <> [] ->
    let c' := with_last_part text (page_time env) c in
    Chunk.parts c' = removelast (Chunk.parts c) ++ [text] /\
    Chunk.text c' = join [SP] (Chunk.parts c') /\
    (currentChunk st' = Some c' \/
     (currentChunk st' = None /\
      exists tail, In (FINALIZE_CHUNK (snapshot c') tail) (outbox st'))).
Proof.
  intros Hc Hel Ht Hl Hsw Hne. cbv zeta.
  rewrite (handleCaptionChange_growth env st Hc Hel Ht Hl Hsw Hne).
  set (text := normalizeText (textContent (dom env) el)).
  set (B := removelast (transcriptBuffer st) ++ [grown_entry env st text e]).
  set (X := set_transcriptBuffer B (observed env st)).
  set (Y := set_lastCaptionUpdateAt (event_now env st)
              (replaceLastChunkPart text (page_time env) X)).
  destruct (reports_frame env (maybeFinalizeChunk env (event_now env st) Y))
    as (Rt & Rc & _ & sent & Ro & _).
  assert (HB : transcriptBuffer Y = B).
  { unfold Y. cbn [transcriptBuffer set_lastCaptionUpdateAt].
    now rewrite replaceLastChunkPart_transcript. }
  split; [|split; [|split; [|split; [|split]]]]; try reflexivity.
  - now rewrite Rt, maybeFinalizeChunk_transcript.
  - rewrite Rt, maybeFinalizeChunk_transcript, HB. unfold B.
    rewrite (last_of_split _ Hl) at 2. rewrite !length_app. reflexivity.
  - intros c Hch Hp.
    destruct (nonempty_last_of Hp) as [p Hlp].
    split; [|split; [reflexivity|]].
    { cbn [with_last_part Chunk.parts]. apply (update_last_spec _ _ Hlp). }
    assert (HY : currentChunk Y = Some (with_last_part text (page_time env) c)).
    { unfold Y. cbn [currentChunk set_lastCaptionUpdateAt].
      rewrite (@replaceLastChunkPart_open text (page_time env) X c); auto.
      unfold X. cbn [currentChunk set_transcriptBuffer].
      destruct (observed_fields env st) as (_ & _ & _ & Hk & _).
      now rewrite Hk. }
    rewrite Rc, Ro.
    destruct (maybeFinalizeChunk_cases env (event_now env st) Y) as [-> | ->];
      [now left|].
    destruct (finalizeChunk_cases env Y HY)
      as [-> | (tail & _ & Hn & _ & _ & _ & _ & Ho)]; [now left|].
    right. split; [exact Hn|]. exists tail.
    rewrite Ho. apply in_or_app. left. apply in_or_app. right. now left.
Qed.

Lemma prefix_growth_replaces_in_place_witness :
  let env := page_showing "the cell membrane is semi-permeable" in
  let st' := handleCaptionChange env first_caption_captured in
  map Entry.text (transcriptBuffer first_caption_captured)
  = [lit "the cell membrane is"] /\
  map Entry.text (transcriptBuffer st')
  = [lit "the cell membrane is semi-permeable"] /\
  option_map Chunk.parts (currentChunk st')
  = Some [lit "the cell membrane is semi-permeable"].
Proof.
  cbv zeta.
  destruct (@prefix_growth_replaces_in_place
              (page_showing "the cell membrane is semi-permeable")
              first_caption_captured 7 first_entry
              eq_refl eq_refl eq_refl eq_refl eq_refl eq_refl)
    as (Ht & _ & _ & _ & _ & Hc).
  split; [reflexivity|]. split.
  - rewrite Ht. reflexivity.
  - assert (Hp : Chunk.parts first_chunk <> []) by discriminate.
    destruct (Hc first_chunk eq_refl Hp) as (_ & _ & [H | [H _]]).
    + rewrite H. reflexivity.
    + vm_compute in H. discriminate H.
Defined.

(** ** Growth with no chunk in progress *)

Lemma appendChunkPart_opens env text tNow st :
  currentChunk st = None ->
  exists c,
    currentChunk (appendChunkPart env text tNow st) = Some c /\
    Chunk.parts c = [text].
Proof.
  intros H. unfold appendChunkPart. rewrite H.
  unfold generateChunkId, Date_now. cbn. eexists. split; reflexivity.
Qed.

(** A chunk that is open after an event handled with no chunk in progress
    holds the text of that event and nothing else. *)
Lemma chunk_opened_by_event env st :
  currentChunk st = None ->
  match currentChunk (handleCaptionChange env st) with
  | None => True
  | Some c =>
      exists el, captionElement st = Some el /\
                 Chunk.parts c = [normalizeText (textContent (dom env) el)]
  end.
Proof.
  intros Hn.
  destruct (isCapturing st) eqn:Hc.
  2:{ unfold handleCaptionChange. rewrite Hc, Hn. exact I. }
  destruct (captionElement st) as [el|] eqn:Hel.
  2:{ unfold handleCaptionChange. rewrite Hc, Hel, Hn. exact I. }
  destruct (truthy (normalizeText (textContent (dom env) el))) eqn:Ht.
  2:{ unfold handleCaptionChange. rewrite Hc, Hel, Ht. cbn [negb].
      rewrite Hn. exact I. }
  rewrite (handleCaptionChange_unfold env st Hc Hel Ht).
  destruct (observed_fields env st) as (_ & _ & _ & Hk & _).
  rewrite Hn in Hk.
  set (text := normalizeText (textContent (dom env) el)).
  unfold store_caption.
  destruct (match last_of (transcriptBuffer (observed env st)) with
            | Some e => Js.eqb (Entry.text e) text
            | None => false
            end); [now rewrite Hk|].
  match goal with
  | |- context [sendStatus false env (sendTranscriptUpdate ?W)] =>
      destruct (reports_frame env W) as (_ & Rc & _); rewrite Rc
  end.
  match goal with
  | |- context [maybeFinalizeChunk env ?n (set_lastCaptionUpdateAt ?n ?Y)] =>
      set (Z := set_lastCaptionUpdateAt n Y);
      assert (HZ : currentChunk Z = None \/
                   exists c, currentChunk Z = Some c /\ Chunk.parts c = [text])
  end.
  { unfold Z. cbn [currentChunk set_lastCaptionUpdateAt].
    destruct (match last_of (transcriptBuffer (observed env st)) with
              | Some e => startsWith text (Entry.text e)
              | None => false
              end).
    - left. rewrite replaceLastChunkPart_closed; now cbn.
    - right. apply appendChunkPart_opens.
      unfold appendTranscriptEntry. cbn [currentChunk set_transcriptBuffer].
      destruct (last_of (transcriptBuffer (observed env st))); [|exact Hk].
      now destruct (Qle_bool _ _). }
  destruct HZ as [HZ | (c & HZ & Hp)].
  - now rewrite (maybeFinalizeChunk_closed _ _ _ HZ), HZ.
  - match goal with
    | |- context [maybeFinalizeChunk env ?n Z] =>
        destruct (maybeFinalizeChunk_cases env n Z) as [-> | ->]
    end.
    + rewrite HZ. now exists el.
    + destruct (finalizeChunk_cases env Z HZ)
        as [-> | (tail & _ & -> & _)]; [|exact I].
      rewrite HZ. now exists el.
Qed.

(** C10.  When the grown caption arrives while no chunk is in progress, the
    transcript entry is replaced as usual, and nothing else happens to the
    chunk state: no chunk is opened, none is sent, the transcript report
    carries no chunk; and the chunk a later event opens holds that event's
    text alone, so the grown text has not entered any chunk. *)
Theorem prefix_growth_without_chunk
  (env : Env) (st : State) (el : nat) (e : Entry.t) :
  isCapturing st = true ->
  captionElement st = Some el ->
  truthy (normalizeText (textContent (dom env) el)) = true ->
  last_of (transcriptBuffer st) = Some e ->
  startsWith (normalizeText (textContent (dom env) el)) (Entry.text e) = true ->
  Js.eqb (Entry.text e) (normalizeText (textContent (dom env) el)) = false ->
  currentChunk st = None ->
  let text := normalizeText (textContent (dom env) el) in
  let st' := handleCaptionChange env st in
  currentChunk st' = None /\
  chunkStartWallTime st' = chunkStartWallTime st /\
  transcriptBuffer st'
  = removelast (transcriptBuffer st) ++ [grown_entry env st text e] /\
  finalized_chunks (outbox st') = finalized_chunks (outbox st) /\
  In (TRANSCRIPT_UPDATE (slice_last 50 (transcriptBuffer st')) None)
     (outbox st') /\
  forall env2,
    match currentChunk (handleCaptionChange env2 st') with
    | None => True
    | Some c =>
        exists el2, Chunk.parts c = [normalizeText (textContent (dom env2) el2)]
    end.
Proof.
  intros Hc Hel Ht Hl Hsw Hne Hn. cbv zeta.
  set (text := normalizeText (textContent (dom env) el)).
  set (B := removelast (transcriptBuffer st) ++ [grown_entry env st text e]).
  set (X := set_transcriptBuffer B (observed env st)).
  set (Y := set_lastCaptionUpdateAt (event_now env st) X).
  destruct (observed_fields env st) as (_ & _ & _ & Hk & Hw & Ho).
  assert (HX : currentChunk X = None).
  { unfold X. cbn [currentChunk set_transcriptBuffer]. now rewrite Hk. }
  assert (HY : currentChunk Y = None) by exact HX.
  assert (Heq : handleCaptionChange env st
                = sendStatus false env (sendTranscriptUpdate Y)).
  { rewrite (handleCaptionChange_growth env st Hc Hel Ht Hl Hsw Hne).
    fold text B X.
    rewrite (replaceLastChunkPart_closed _ _ _ HX). fold Y.
    now rewrite (maybeFinalizeChunk_closed _ _ _ HY). }
  destruct (sendStatus_frame false env (sendTranscriptUpdate Y))
    as (sent & So & Sf & _ & _ & St & Sc & Sw).
  assert (Hclosed : currentChunk (handleCaptionChange env st) = None)
    by (rewrite Heq, Sc; exact HY).
  split; [exact Hclosed|].
  split; [|split; [|split; [|split]]].
  - rewrite Heq, Sw. unfold Y, X.
    cbn [chunkStartWallTime sendTranscriptUpdate send set_outbox
         set_lastCaptionUpdateAt set_transcriptBuffer].
    exact Hw.
  - rewrite Heq, St. reflexivity.
  - rewrite Heq, So. unfold sendTranscriptUpdate, send. cbn [outbox set_outbox].
    rewrite !finalized_chunks_app, Sf.
    change (finalized_chunks [TRANSCRIPT_UPDATE _ _]) with (@nil Finalized.t).
    rewrite !app_nil_r.
    unfold Y, X. cbn [outbox set_lastCaptionUpdateAt set_transcriptBuffer].
    now rewrite Ho.
  - rewrite Heq, So, St. apply in_or_app. left.
    unfold sendTranscriptUpdate, send. cbn [outbox set_outbox].
    apply in_or_app. right. left. now rewrite HY.
  - intros env2.
    pose proof (chunk_opened_by_event env2 _ Hclosed) as H.
    destruct (currentChunk (handleCaptionChange env2 _)); [|exact I].
    destruct H as (el2 & _ & H). now exists el2.
Qed.

Lemma prefix_growth_without_chunk_witness :
  let env := paused_page_showing "the cell membrane is semi-permeable" in
  let st' := handleCaptionChange env first_caption_finalized in
  currentChunk first_caption_finalized = None /\
  currentChunk st' = None /\
  map Entry.text (transcriptBuffer st')
  = [lit "the cell membrane is semi-permeable"] /\
  finalized_chunks (outbox st')
  = finalized_chunks (outbox first_caption_finalized).
Proof.
  cbv zeta.
  destruct (@prefix_growth_without_chunk
              (paused_page_showing "the cell membrane is semi-permeable")
              first_caption_finalized 7 first_entry
              eq_refl eq_refl eq_refl eq_refl eq_refl eq_refl eq_refl)
    as (Hc & _ & Ht & Hf & _).
  split; [reflexivity|]. split; [exact Hc|]. split; [|exact Hf].
  rewrite Ht. reflexivity.
Defined.

(** ** Clearing the session *)

(** C7, amended.  A clear-session message empties the transcript, drops the
    chunk in progress and stops the capture; the chunk is discarded, not
    finalized: no FINALIZE_CHUNK message is sent, only an empty transcript
    report and a status report. *)
Theorem clear_session_discards_chunk (env : Env) (st : State) :
  let st' := onMessage CLEAR_SESSION env st in
  transcriptBuffer st' = [] /\
  currentChunk st' = None /\
  chunkStartWallTime st' = None /\
  isCapturing st' = false /\
  finalized_chunks (outbox st') = finalized_chunks (outbox st) /\
  exists status,
    outbox st' = outbox st ++ [TRANSCRIPT_UPDATE [] None; STATUS_UPDATE status].
Proof.
  cbv zeta. unfold onMessage.
  set (X := send (TRANSCRIPT_UPDATE [] None) _).
  assert (Ho : exists status,
             outbox (sendStatus true env X)
             = outbox X ++ [STATUS_UPDATE status]).
  { unfold sendStatus. destruct (buildStatusPayload env X) as [payload Y] eqn:E.
    cbn [negb andb]. exists payload.
    unfold send. cbn [outbox set_outbox set_lastSentStatus].
    unfold buildStatusPayload in E.
    destruct (is_some (captionElement X)); cbn in E;
      injection E as <- <-; reflexivity. }
  destruct Ho as (status & Ho).
  destruct (sendStatus_frame true env X) as (_ & _ & _ & Hcap & _ & Ht & Hc & Hw).
  rewrite Ht, Hc, Hw, Hcap, Ho.
  repeat split.
  - unfold X, send. cbn [outbox set_outbox].
    rewrite !finalized_chunks_app. cbn. now rewrite !app_nil_r.
  - exists status. unfold X, send. cbn [outbox set_outbox].
    now rewrite <- app_assoc.
Qed.

(** C7, as stated, fails: the session below has a chunk in progress with the
    text "the cell membrane is"; after the clear-session message the chunk is
    gone and no finalized chunk has been sent. *)
Lemma clear_session_emits_no_chunk :
  let st' := onMessage CLEAR_SESSION (page_showing "the cell membrane is")
                       first_caption_captured in
  currentChunk first_caption_captured = Some first_chunk /\
  truthy (trim (Chunk.text first_chunk)) = true /\
  currentChunk st' = None /\
  finalized_chunks (outbox st') = [].
Proof. vm_compute. repeat split. Qed.

End CaptureFacts.

(* ================================================================== *)
(** * Facts about the synthesis queue *)
(* ================================================================== *)

Module WorkerFacts.

Import Notes Worker.

(** Projections of updated worlds. *)
Ltac world :=
  cbn [fst snd outcome took call_kind call_provider call_start call_end
       notesState aiSettings envKeys lastLlmCallAt now sidePanel console
       modelCalls tasksRun thrown
       set_notesState set_aiSettings set_envKeys set_lastLlmCallAt set_now
       set_sidePanel set_console set_modelCalls set_tasksRun set_thrown] in *.

(** ** Computations that only wait and call the model *)

Lemma effects_refl w : effects w w.
Proof.
  constructor; try reflexivity.
  exists []. split; [now rewrite app_nil_r | constructor].
Qed.

Lemma in_window_widen lo hi lo' hi' c :
  (lo' <= lo)%Z -> (hi <= hi')%Z -> in_window lo hi c -> in_window lo' hi' c.
Proof. unfold in_window. lia. Qed.

Lemma effects_trans w1 w2 w3 : effects w1 w2 -> effects w2 w3 -> effects w1 w3.
Proof.
  intros [A1 A2 A3 A4 A5 A6 A7 A8 (c1 & A9 & A10)]
         [B1 B2 B3 B4 B5 B6 B7 B8 (c2 & B9 & B10)].
  constructor; try congruence; try lia.
  exists (c1 ++ c2). split.
  - rewrite B9, A9. now rewrite app_assoc.
  - apply Forall_app. split.
    + eapply Forall_impl; [|exact A10]. intros c. apply in_window_widen; lia.
    + eapply Forall_impl; [|exact B10]. intros c. apply in_window_widen; lia.
Qed.

Lemma quiet_ret {A} (a : A) : quiet (ret a).
Proof. intros w. split; [apply effects_refl | reflexivity]. Qed.

Lemma quiet_read {A} (f : World -> A) : quiet (read f).
Proof. intros w. split; [apply effects_refl | reflexivity]. Qed.

Lemma quiet_bind {A B} (m : M A) (k : A -> M B) :
  quiet m -> (forall a, quiet (k a)) -> quiet (bind m k).
Proof.
  intros Hm Hk w. unfold bind.
  destruct (Hm w) as [E T]. destruct (m w) as [[a|e] w1]; cbn [fst snd] in *.
  - destruct (Hk a w1) as [E' T']. split.
    + eapply effects_trans; eauto.
    + unfold tracks in *. destruct (fst (k a w1)); congruence.
  - split; assumption.
Qed.

Lemma advance_effects w n : effects w (set_now (now w + Z.of_N n) w).
Proof.
  constructor; world; try reflexivity; try lia.
  exists []. split; [now rewrite app_nil_r | constructor].
Qed.

Lemma quiet_await {A} (a : Await A) : quiet (await a).
Proof.
  intros w. unfold await. destruct (outcome a); cbn [fst snd].
  - split; [apply advance_effects | reflexivity].
  - split; [|reflexivity].
    pose proof (advance_effects w (took a)) as [].
    constructor; assumption.
Qed.

Lemma quiet_throw {A} (message : jstring) : quiet (@throw A message).
Proof.
  intros w. unfold throw. cbn [fst snd]. split; [|reflexivity].
  pose proof (effects_refl w) as []. constructor; assumption.
Qed.

Lemma quiet_callModelText kind p answer : quiet (callModelText kind p answer).
Proof.
  intros w. unfold callModelText.
  destruct (quiet_await answer w) as [[] T].
  destruct (await answer w) as [r w1]. cbn [fst snd] in *.
  split.
  - constructor; world; try assumption.
    destruct ef_calls0 as (calls & Hc & Hf).
    exists (calls ++ [mkCall kind p (now w) (now w1)]). split.
    + now rewrite Hc, app_assoc.
    + apply Forall_app. split; [exact Hf|].
      constructor; [|constructor]. unfold in_window. world. lia.
  - destruct r; exact T.
Qed.

(** ** The rate limiter *)

Lemma waitForRateLimit_spec env w :
  fst (waitForRateLimit env w) = Returns tt /\
  limiter_passed w (snd (waitForRateLimit env w)).
Proof.
  unfold waitForRateLimit, sleep, await, bind, read, write, ret. world.
  destruct (0 <? Z.max 0 (MIN_LLM_INTERVAL_MS - (now w - lastLlmCallAt w)))%Z
    eqn:E; world.
  - split; [reflexivity|]. apply Z.ltb_lt in E.
    constructor; world; try reflexivity; unfold MIN_LLM_INTERVAL_MS in *; lia.
  - split; [reflexivity|]. apply Z.ltb_ge in E.
    constructor; world; try reflexivity; unfold MIN_LLM_INTERVAL_MS in *; lia.
Qed.


Section Parsing.

Variable JSON_parse : jstring -> option value.

(** ** The body of the try *)

Lemma quiet_parseAndValidateNotesJson env p rawText :
  quiet (parseAndValidateNotesJson JSON_parse env p rawText).
Proof.
  unfold parseAndValidateNotesJson.
  destruct (js_truthy (tryParseJson JSON_parse rawText)); [apply quiet_ret|].
  apply quiet_bind; [apply quiet_callModelText|]. intros repairedText.
  destruct (negb _); [apply quiet_throw | apply quiet_ret].
Qed.

Lemma quiet_updateNotesWithLLM env notes chunk p :
  quiet (updateNotesWithLLM JSON_parse env notes chunk p).
Proof.
  unfold updateNotesWithLLM.
  apply quiet_bind; [apply quiet_callModelText|]. intros cleanedRaw.
  destruct (negb _); [apply quiet_ret|].
  apply quiet_bind; [apply quiet_callModelText|]. intros mergedRaw.
  apply quiet_bind; [apply quiet_parseAndValidateNotesJson|]. intros parsed.
  apply quiet_ret.
Qed.

(** The body of the try either throws, and then it has only waited and
    called the model, or it returns, and then it has stored the normalised
    notes and broadcast them. *)
Lemma update_notes_spec env currentNotes chunk p w :
  let r := fst (update_notes JSON_parse env currentNotes chunk p w) in
  let w' := snd (update_notes JSON_parse env currentNotes chunk p w) in
  (exists e, r = Throws e /\ effects w w' /\ thrown w' = thrown w ++ [e]) \/
  (r = Returns tt /\
   exists w1 updatedNotes,
     effects w w1 /\ thrown w1 = thrown w /\
     w' = set_sidePanel (sidePanel w1 ++ [NOTES_UPDATE updatedNotes])
            (set_notesState
               (value_of_notes (normalizeNotesState (value_of_notes updatedNotes)))
               w1)).
Proof.
  cbv zeta.
  destruct (update_notes JSON_parse env currentNotes chunk p w) as [r w']
    eqn:Hrun.
  cbn [fst snd]. unfold update_notes in Hrun. unfold bind at 1 in Hrun.
  destruct (quiet_await (resolved env) w) as [E1 T1].
  destruct (await (resolved env) w) as [[model|e] w1];
    cbn [fst snd] in *; unfold tracks in T1.
  2:{ injection Hrun as <- <-. left. exists e.
      split; [reflexivity|]. split; assumption. }
  unfold bind at 1 in Hrun.
  destruct (quiet_updateNotesWithLLM env currentNotes chunk p w1) as [E2 T2].
  destruct (updateNotesWithLLM JSON_parse env currentNotes chunk p w1)
    as [[updatedNotes|e] w2]; cbn [fst snd] in *; unfold tracks in T2.
  2:{ injection Hrun as <- <-. left. exists e. split; [reflexivity|]. split.
      - eapply effects_trans; eauto.
      - congruence. }
  unfold bind at 1 in Hrun. unfold updateNotesState, bind at 1 in Hrun.
  destruct (quiet_await (stored env) w2) as [E3 T3].
  destruct (await (stored env) w2) as [[[]|e] w3];
    cbn [fst snd] in *; unfold tracks in T3.
  2:{ injection Hrun as <- <-. left. exists e. split; [reflexivity|]. split.
      - eapply effects_trans; [|exact E3]. eapply effects_trans; eauto.
      - congruence. }
  unfold write, broadcastToSidePanel, write in Hrun.
  injection Hrun as <- <-.
  right. split; [reflexivity|].
  exists w3, updatedNotes. split; [|split; [congruence | reflexivity]].
  eapply effects_trans; [|exact E3]. eapply effects_trans; eauto.
Qed.

(** ** The task from the rate limiter on *)

Lemma model_work_spec env currentNotes c p w :
  fst (model_work JSON_parse env currentNotes c p w) = Returns tt /\
  worked w (snd (model_work JSON_parse env currentNotes c p w)).
Proof.
  destruct (model_work JSON_parse env currentNotes c p w) as [r w'] eqn:Hrun.
  cbn [fst snd]. unfold model_work in Hrun. unfold bind at 1 in Hrun.
  destruct (waitForRateLimit_spec env w) as [Hr G].
  destruct (waitForRateLimit env w) as [r0 w0]. cbn [fst snd] in *.
  subst r0. destruct G as [G1 G2 G3 G4 G5 G6 G7 G8 G9 G10 G11].
  unfold try_catch in Hrun.
  pose proof (update_notes_spec env currentNotes c p w0) as Hu.
  cbv zeta in Hu.
  destruct (update_notes JSON_parse env currentNotes c p w0) as [r1 w1].
  cbn [fst snd] in Hu.
  destruct Hu as [(e & -> & [E1 E2 E3 E4 E5 E6 E7 E8 (calls & E9 & E10)] & T)
                 | (-> & w2 & updatedNotes
                    & [E1 E2 E3 E4 E5 E6 E7 E8 (calls & E9 & E10)] & T & ->)].
  - unfold bind, console_error, broadcastToSidePanel, write in Hrun.
    injection Hrun as <- <-. split; [reflexivity|].
    constructor; world; try congruence; try lia.
    + exists calls. split; [congruence|].
      eapply Forall_impl; [|exact E10]. unfold in_window. intros; lia.
    + right. exists e. do 2 eexists.
      split; [congruence|]. split; [congruence|].
      split; [rewrite E7, G8 | rewrite E6, G7]; reflexivity.
  - injection Hrun as <- <-. split; [reflexivity|].
    constructor; world; try congruence; try lia.
    + exists calls. split; [congruence|].
      eapply Forall_impl; [|exact E10]. unfold in_window. intros; lia.
    + left. split; [congruence|]. split; [congruence|].
      exists updatedNotes. split; [|reflexivity]. now rewrite E6, G7.
Qed.


(** ** The whole task *)

Lemma handleFinalizeChunk_ready env chunk tail w c notes p :
  ready env chunk w = Some (c, notes, p) ->
  handleFinalizeChunk JSON_parse env chunk tail w
  = model_work JSON_parse env notes c p (ready_world env chunk w).
Proof.
  unfold ready, handleFinalizeChunk.
  destruct chunk as [c0|]; [|discriminate].
  destruct (negb (truthy (Capture.Finalized.text c0)) || _); [discriminate|].
  destruct (outcome (notesRead env)) as [[]|] eqn:H1; [|discriminate].
  destruct (outcome (settingsRead env)) as [[]|] eqn:H2; [|discriminate].
  cbv zeta.
  destruct (aiNotesEnabled _) eqn:H3; [|discriminate].
  destruct (truthy (getProviderApiKey _ _)) eqn:H4; [|discriminate].
  cbn [andb]. intros [= <- <- <-].
  unfold bind at 1, write. unfold bind at 1.
  unfold getNotesState, bind at 1, await. rewrite H1. world.
  unfold read at 1. unfold bind at 1.
  unfold getAiSettings, bind at 1, await. rewrite H2. world.
  unfold read at 1. world.
  rewrite H3. cbn [negb]. rewrite H4. cbn [negb].
  reflexivity.
Qed.

(** A task that does not reach the rate limiter changes neither the notes,
    nor the time of the last pass, nor the calls, and logs nothing; it
    throws at most the error of a failed read. *)
Lemma handleFinalizeChunk_not_ready env chunk tail w :
  ready env chunk w = None ->
  let r := fst (handleFinalizeChunk JSON_parse env chunk tail w) in
  let w' := snd (handleFinalizeChunk JSON_parse env chunk tail w) in
  tasksRun w' = tasksRun w ++ [chunk] /\
  notesState w' = notesState w /\
  lastLlmCallAt w' = lastLlmCallAt w /\
  modelCalls w' = modelCalls w /\
  console w' = console w /\
  ((r = Returns tt /\ thrown w' = thrown w) \/
   (exists e, r = Throws e /\ thrown w' = thrown w ++ [e])).
Proof.
  intros Hready. cbv zeta.
  destruct (handleFinalizeChunk JSON_parse env chunk tail w) as [r w']
    eqn:Hrun.
  cbn [fst snd]. unfold ready in Hready. unfold handleFinalizeChunk in Hrun.
  unfold bind at 1 in Hrun. unfold write at 1 in Hrun.
  destruct chunk as [c0|].
  2:{ injection Hrun as <- <-. world. repeat split. now left. }
  destruct (negb (truthy (Capture.Finalized.text c0)) || _).
  { injection Hrun as <- <-. world. repeat split. now left. }
  unfold bind at 1 in Hrun. unfold getNotesState, bind at 1, await in Hrun.
  destruct (outcome (notesRead env)) as [[]|e] eqn:H1.
  2:{ injection Hrun as <- <-. world. repeat split. right. now exists e. }
  unfold read at 1 in Hrun. unfold bind at 1 in Hrun.
  unfold getAiSettings, bind at 1, await in Hrun.
  destruct (outcome (settingsRead env)) as [[]|e] eqn:H2.
  2:{ injection Hrun as <- <-. world. repeat split. right. now exists e. }
  unfold read at 1 in Hrun. world. cbv zeta in Hready.
  destruct (aiNotesEnabled _); cbn [negb andb] in *.
  2:{ injection Hrun as <- <-. world. repeat split. now left. }
  destruct (truthy (getProviderApiKey _ _)); [discriminate|].
  cbn [negb] in Hrun. unfold broadcastToSidePanel, write in Hrun.
  injection Hrun as <- <-. world. repeat split. now left.
Qed.

(** ** The queue *)

(** One link of the queue: the promise is fulfilled whatever the task does,
    the task has been run, and if an error was thrown it is the only one, it
    was logged, and the notes are as they were. *)
Lemma enqueue_spec task w :
  let w' := snd (enqueue JSON_parse task (Returns tt) w) in
  fst (enqueue JSON_parse task (Returns tt) w) = Returns tt /\
  tasksRun w' = tasksRun w ++ [task_chunk task] /\
  (thrown w' = thrown w \/
   exists e line,
     thrown w' = thrown w ++ [e] /\
     notesState w' = notesState w /\
     console w' = console w ++ [line]).
Proof.
  cbv zeta. unfold enqueue, catch_, then_.
  destruct (ready (task_env task) (task_chunk task) w) as [[[c notes] p]|]
    eqn:Hready.
  - rewrite (handleFinalizeChunk_ready _ _ (task_tailContext task) _ Hready).
    destruct (model_work_spec (task_env task) notes c p
                (ready_world (task_env task) (task_chunk task) w))
      as [Hr [_ _ Ht _ Hres]].
    destruct (model_work JSON_parse (task_env task) notes c p _) as [r w'].
    cbn [fst snd] in *. subst r. cbn [fst snd].
    unfold ready_world in *. world.
    split; [reflexivity|]. split; [exact Ht|].
    destruct Hres as [(H1 & _) | (e & line & message & H1 & H2 & H3 & _)].
    + now left.
    + right. now exists e, line.
  - pose proof (handleFinalizeChunk_not_ready (task_env task) (task_chunk task)
                  (task_tailContext task) w Hready) as H.
    cbv zeta in H.
    destruct (handleFinalizeChunk JSON_parse _ _ _ w) as [r w'].
    cbn [fst snd] in H.
    destruct H as (Ht & Hn & _ & _ & Hc & [(-> & Hth) | (e & -> & Hth)]).
    + cbn [fst snd]. split; [reflexivity|]. split; [exact Ht|]. now left.
    + unfold console_error, write. world.
      split; [reflexivity|]. split; [exact Ht|].
      right. exists e. eexists. split; [exact Hth|]. split; [exact Hn|].
      now rewrite Hc.
Qed.

Lemma drain_app a b q w :
  drain JSON_parse (a ++ b) q w
  = drain JSON_parse b (fst (drain JSON_parse a q w))
          (snd (drain JSON_parse a q w)).
Proof.
  revert q w; induction a as [|t a IH]; intros q w; cbn [app drain fst snd];
    [reflexivity|].
  destruct (enqueue JSON_parse t q w) as [q1 w1]. apply IH.
Qed.

(** The queue never stays rejected, and runs every task, in order. *)
Lemma drain_spec tasks w :
  fst (drain JSON_parse tasks (Returns tt) w) = Returns tt /\
  tasksRun (snd (drain JSON_parse tasks (Returns tt) w))
  = tasksRun w ++ map task_chunk tasks.
Proof.
  revert w; induction tasks as [|t tasks IH]; intros w; cbn [drain map].
  - split; [reflexivity | now rewrite app_nil_r].
  - destruct (enqueue_spec t w) as (Hq & Ht & _).
    destruct (enqueue JSON_parse t (Returns tt) w) as [q1 w1].
    cbn [fst snd] in *. subst q1.
    destruct (IH w1) as [H1 H2]. split; [exact H1|].
    rewrite H2, Ht, <- app_assoc. reflexivity.
Qed.

(** C2.  Whatever the tasks queued before and after it, a chunk task leaves
    the queue fulfilled; if an error was thrown while it ran (by a model
    call, by the parsing of the reply, by the storage write or by a storage
    read), that error is the only one, it was caught and logged, and the
    stored notes are exactly what they were when the task began; the tasks
    queued after it are then run from the world it leaves, and all tasks of
    the queue are run in the order of their messages. *)
Theorem chunk_task_failure_is_isolated
  (before after : list Task) (task : Task) (w : World) :
  let w1 := snd (drain JSON_parse before (Returns tt) w) in
  let w2 := snd (enqueue JSON_parse task (Returns tt) w1) in
  fst (enqueue JSON_parse task (Returns tt) w1) = Returns tt /\
  (thrown w2 <> thrown w1 ->
   notesState w2 = notesState w1 /\
   exists e line,
     thrown w2 = thrown w1 ++ [e] /\ console w2 = console w1 ++ [line]) /\
  drain JSON_parse (before ++ task :: after) (Returns tt) w
  = drain JSON_parse after (Returns tt) w2 /\
  tasksRun (snd (drain JSON_parse (before ++ task :: after) (Returns tt) w))
  = tasksRun w ++ map task_chunk (before ++ task :: after).
Proof.
  cbv zeta.
  destruct (drain_spec before w) as [Hq1 _].
  set (w1 := snd (drain JSON_parse before (Returns tt) w)) in *.
  destruct (enqueue_spec task w1) as (Hq2 & _ & Hres). cbv zeta in Hres.
  split; [exact Hq2|]. split; [|split].
  - intros Hne. destruct Hres as [H | (e & line & H1 & H2 & H3)];
      [contradiction|].
    split; [exact H2|]. now exists e, line.
  - rewrite drain_app. fold w1. rewrite Hq1. cbn [drain].
    destruct (enqueue JSON_parse task (Returns tt) w1) as [q2 w2].
    cbn [fst snd] in *. now subst q2.
  - apply drain_spec.
Qed.

(** ** Preconditions *)

Lemma trim_truthy (s : jstring) : truthy (trim s) = true -> truthy s = true.
Proof. destruct s; [discriminate | reflexivity]. Qed.

(** C8, amended.  A chunk task with text, whose two storage reads succeed,
    ends at once when the AI feature is disabled or when the active provider
    has no key: it returns, the notes are unchanged, no model call is made,
    the rate limiter is not touched, nothing is thrown or logged.  Only the
    missing key is notified: the side panel receives one ERROR message in
    that case, and nothing when the feature is disabled. *)
Theorem precondition_short_circuit
  (env : TaskEnv) (c : Capture.Finalized.t) (tail : jstring) (w : World) :
  truthy (trim (Capture.Finalized.text c)) = true ->
  outcome (notesRead env) = Returns tt ->
  outcome (settingsRead env) = Returns tt ->
  let settings := settings_of (aiSettings w) (envKeys w) in
  let r := fst (handleFinalizeChunk JSON_parse env (Some c) tail w) in
  let w' := snd (handleFinalizeChunk JSON_parse env (Some c) tail w) in
  aiNotesEnabled settings = false \/
  truthy (getProviderApiKey settings (provider settings)) = false ->
  r = Returns tt /\
  notesState w' = notesState w /\
  modelCalls w' = modelCalls w /\
  lastLlmCallAt w' = lastLlmCallAt w /\
  thrown w' = thrown w /\
  console w' = console w /\
  sidePanel w'
  = if aiNotesEnabled settings
    then sidePanel w
         ++ [ERROR (lit "AI Notes enabled, but no API key saved for "
                    ++ lit (provider_name (provider settings)) ++ lit ".")]
    else sidePanel w.
Proof.
  intros Ht H1 H2. cbv zeta. intros Hpre.
  destruct (handleFinalizeChunk JSON_parse env (Some c) tail w) as [r w']
    eqn:Hrun.
  cbn [fst snd]. unfold handleFinalizeChunk in Hrun.
  rewrite Ht, (trim_truthy _ Ht) in Hrun. cbn [negb orb] in Hrun.
  unfold bind at 1 in Hrun. unfold write at 1 in Hrun.
  unfold bind at 1 in Hrun. unfold getNotesState, bind at 1, await in Hrun.
  rewrite H1 in Hrun. unfold read at 1 in Hrun. unfold bind at 1 in Hrun.
  unfold getAiSettings, bind at 1, await in Hrun.
  rewrite H2 in Hrun. unfold read at 1 in Hrun. world.
  destruct (aiNotesEnabled (settings_of (aiSettings w) (envKeys w))) eqn:He;
    cbn [negb] in Hrun.
  - destruct Hpre as [Hpre | Hpre]; [discriminate|].
    rewrite Hpre in Hrun. cbn [negb] in Hrun.
    unfold broadcastToSidePanel, write in Hrun.
    injection Hrun as <- <-. world. repeat split.
  - injection Hrun as <- <-. world. repeat split.
Qed.

(** ** The rate limiter in a task *)


End Parsing.

(** ** Sample runs *)

Lemma chunk_task_failure_is_isolated_witness :
  let failing := mkTask (Some (sample_chunk "chunk_1")) [] failing_store_env in
  let next := mkTask (Some (sample_chunk "chunk_2")) [] sample_env in
  let w2 := snd (enqueue sample_parse failing (Returns tt) enabled_world) in
  let w3 := snd (drain sample_parse [failing; next] (Returns tt) enabled_world) in
  thrown w2 = [lit "QUOTA_BYTES quota exceeded"] /\
  notesState w2 = notesState enabled_world /\
  map Capture.Finalized.chunkId
      (flat_map (fun c => match c with Some c => [c] | None => [] end)
                (tasksRun w3))
  = [lit "chunk_1"; lit "chunk_2"] /\
  notesState w3 <> notesState enabled_world.
Proof.
  cbv zeta.
  destruct (chunk_task_failure_is_isolated sample_parse []
              [mkTask (Some (sample_chunk "chunk_2")) [] sample_env]
              (mkTask (Some (sample_chunk "chunk_1")) [] failing_store_env)
              enabled_world) as (_ & Hfail & _ & Hrun).
  cbv zeta in Hfail.
  split; [vm_compute; reflexivity|]. split.
  - apply Hfail. vm_compute. discriminate.
  - split.
    + change ([] ++ ?t :: ?r) with (t :: r) in Hrun. rewrite Hrun.
      vm_compute. reflexivity.
    + vm_compute. discriminate.
Defined.

Lemma precondition_short_circuit_witness :
  let task w := handleFinalizeChunk sample_parse sample_env
                  (Some (sample_chunk "chunk_1")) [] w in
  sidePanel (snd (task keyless_world))
  = [ERROR (lit "AI Notes enabled, but no API key saved for openai.")] /\
  modelCalls (snd (task keyless_world)) = [] /\
  sidePanel (snd (task disabled_world)) = [] /\
  modelCalls (snd (task disabled_world)) = [].
Proof.
  cbv zeta.
  destruct (@precondition_short_circuit sample_parse sample_env
              (sample_chunk "chunk_1") [] keyless_world
              eq_refl eq_refl eq_refl (or_intror eq_refl))
    as (_ & _ & Hc1 & _ & _ & _ & Hp1).
  destruct (@precondition_short_circuit sample_parse sample_env
              (sample_chunk "chunk_1") [] disabled_world
              eq_refl eq_refl eq_refl (or_introl eq_refl))
    as (_ & _ & Hc2 & _ & _ & _ & Hp2).
  rewrite Hp1, Hc1, Hp2, Hc2. repeat split.
Defined.

(** C8, as stated, fails: with the feature disabled the task ends without
    any message to the side panel. *)
Lemma disabled_feature_is_not_notified :
  let w' := snd (handleFinalizeChunk sample_parse sample_env
                   (Some (sample_chunk "chunk_1")) [] disabled_world) in
  aiNotesEnabled (settings_of (aiSettings disabled_world)
                              (envKeys disabled_world)) = false /\
  sidePanel w' = [].
Proof. vm_compute. split; reflexivity. Qed.


End WorkerFacts.

(* ================================================================== *)
(** * More about the quality merge *)
(* ================================================================== *)

Module NotesQuality.

Import Notes JsFacts NotesFacts Quality.

(** ** Token sets *)

Lemma mem_In x l : mem x l = true <-> In x l.
Proof.
  unfold mem. rewrite existsb_exists. split.
  - intros [y [Hy E]]. apply eqb_eq in E. now subst.
  - intros H. exists x. split; [exact H | apply eqb_refl].
Qed.

Lemma mem_false x l : mem x l = false <-> ~ In x l.
Proof.
  rewrite <- mem_In. destruct (mem x l); split; intros; congruence.
Qed.

Lemma NoDup_snoc {A} (l : list A) x : NoDup l -> ~ In x l -> NoDup (l ++ [x]).
Proof.
  induction l as [|y l IH]; intros Hl Hx; cbn [app].
  - constructor; [intros []|constructor].
  - inversion Hl as [|? ? Hy Hl']; subst. constructor.
    + rewrite in_app_iff. intros [H|[H|[]]]; [now apply Hy|].
      subst. apply Hx. now left.
    + apply IH; [exact Hl'|]. intros H. apply Hx. now right.
Qed.

Lemma to_set_from_NoDup seen l : NoDup seen -> NoDup (to_set_from seen l).
Proof.
  revert seen; induction l as [|x l IH]; intros seen H; cbn [to_set_from].
  - exact H.
  - destruct (mem x seen) eqn:E; [now apply IH|].
    apply IH, NoDup_snoc; [exact H | now apply mem_false].
Qed.

Lemma token_set_NoDup a : NoDup (token_set a).
Proof. apply to_set_from_NoDup. constructor. Qed.

Lemma filter_none {A} (l : list A) : filter (fun _ => false) l = [].
Proof. induction l; simpl; auto. Qed.

Lemma filter_split_length {A} (f g : A -> bool) l :
  (forall y, In y l -> f y = true -> g y = true -> False) ->
  length (filter (fun y => f y || g y) l)
  = length (filter f l) + length (filter g l).
Proof.
  induction l as [|y l IH]; intros H; cbn [filter]; [reflexivity|].
  assert (IH' := IH (fun z Hz => H z (or_intror Hz))).
  destruct (f y) eqn:Ef, (g y) eqn:Eg; cbn [orb length]; rewrite IH'; try lia.
  exfalso. apply (H y); auto. now left.
Qed.

Lemma filter_one_length x l :
  NoDup l ->
  length (filter (fun y => Js.eqb y x) l) = if mem x l then 1 else 0.
Proof.
  induction l as [|y l IH]; intros H; [reflexivity|].
  inversion H as [|? ? Hy Hl]; subst.
  cbn [filter]. unfold mem in *. cbn [existsb].
  destruct (Js.eqb y x) eqn:E.
  - apply eqb_eq in E. subst y. rewrite eqb_refl. cbn [orb length].
    rewrite (IH Hl). fold (mem x l).
    replace (mem x l) with false; [reflexivity|].
    symmetry. now apply mem_false.
  - replace (Js.eqb x y) with false.
    + cbn [orb]. now apply IH.
    + symmetry. destruct (Js.eqb x y) eqn:E'; [|reflexivity].
      apply eqb_eq in E'. subst. now rewrite eqb_refl in E.
Qed.

(** Two sets have as many elements of the first in the second as of the
    second in the first. *)
Lemma intersection_size_sym A B :
  NoDup A -> NoDup B -> intersection_size A B = intersection_size B A.
Proof.
  unfold intersection_size. intros HA HB.
  induction HA as [|x A Hx HA IH].
  - cbn [filter length]. unfold mem. cbn [existsb].
    now rewrite filter_none.
  - cbn [filter].
    assert (E : length (filter (fun token => mem token (x :: A)) B)
                = (if mem x B then 1 else 0)
                  + length (filter (fun token => mem token A) B)).
    { rewrite <- (filter_one_length x HB).
      rewrite <- filter_split_length.
      - reflexivity.
      - intros y _ Hy1 Hy2. apply eqb_eq in Hy1. subst y.
        apply Hx. now apply mem_In. }
    rewrite E, <- IH. destruct (mem x B); reflexivity.
Qed.

Lemma intersection_size_le A B : intersection_size A B <= length A.
Proof. apply filter_length_le. Qed.

Lemma intersection_size_self A : intersection_size A A = length A.
Proof.
  unfold intersection_size. f_equal.
  apply forallb_filter_id. apply forallb_forall.
  intros x Hx. now apply mem_In.
Qed.

Lemma tokenSetSimilarity_sym a b :
  tokenSetSimilarity a b = tokenSetSimilarity b a.
Proof.
  unfold tokenSetSimilarity. cbv zeta.
  rewrite (orb_comm (Nat.eqb (length (token_set b)) 0)).
  rewrite (intersection_size_sym (token_set_NoDup a) (token_set_NoDup b)).
  now rewrite Nat.max_comm.
Qed.

(** X1.  The similarity of two token sets does not depend on the order of
    the two texts, lies between 0 and 1, and is 1 for a text with a token
    compared with itself. *)
Theorem tokenSetSimilarity_range (a b : jstring) :
  tokenSetSimilarity a b = tokenSetSimilarity b a /\
  Qle 0 (tokenSetSimilarity a b) /\
  Qle (tokenSetSimilarity a b) 1 /\
  (token_set a <> [] -> Qeq (tokenSetSimilarity a a) 1).
Proof.
  split; [apply tokenSetSimilarity_sym|].
  unfold tokenSetSimilarity. cbv zeta.
  destruct (Nat.eqb (length (token_set a)) 0) eqn:Ea; cbn [orb].
  { split; [apply Qle_refl|]. split; [discriminate|].
    apply Nat.eqb_eq in Ea. intros H.
    destruct (token_set a); [easy|discriminate]. }
  apply Nat.eqb_neq in Ea.
  split; [|split].
  - destruct (Nat.eqb (length (token_set b)) 0); [apply Qle_refl|].
    unfold Qle. cbn [Qnum Qden]. lia.
  - destruct (Nat.eqb (length (token_set b)) 0); [discriminate|].
    pose proof (intersection_size_le (token_set a) (token_set b)) as Hle.
    unfold Qle. cbn [Qnum Qden]. rewrite Z.mul_1_r, Z.mul_1_l.
    rewrite <- positive_nat_Z, Nat2Pos.id by lia. lia.
  - intros _. rewrite intersection_size_self, Nat.max_id.
    unfold Qeq. cbn [Qnum Qden]. rewrite Z.mul_1_r, Z.mul_1_l.
    rewrite <- positive_nat_Z, Nat2Pos.id by lia. reflexivity.
Qed.

(** X2.  [isNearDuplicateText] does not depend on the order of its
    arguments, and a text is a near-duplicate of itself exactly when its
    canonical key is not empty: a text made of stop words and punctuation
    only is not even a duplicate of itself. *)
Theorem isNearDuplicateText_symmetric (a b : jstring) :
  isNearDuplicateText a b = isNearDuplicateText b a /\
  isNearDuplicateText a a = truthy (semanticTextKey a).
Proof.
  rewrite !isNearDuplicateText_eq. cbv zeta. split.
  - rewrite (tokenSetSimilarity_sym (semanticTextKey a)).
    rewrite (andb_comm (truthy (semanticTextKey a))).
    now rewrite (orb_comm (includes (semanticTextKey a) _)).
  - destruct (truthy (semanticTextKey a)) eqn:E.
    + rewrite includes_refl. cbn [andb orb]. apply orb_true_r.
    + apply falsy_empty in E. rewrite E. reflexivity.
Qed.

(** ** De-duplicated bullets *)

Lemma distinct_snoc l x :
  distinct_bullets l ->
  existsb (fun existing => isNearDuplicateText existing x) l = false ->
  distinct_bullets (l ++ [x]).
Proof.
  unfold distinct_bullets.
  induction l as [|y l IH]; intros Hl Hx; cbn [app].
  - constructor; constructor.
  - cbn [existsb] in Hx. apply orb_false_iff in Hx as [Hy Hx].
    inversion Hl as [|? ? Hyl Hl']; subst.
    constructor.
    + apply Forall_app. split; [exact Hyl|]. now constructor.
    + now apply IH.
Qed.

Lemma dedupe_from_kept raw out l :
  distinct_bullets out -> Forall (kept_bullet raw) out -> incl l raw ->
  distinct_bullets (dedupe_from out l) /\
  Forall (kept_bullet raw) (dedupe_from out l).
Proof.
  revert out; induction l as [|r l IH]; intros out Hd Hk Hi;
    cbn [dedupe_from]; [now split|].
  assert (Hi' : incl l raw) by (intros x Hx; apply Hi; now right).
  destruct (truthy (sanitizeBullet (VStr r))) eqn:Ht; cbn [negb];
    [|now apply IH].
  destruct (existsb _ out) eqn:Hx; [now apply IH|].
  apply IH; [now apply distinct_snoc| |exact Hi'].
  apply Forall_app. split; [exact Hk|]. constructor; [|constructor].
  split; [exact Ht|]. split; [now apply sanitizeBullet_shape|].
  exists r. split; [apply Hi; now left | reflexivity].
Qed.

(** X3.  [dedupeBullets] keeps sanitized bullets only, each from one of the
    given texts, and none of them is a near-duplicate of a bullet kept before
    it. *)
Theorem dedupeBullets_distinct (bullets : list jstring) :
  distinct_bullets (dedupeBullets bullets) /\
  Forall (kept_bullet bullets) (dedupeBullets bullets).
Proof.
  apply dedupe_from_kept; [constructor | constructor | apply incl_refl].
Qed.

Lemma distinct_before l x rest :
  distinct_bullets (l ++ x :: rest) ->
  existsb (fun existing => isNearDuplicateText existing x) l = false.
Proof.
  unfold distinct_bullets.
  induction l as [|y l IH]; intros H; cbn [app existsb] in *; [reflexivity|].
  inversion H as [|? ? Hy Hl]; subst.
  apply Forall_app in Hy as [_ Hy]. inversion Hy; subst.
  apply orb_false_iff. split; [assumption | now apply IH].
Qed.

Lemma dedupe_from_stable out l :
  distinct_bullets (out ++ l) ->
  Forall (fun b => truthy b = true /\ sanitizeBullet (VStr b) = b) l ->
  dedupe_from out l = out ++ l.
Proof.
  revert out; induction l as [|b l IH]; intros out Hd Hs; cbn [dedupe_from].
  - now rewrite app_nil_r.
  - inversion Hs as [|? ? [Ht Hf] Hs']; subst.
    rewrite Hf, Ht. cbn [negb].
    rewrite (distinct_before _ _ _ Hd).
    rewrite IH; [now rewrite <- app_assoc | now rewrite <- app_assoc | exact Hs'].
Qed.

(** X4.  De-duplicating a de-duplicated list changes nothing, provided none
    of its bullets begins with a bullet or number glyph (which a second
    sanitizing would strip). *)
Theorem dedupeBullets_idempotent (bullets : list jstring) :
  (forall b, In b (dedupeBullets bullets) -> starts_with_glyph b = false) ->
  dedupeBullets (dedupeBullets bullets) = dedupeBullets bullets.
Proof.
  intros Hg.
  destruct (@dedupe_from_kept bullets [] bullets) as [Hd Hk];
    [constructor | constructor | apply incl_refl |].
  fold (dedupeBullets bullets) in Hd, Hk.
  unfold dedupeBullets at 1. rewrite dedupe_from_stable; [reflexivity|exact Hd|].
  apply Forall_forall. intros b Hb.
  rewrite Forall_forall in Hk. destruct (Hk b Hb) as (Ht & Hs & _).
  split; [exact Ht|]. apply sanitizeBullet_fix; auto.
Qed.

Lemma dedupeBullets_idempotent_witness :
  (forall b, In b (dedupeBullets [diffusion_along; diffusion_down; osmosis_water])
             -> starts_with_glyph b = false) /\
  dedupeBullets (dedupeBullets [diffusion_along; diffusion_down; osmosis_water])
  = dedupeBullets [diffusion_along; diffusion_down; osmosis_water].
Proof.
  assert (H : forall b,
             In b (dedupeBullets [diffusion_along; diffusion_down; osmosis_water])
             -> starts_with_glyph b = false).
  { intros b Hb. vm_compute in Hb.
    destruct Hb as [<-|[<-|[]]]; reflexivity. }
  split; [exact H|].
  apply (dedupeBullets_idempotent
           [diffusion_along; diffusion_down; osmosis_water] H).
Defined.

(** ** The merged document *)

Lemma Forall_slice {A} (P : A -> Prop) n l : Forall P l -> Forall P (skipn n l).
Proof.
  intros H. rewrite <- (firstn_skipn n l) in H.
  now apply Forall_app in H as [_ H].
Qed.

Lemma distinct_skipn n l : distinct_bullets l -> distinct_bullets (skipn n l).
Proof.
  unfold distinct_bullets. revert l; induction n as [|n IH]; intros l H.
  - exact H.
  - destruct l as [|x l]; [exact H|]. cbn [skipn]. apply IH.
    now inversion H.
Qed.

Lemma or_else_trimmed a b :
  trimmed_text a ->
  or_else a b = match a with Some _ => a | None => b end.
Proof.
  destruct a as [t|]; cbn [or_else trimmed_text]; [|reflexivity].
  now intros [-> _].
Qed.

Lemma or_else_none a : trimmed_text a -> or_else a None = a.
Proof. intros H. rewrite or_else_trimmed by exact H. now destruct a. Qed.

(** X5.  Whatever the two documents, the merged document is well formed:
    it is a normalised document (trimmed title and identifiers, at most 30
    sections, sanitized headings and bullets), every section has a bullet,
    and no bullet of a section is a near-duplicate of an earlier bullet of
    that section. *)
Theorem enforceCumulativeQuality_well_formed (previous candidate : value) :
  let result := enforceCumulativeQuality previous candidate in
  normalized result /\
  forall s, In s (sections result) ->
    bullets s <> [] /\ distinct_bullets (bullets s).
Proof.
  cbv zeta.
  pose proof (normalize_normalized previous) as Hp.
  pose proof (normalize_normalized candidate) as Hc.
  assert (Hs : forall s,
             In s (sections (enforceCumulativeQuality previous candidate)) ->
             wf_section s /\ bullets s <> [] /\ distinct_bullets (bullets s)).
  { intros s Hs. apply result_section_origin in Hs as (m & _ & -> & Hk).
    unfold keep_section in Hk. apply andb_true_iff in Hk as [Hh Hb].
    cbn [finish_section heading bullets] in *.
    destruct (@dedupe_from_kept (bullets m) [] (bullets m)) as [Hd Hkept];
      [constructor | constructor | apply incl_refl |].
    fold (dedupeBullets (bullets m)) in Hd, Hkept.
    split; [|split].
    - split; [exact Hh|]. split; [now apply sanitizeHeading_shape|].
      unfold slice_last. apply Forall_slice.
      apply Forall_impl with (2 := Hkept). now intros b (? & ? & _).
    - intros E. rewrite E in Hb. discriminate.
    - unfold slice_last. now apply distinct_skipn. }
  split.
  - constructor.
    + unfold enforceCumulativeQuality. cbn [title].
      rewrite or_else_none.
      * rewrite or_else_trimmed by apply Hp.
        destruct (title (normalizeNotesState previous)) eqn:E.
        -- rewrite <- E. apply Hp.
        -- apply Hc.
      * rewrite or_else_trimmed by apply Hp.
        destruct (title (normalizeNotesState previous)) eqn:E.
        -- rewrite <- E. apply Hp.
        -- apply Hc.
    + apply Forall_forall. intros s H. now apply Hs.
    + unfold enforceCumulativeQuality. cbn [sections]. unfold slice_to.
      apply firstn_le_length.
    + unfold enforceCumulativeQuality. cbn [lastUpdatedAt].
      rewrite or_else_trimmed by apply Hc.
      destruct (lastUpdatedAt (normalizeNotesState candidate)) eqn:E.
      * rewrite <- E. apply Hc.
      * apply Hp.
    + unfold enforceCumulativeQuality. cbn [lastChunkId].
      rewrite or_else_trimmed by apply Hc.
      destruct (lastChunkId (normalizeNotesState candidate)) eqn:E.
      * rewrite <- E. apply Hc.
      * apply Hp.
  - intros s H. now apply Hs.
Qed.

(** X6.  The title of the stored document is never replaced by the model:
    the merged document keeps the previous title when there is one, and
    takes the candidate's otherwise; the two identifiers of the last update
    come from the candidate when it has them. *)
Theorem enforceCumulativeQuality_metadata (previous candidate : value) :
  let p := normalizeNotesState previous in
  let c := normalizeNotesState candidate in
  let result := enforceCumulativeQuality previous candidate in
  title result = match title p with Some t => Some t | None => title c end /\
  lastUpdatedAt result
  = match lastUpdatedAt c with Some t => Some t | None => lastUpdatedAt p end /\
  lastChunkId result
  = match lastChunkId c with Some t => Some t | None => lastChunkId p end.
Proof.
  cbv zeta.
  pose proof (normalize_normalized previous) as Hp.
  pose proof (normalize_normalized candidate) as Hc.
  unfold enforceCumulativeQuality. cbn [title lastUpdatedAt lastChunkId].
  rewrite (@or_else_trimmed _ _ (nz_title Hp)).
  rewrite (@or_else_trimmed _ _ (nz_updated Hc)).
  rewrite (@or_else_trimmed _ _ (nz_chunk Hc)).
  split; [|split].
  - destruct (title (normalizeNotesState previous)) eqn:E.
    + apply or_else_none. rewrite <- E. apply Hp.
    + apply or_else_none. apply Hc.
  - now destruct (lastUpdatedAt (normalizeNotesState candidate)).
  - now destruct (lastChunkId (normalizeNotesState candidate)).
Qed.

(** ** Matching a heading *)

Lemma eqb_neq (a b : jstring) : Js.eqb a b = false <-> a <> b.
Proof.
  rewrite <- eqb_eq. destruct (Js.eqb a b); split; congruence.
Qed.

Lemma find_exact_some target sections : forall i k,
  find_exact target i sections = Some k ->
  exists pre s post,
    sections = pre ++ s :: post /\ k = i + length pre /\
    canonicalHeading (heading s) = target /\
    Forall (fun s' => canonicalHeading (heading s') <> target) pre.
Proof.
  induction sections as [|s rest IH]; intros i k H; cbn [find_exact] in H;
    [discriminate|].
  destruct (Js.eqb (canonicalHeading (heading s)) target) eqn:E.
  - injection H as <-. apply eqb_eq in E.
    exists [], s, rest. cbn [app length]. repeat split; auto.
  - apply IH in H as (pre & s' & post & -> & -> & Hs & Hpre).
    exists (s :: pre), s', post. cbn [app length].
    split; [reflexivity|]. split; [lia|]. split; [exact Hs|].
    constructor; [now apply eqb_neq | exact Hpre].
Qed.

Lemma find_exact_none target sections : forall i,
  find_exact target i sections = None ->
  Forall (fun s => canonicalHeading (heading s) <> target) sections.
Proof.
  induction sections as [|s rest IH]; intros i H; cbn [find_exact] in H;
    [constructor|].
  destruct (Js.eqb (canonicalHeading (heading s)) target) eqn:E;
    [discriminate|].
  constructor; [now apply eqb_neq | now apply (IH (S i))].
Qed.

Lemma Qle_bool_false a b : Qle_bool a b = false -> Qlt b a.
Proof.
  intros H. apply Qnot_le_lt. intros Hle.
  apply Qle_bool_iff in Hle. congruence.
Qed.

Lemma find_best_spec target sections : forall i bestIndex bestScore,
  let r := find_best target i sections bestIndex bestScore in
  Qle bestScore (snd r) /\
  Forall (fun s => Qle (heading_score target s) (snd r)) sections /\
  (r = (bestIndex, bestScore) \/
   exists k s,
     fst r = Some (i + k) /\ nth_error sections k = Some s /\
     snd r = heading_score target s).
Proof.
  induction sections as [|s rest IH]; intros i bestIndex bestScore;
    cbn [find_best].
  - cbn [snd]. split; [apply Qle_refl|]. split; [constructor|]. now left.
  - fold (heading_score target s).
    destruct (Qle_bool (heading_score target s) bestScore) eqn:E; cbn [negb].
    + apply Qle_bool_iff in E.
      destruct (IH (S i) bestIndex bestScore) as (H1 & H2 & H3).
      split; [exact H1|]. split.
      * constructor; [|exact H2]. eapply Qle_trans; eassumption.
      * destruct H3 as [H3|(k & s' & Hk & Hn & Hs)]; [now left|].
        right. exists (S k), s'. split; [|split; assumption].
        rewrite Hk. f_equal. lia.
    + apply Qle_bool_false in E.
      destruct (IH (S i) (Some i) (heading_score target s)) as (H1 & H2 & H3).
      split; [|split].
      * eapply Qle_trans; [apply Qlt_le_weak; exact E | exact H1].
      * constructor; assumption.
      * right. destruct H3 as [H3|(k & s' & Hk & Hn & Hs)].
        -- exists 0, s. rewrite H3. cbn [fst snd nth_error].
           split; [f_equal; lia|]. split; reflexivity.
        -- exists (S k), s'. split; [|split; assumption].
           rewrite Hk. f_equal. lia.
Qed.

(** X7.  [findMatchingSectionIndex] returns the first section whose
    canonical heading is that of the given heading; without such a section,
    the section of highest similarity, provided it reaches 0.72; and
    nothing when the canonical heading is empty or no section qualifies. *)
Theorem findMatchingSectionIndex_sound (sections : list Section_)
  (heading_ : jstring) :
  let target := canonicalHeading heading_ in
  match findMatchingSectionIndex sections heading_ with
  | Some i =>
      truthy target = true /\
      exists s,
        nth_error sections i = Some s /\
        ((canonicalHeading (heading s) = target /\
          forall j s', j < i -> nth_error sections j = Some s' ->
                       canonicalHeading (heading s') <> target)
         \/
         (Forall (fun s' => canonicalHeading (heading s') <> target) sections /\
          Qle HEADING_MATCH_THRESHOLD (heading_score target s) /\
          Forall (fun s' => Qle (heading_score target s')
                                (heading_score target s)) sections))
  | None =>
      truthy target = false \/
      Forall (fun s' => canonicalHeading (heading s') <> target /\
                        Qlt (heading_score target s') HEADING_MATCH_THRESHOLD)
             sections
  end.
Proof.
  cbv zeta. unfold findMatchingSectionIndex.
  destruct (truthy (canonicalHeading heading_)) eqn:Ht; cbn [negb];
    [|now left].
  destruct (find_exact (canonicalHeading heading_) 0 sections) as [k|] eqn:Ex.
  - apply find_exact_some in Ex as (pre & s & post & -> & -> & Hs & Hpre).
    split; [reflexivity|]. exists s. split.
    + cbn [Nat.add]. rewrite nth_error_app2 by lia.
      now rewrite Nat.sub_diag.
    + left. split; [exact Hs|]. intros j s' Hj Hn. cbn [Nat.add] in Hj.
      rewrite nth_error_app1 in Hn by exact Hj.
      rewrite Forall_forall in Hpre. apply Hpre.
      eapply nth_error_In; eassumption.
  - apply find_exact_none in Ex.
    pose proof (find_best_spec (canonicalHeading heading_) sections 0 None 0%Q)
      as (H1 & H2 & H3).
    cbv zeta in H1, H2, H3.
    destruct (find_best (canonicalHeading heading_) 0 sections None 0%Q)
      as [bestIndex bestScore].
    cbn [fst snd] in *.
    destruct (Qle_bool HEADING_MATCH_THRESHOLD bestScore) eqn:E.
    + apply Qle_bool_iff in E.
      destruct H3 as [H3|(k & s & Hk & Hn & Hs)].
      * injection H3 as -> ->. exfalso. revert E. now vm_compute.
      * subst bestIndex bestScore. cbn [Nat.add].
        split; [reflexivity|]. exists s. split; [exact Hn|].
        right. split; [exact Ex|]. split; [exact E | exact H2].
    + right. apply Qle_bool_false in E.
      rewrite Forall_forall in *. intros s' Hs'. split; [now apply Ex|].
      eapply Qle_lt_trans; [now apply H2 | exact E].
Qed.

(** ** Headings through the merge *)

Lemma findMatchingSectionIndex_none sections heading_ :
  findMatchingSectionIndex sections heading_ = None ->
  truthy (canonicalHeading heading_) = false \/
  Forall (fun s' =>
            canonicalHeading (heading s') <> canonicalHeading heading_ /\
            Qlt (heading_score (canonicalHeading heading_) s')
                HEADING_MATCH_THRESHOLD)
         sections.
Proof.
  unfold findMatchingSectionIndex.
  destruct (truthy (canonicalHeading heading_)) eqn:Ht; cbn [negb];
    [|now left].
  destruct (find_exact (canonicalHeading heading_) 0 sections) as [k|] eqn:Ex;
    [discriminate|].
  apply find_exact_none in Ex.
  pose proof (find_best_spec (canonicalHeading heading_) sections 0 None 0%Q)
    as (H1 & H2 & H3).
  cbv zeta in H1, H2, H3.
  destruct (find_best (canonicalHeading heading_) 0 sections None 0%Q)
    as [bestIndex bestScore].
  cbn [fst snd] in *.
  destruct (Qle_bool HEADING_MATCH_THRESHOLD bestScore) eqn:E.
  - intros Hnone. exfalso.
    destruct H3 as [H3|(k & s & Hk & _)].
    + injection H3 as -> ->. revert E. now vm_compute.
    + congruence.
  - intros _. right. apply Qle_bool_false in E.
    rewrite Forall_forall in *. intros s' Hs'. split; [now apply Ex|].
    eapply Qle_lt_trans; [now apply H2 | exact E].
Qed.

Lemma set_bullets_headings index bs merged :
  map heading (set_bullets index bs merged) = map heading merged.
Proof.
  revert index; induction merged as [|s rest IH]; intros index;
    [now destruct index|].
  destruct index; cbn [set_bullets map heading]; [reflexivity|].
  now rewrite IH.
Qed.

Lemma merge_incoming_headings merged inc :
  exists added,
    map heading (merge_incoming merged inc) = map heading merged ++ added /\
    fresh_headings (map heading merged) added.
Proof.
  unfold merge_incoming. cbv zeta.
  destruct (negb (truthy (sanitizeHeading (VStr (heading inc))))
            || Nat.eqb (length (dedupeBullets (bullets inc))) 0).
  { exists []. now rewrite app_nil_r. }
  destruct (findMatchingSectionIndex merged
              (sanitizeHeading (VStr (heading inc)))) as [index|] eqn:Hm;
    [|apply findMatchingSectionIndex_none in Hm].
  - exists []. rewrite app_nil_r. split; [|exact I].
    destruct (nth_error merged index); [apply set_bullets_headings|reflexivity].
  - destruct (isUsefulHeading (sanitizeHeading (VStr (heading inc)))) eqn:U.
    + exists [sanitizeHeading (VStr (heading inc))].
      rewrite map_app. split; [reflexivity|].
      cbn [fresh_headings]. split; [|exact I].
      split; [exact U|]. split; [apply sanitizeHeading_idem|].
      destruct Hm as [Hm|Hm].
      * exfalso. unfold isUsefulHeading in U.
        destruct (truthy (sanitizeHeading (VStr (heading inc)))); [|discriminate].
        cbn [negb] in U. rewrite Hm in U. discriminate.
      * apply Forall_forall. intros h Hh.
        apply in_map_iff in Hh as (s & <- & Hs).
        rewrite Forall_forall in Hm. now apply Hm.
    + exists []. now rewrite app_nil_r.
Qed.

Lemma fresh_headings_app before a b :
  fresh_headings before a -> fresh_headings (before ++ a) b ->
  fresh_headings before (a ++ b).
Proof.
  revert before; induction a as [|h a IH]; intros before Ha Hb; cbn [app].
  - now rewrite app_nil_r in Hb.
  - destruct Ha as [Hh Ha]. split; [exact Hh|].
    apply IH; [exact Ha|]. now rewrite <- app_assoc.
Qed.

Lemma fold_merge_headings incs : forall merged,
  exists added,
    map heading (fold_left merge_incoming incs merged)
    = map heading merged ++ added /\
    fresh_headings (map heading merged) added.
Proof.
  induction incs as [|inc incs IH]; intros merged; cbn [fold_left].
  - exists []. now rewrite app_nil_r.
  - destruct (merge_incoming_headings merged inc) as (a & Ea & Ha).
    destruct (IH (merge_incoming merged inc)) as (b & Eb & Hb).
    exists (a ++ b). rewrite Eb, Ea, <- app_assoc. split; [reflexivity|].
    apply fresh_headings_app; [exact Ha|]. now rewrite <- Ea.
Qed.

(** X8.  The merge keeps the headings of the previous sections, in their
    order, and appends the headings it adds.  An added heading is sanitized,
    is not a placeholder ([isUsefulHeading]), and its canonical form is that
    of no heading before it: the merge never opens a second section for a
    heading it could match exactly. *)
Theorem merged_sections_headings (previous candidate : NotesState) :
  exists added,
    map heading (merged_sections previous candidate)
    = map heading (sections previous) ++ added /\
    fresh_headings (map heading (sections previous)) added.
Proof.
  unfold merged_sections.
  destruct (fold_merge_headings (sections candidate)
              (initial_sections previous)) as (added & E & H).
  assert (Ei : map heading (initial_sections previous)
               = map heading (sections previous)).
  { unfold initial_sections. rewrite map_map. reflexivity. }
  rewrite Ei in E, H. now exists added.
Qed.

(** ** Normalised documents *)

(** X9.  Whatever value it is given, [normalizeNotesState] returns a
    document of at most 30 sections in which every heading has at least 3
    units and is left as it is by [sanitizeHeading], and every bullet has at
    least 8 units, has its white space collapsed and trimmed, and holds none
    of the banned phrases. *)
Theorem normalizeNotesState_well_formed (input : value) :
  let n := normalizeNotesState input in
  length (sections n) <= MAX_SECTIONS /\
  forall s, In s (sections n) ->
    3 <= length (heading s) /\
    sanitizeHeading (VStr (heading s)) = heading s /\
    forall b, In b (bullets s) ->
      8 <= length b /\
      trim (collapse_ws b) = b /\
      search BANNED_NOTE_CONTENT_RE b = false.
Proof.
  cbv zeta. destruct (normalize_normalized input) as [_ Hs Hc _ _].
  split; [exact Hc|]. intros s Hin.
  rewrite Forall_forall in Hs. destruct (Hs s Hin) as (Ht & Hh & Hb).
  split; [|split].
  - destruct Hh as [_ _ _ Hl]. apply Nat.ltb_ge in Hl. exact Hl.
  - now apply sanitizeHeading_fix.
  - intros b Hbin. rewrite Forall_forall in Hb.
    destruct (Hb b Hbin) as (_ & [B1 B2 B3 B4 B5]).
    split; [now apply Nat.ltb_ge in B5|]. split; [|exact B4].
    unfold collapse_ws. rewrite collapse_fix by exact B1. now apply trim_fix.
Qed.

End NotesQuality.

(* ================================================================== *)
(** * More about the service worker *)
(* ================================================================== *)

Module WorkerMore.

Import Notes Worker Models Service Quality JsFacts NotesFacts NotesQuality
       WorkerFacts.

(** ** The rate limiter *)


Section Parsing.

Variable JSON_parse : jstring -> option value.

(** ** The calls of a task *)

Lemma kinds_between_refl w : kinds_between w w [].
Proof. exists []. now rewrite app_nil_r. Qed.

Lemma kinds_between_trans w1 w2 w3 a b :
  kinds_between w1 w2 a -> kinds_between w2 w3 b ->
  kinds_between w1 w3 (a ++ b).
Proof.
  intros (ca & Ea & Ka) (cb & Eb & Kb). exists (ca ++ cb).
  rewrite Eb, Ea, app_assoc, map_app, Ka, Kb. now split.
Qed.

Lemma kinds_between_call kind p answer w :
  kinds_between w (snd (callModelText kind p answer w)) [kind].
Proof.
  unfold callModelText, await.
  destruct (outcome answer); world;
    (eexists; split; [reflexivity|reflexivity]).
Qed.

Lemma call_result kind p answer w :
  fst (callModelText kind p answer w) = outcome answer.
Proof. unfold callModelText, await. now destruct (outcome answer). Qed.

(** X11.  [parseAndValidateNotesJson] asks the model for a repair at most
    once.  A reply that parses to a truthy value is taken as it is, with no
    call; otherwise exactly one repair call is made, and the function throws
    when that call fails or its reply does not parse to a truthy value
    either. *)
Theorem parseAndValidateNotesJson_repairs_once
  (env : TaskEnv) (p : Provider) (rawText : jstring) (w : World) :
  let r := fst (parseAndValidateNotesJson JSON_parse env p rawText w) in
  let w' := snd (parseAndValidateNotesJson JSON_parse env p rawText w) in
  if js_truthy (tryParseJson JSON_parse rawText) then
    r = Returns (normalizeNotesState (tryParseJson JSON_parse rawText)) /\
    w' = w
  else
    kinds_between w w' [REPAIR] /\
    match outcome (repaired env) with
    | Returns repairedText =>
        if js_truthy (tryParseJson JSON_parse repairedText)
        then r = Returns (normalizeNotesState
                            (tryParseJson JSON_parse repairedText))
        else r = Throws (lit "Model output could not be parsed as valid JSON.")
    | Throws e => r = Throws e
    end.
Proof.
  cbv zeta. unfold parseAndValidateNotesJson.
  destruct (js_truthy (tryParseJson JSON_parse rawText)); [now split|].
  unfold bind.
  pose proof (kinds_between_call REPAIR p (repaired env) w) as Hk.
  pose proof (call_result REPAIR p (repaired env) w) as Hr.
  destruct (callModelText REPAIR p (repaired env) w) as [r1 w1].
  cbn [fst snd] in *. subst r1.
  destruct (outcome (repaired env)) as [repairedText|e]; cbn [fst snd].
  - destruct (js_truthy (tryParseJson JSON_parse repairedText)); cbn [negb];
      unfold throw, ret; cbn [fst snd]; (split; [|reflexivity]).
    + exact Hk.
    + destruct Hk as (calls & E & K). exists calls. world. now split.
  - now split.
Qed.

Lemma repair_kinds env p rawText w :
  kinds_between w (snd (parseAndValidateNotesJson JSON_parse env p rawText w))
                (if js_truthy (tryParseJson JSON_parse rawText)
                 then [] else [REPAIR]).
Proof.
  unfold parseAndValidateNotesJson.
  destruct (js_truthy (tryParseJson JSON_parse rawText));
    [apply kinds_between_refl|].
  unfold bind.
  pose proof (kinds_between_call REPAIR p (repaired env) w) as Hk.
  destruct (callModelText REPAIR p (repaired env) w) as [[repairedText|e] w1];
    cbn [snd] in *; [|exact Hk].
  destruct (negb (js_truthy (tryParseJson JSON_parse repairedText)));
    unfold throw, ret; cbn [snd]; [|exact Hk].
  destruct Hk as (calls & E & K). exists calls. world. now split.
Qed.

(** The kinds of calls a task can make, in the order it makes them. *)
Lemma updateNotesWithLLM_kinds env notes chunk p w :
  exists kinds rest,
    kinds_between w (snd (updateNotesWithLLM JSON_parse env notes chunk p w))
                  kinds /\
    kinds ++ rest = [CLEAN; MERGE; REPAIR] /\ kinds <> [].
Proof.
  unfold updateNotesWithLLM, bind.
  pose proof (kinds_between_call CLEAN p (cleaned env) w) as H1.
  destruct (callModelText CLEAN p (cleaned env) w) as [[cleanedRaw|e] w1];
    cbn [snd] in *.
  2:{ exists [CLEAN], [MERGE; REPAIR]. now repeat split. }
  destruct (negb (truthy (trim (tightenCleanTranscript cleanedRaw)))).
  { exists [CLEAN], [MERGE; REPAIR]. now repeat split. }
  pose proof (kinds_between_call MERGE p (merged env) w1) as H2.
  destruct (callModelText MERGE p (merged env) w1) as [[mergedRaw|e] w2];
    cbn [snd] in *.
  2:{ exists [CLEAN; MERGE], [REPAIR].
      split; [apply (kinds_between_trans H1 H2)|now split]. }
  pose proof (repair_kinds env p mergedRaw w2) as H3.
  destruct (parseAndValidateNotesJson JSON_parse env p mergedRaw w2)
    as [r3 w3]. cbn [snd] in *.
  destruct (js_truthy (tryParseJson JSON_parse mergedRaw)).
  - exists [CLEAN; MERGE], [REPAIR]. split; [|now split].
    replace [CLEAN; MERGE] with (([CLEAN] ++ [MERGE]) ++ []) by reflexivity.
    destruct r3; cbn [snd];
      apply (kinds_between_trans (kinds_between_trans H1 H2) H3).
  - exists [CLEAN; MERGE; REPAIR], []. split; [|now split].
    destruct r3; cbn [snd];
      apply (kinds_between_trans (kinds_between_trans H1 H2) H3).
Qed.

End Parsing.

(** ** What the queue leaves alone *)











Section Parsing.

Variable JSON_parse : jstring -> option value.








(** The calls of one task. *)
Lemma kinds_between_frame w0 w1 w w' kinds :
  kinds_between w0 w1 kinds ->
  modelCalls w0 = modelCalls w -> modelCalls w' = modelCalls w1 ->
  kinds_between w w' kinds.
Proof.
  intros (calls & E & K) E0 E1. exists calls. split; congruence.
Qed.

Lemma update_notes_kinds env notes c p w :
  exists kinds rest,
    kinds_between w (snd (update_notes JSON_parse env notes c p w)) kinds /\
    kinds ++ rest = [CLEAN; MERGE; REPAIR].
Proof.
  unfold update_notes. unfold bind at 1. unfold await.
  destruct (outcome (resolved env)) as [model|e]; world.
  2:{ exists [], [CLEAN; MERGE; REPAIR]. split; [|reflexivity].
      eapply kinds_between_frame; [apply kinds_between_refl| |]; reflexivity. }
  set (w0 := set_now _ w). unfold bind at 1.
  destruct (updateNotesWithLLM_kinds JSON_parse env notes c p w0)
    as (kinds & rest & Hk & E & _).
  exists kinds, rest. split; [|exact E].
  destruct (updateNotesWithLLM JSON_parse env notes c p w0)
    as [[updatedNotes|e] w1]; cbn [snd] in *.
  2:{ eapply kinds_between_frame; [exact Hk| |]; reflexivity. }
  unfold updateNotesState, bind, await, write, broadcastToSidePanel, write.
  destruct (outcome (stored env)); world;
    (eapply kinds_between_frame; [exact Hk| |]; reflexivity).
Qed.

(** X13.  A chunk task makes at most three model calls, in this order: the
    cleaning of the captions, the merge, one repair of the merge reply; a
    task that stops before the rate limiter makes none. *)
Theorem chunk_task_calls
  (env : TaskEnv) (chunk : option Capture.Finalized.t) (tail : jstring)
  (w : World) :
  let w' := snd (handleFinalizeChunk JSON_parse env chunk tail w) in
  exists kinds rest,
    kinds_between w w' kinds /\
    kinds ++ rest = [CLEAN; MERGE; REPAIR] /\
    (ready env chunk w = None -> kinds = []).
Proof.
  cbv zeta.
  destruct (ready env chunk w) as [[[c notes] p]|] eqn:Hready.
  - rewrite (@handleFinalizeChunk_ready JSON_parse _ _ tail _ _ _ _ Hready).
    unfold model_work. unfold bind at 1.
    destruct (waitForRateLimit_spec env (ready_world env chunk w))
      as [Hr [_ _ _ _ _ _ _ _ _ Hcalls _]].
    destruct (waitForRateLimit env (ready_world env chunk w)) as [r0 w0].
    cbn [fst snd] in *. subst r0. unfold try_catch.
    destruct (update_notes_kinds env notes c p w0) as (kinds & rest & Hk & E).
    exists kinds, rest. split; [|split; [exact E|discriminate]].
    unfold ready_world in Hcalls. world.
    destruct (update_notes JSON_parse env notes c p w0) as [[a|e] w1];
      cbn [snd] in *.
    + eapply kinds_between_frame; [exact Hk|exact Hcalls|reflexivity].
    + unfold bind, console_error, broadcastToSidePanel, write. world.
      eapply kinds_between_frame; [exact Hk|exact Hcalls|reflexivity].
  - pose proof (@handleFinalizeChunk_not_ready JSON_parse env chunk tail w
                  Hready) as H.
    cbv zeta in H. destruct H as (_ & _ & _ & Hc & _).
    exists [], [CLEAN; MERGE; REPAIR]. split; [|now split].
    exists []. now rewrite app_nil_r.
Qed.

End Parsing.

(** ** Settings *)

Lemma or_str_trimmed a b : trim a = a -> trim b = b -> trim (or_str a b) = or_str a b.
Proof. unfold or_str. now destruct (truthy a). Qed.

Lemma trimmed_string_trimmed v : trim (trimmed_string v) = trimmed_string v.
Proof. destruct v; try reflexivity. apply trim_idem. Qed.

Lemma getStoredKey_trimmed stored p :
  trim (getStoredKey stored p) = getStoredKey stored p.
Proof.
  unfold getStoredKey. destruct (js_truthy _); [|reflexivity].
  apply trimmed_string_trimmed.
Qed.

Lemma normalizeModelName_trimmed v :
  trim (normalizeModelName v) = normalizeModelName v.
Proof.
  destruct v; try reflexivity. cbn [normalizeModelName].
  destruct (negb (truthy s)); [reflexivity|]. apply trim_idem.
Qed.

Lemma getStoredModel_trimmed stored p :
  trim (getStoredModel stored p) = getStoredModel stored p.
Proof.
  unfold getStoredModel. destruct (js_truthy _); [|reflexivity].
  destruct (get _ _); try reflexivity. apply normalizeModelName_trimmed.
Qed.

Lemma settings_keys stored globals p :
  keys (settings_of stored globals) p
  = or_str (kept_key (stored_settings stored) p) (trimmed_string (globals p)).
Proof. now destruct p. Qed.

Lemma settings_models stored globals p :
  models (settings_of stored globals) p = kept_model (stored_settings stored) p.
Proof. now destruct p. Qed.

Lemma kept_key_trimmed stored p : trim (kept_key stored p) = kept_key stored p.
Proof.
  destruct p; cbn [kept_key]; try apply getStoredKey_trimmed.
  apply or_str_trimmed; [apply getStoredKey_trimmed|apply trimmed_string_trimmed].
Qed.

Lemma keys_trimmed stored globals p :
  trim (keys (settings_of stored globals) p) = keys (settings_of stored globals) p.
Proof.
  rewrite settings_keys.
  apply or_str_trimmed; [apply kept_key_trimmed|apply trimmed_string_trimmed].
Qed.

Lemma default_model_shape p :
  truthy (lit (DEFAULT_MODELS p)) = true /\
  trim (lit (DEFAULT_MODELS p)) = lit (DEFAULT_MODELS p) /\
  startsWith (lit (DEFAULT_MODELS p)) (lit "models/") = false.
Proof. destruct p; vm_compute; auto. Qed.

Lemma kept_model_shape stored p :
  truthy (kept_model stored p) = true /\
  trim (kept_model stored p) = kept_model stored p.
Proof.
  destruct (default_model_shape p) as (Hd & Ht & _).
  assert (H : forall a, trim a = a ->
            truthy (or_str a (lit (DEFAULT_MODELS p))) = true /\
            trim (or_str a (lit (DEFAULT_MODELS p)))
            = or_str a (lit (DEFAULT_MODELS p))).
  { intros a Ha. unfold or_str. destruct (truthy a) eqn:E; auto. }
  destruct p; cbn [kept_model]; apply H;
    try apply getStoredModel_trimmed.
  apply or_str_trimmed;
    [apply getStoredModel_trimmed | apply normalizeModelName_trimmed].
Qed.

(** X14.  The settings [getAiSettings] builds always name a model for every
    provider, and their keys are trimmed; so the view sent to the side panel
    always has an active model, and reports a key as configured exactly when
    a chunk task would find one. *)
Theorem settings_view_consistent
  (stored : value) (globals : Provider -> value) (p : Provider) :
  let settings := settings_of stored globals in
  let view := buildAiSettingsView settings in
  truthy (models settings p) = true /\
  activeModel view = Some (models settings (provider settings)) /\
  keyConfigured view p = truthy (getProviderApiKey settings p).
Proof.
  cbv zeta. rewrite !settings_models.
  split; [apply kept_model_shape|]. split.
  - unfold buildAiSettingsView. cbn [activeModel].
    rewrite settings_models.
    now destruct (kept_model_shape (stored_settings stored)
                    (provider (settings_of stored globals))) as [-> _].
  - unfold buildAiSettingsView, getProviderApiKey. cbn [keyConfigured].
    now rewrite keys_trimmed.
Qed.

(** Reading the stored object back. *)
Lemma next_settings_truthy stored message :
  stored_settings (next_settings stored message) = next_settings stored message.
Proof. reflexivity. Qed.

Lemma per_provider_read f p :
  trimmed_string (get (per_provider f) (provider_name p)) = trim (f p).
Proof. now destruct p. Qed.

Lemma next_key_eq stored message p :
  next_key stored message p
  = or_str (submitted_key message p) (kept_key stored p).
Proof.
  unfold next_key, submitted_key. cbv zeta.
  destruct (js_truthy (get message "keys") && is_object (get message "keys"));
    [|reflexivity].
  destruct (get (get message "keys") (provider_name p)); reflexivity.
Qed.

Lemma submitted_key_trimmed message p :
  trim (submitted_key message p) = submitted_key message p.
Proof.
  unfold submitted_key. cbv zeta. destruct (_ && _); [|reflexivity].
  apply trimmed_string_trimmed.
Qed.

Lemma or_str_assoc a b c : or_str (or_str a b) c = or_str a (or_str b c).
Proof. unfold or_str. destruct (truthy a) eqn:E; [now rewrite E|reflexivity]. Qed.

Lemma or_str_empty a : or_str a [] = a.
Proof. unfold or_str. now destruct a. Qed.

Lemma saved_keys stored message globals p :
  keys (settings_of (next_settings stored message) globals) p
  = or_str (submitted_key message p) (keys (settings_of stored globals) p).
Proof.
  rewrite !settings_keys, next_settings_truthy, <- or_str_assoc,
    <- next_key_eq.
  f_equal.
  assert (E : getStoredKey (next_settings stored message) p
              = next_key (stored_settings stored) message p).
  { unfold getStoredKey, next_settings. 
    change (and_get (VObj _) "keys")
      with (per_provider (next_key (stored_settings stored) message)).
    cbn [js_truthy per_provider]. 
    change (VObj _) with (per_provider (next_key (stored_settings stored) message)).
    rewrite per_provider_read, next_key_eq.
    apply or_str_trimmed; [apply submitted_key_trimmed|apply kept_key_trimmed]. }
  destruct p; cbn [kept_key]; rewrite E; try reflexivity.
  change (trimmed_string (get (next_settings stored message) "apiKey"))
    with (@nil char).
  apply or_str_empty.
Qed.

Lemma normalizeModelName_plain s :
  truthy s = true -> trim s = s -> startsWith s (lit "models/") = false ->
  normalizeModelName (VStr s) = s.
Proof.
  intros Ht Hs Hp. cbn [normalizeModelName]. now rewrite Ht, Hp.
Qed.

Lemma saved_models stored message globals p :
  startsWith (models (settings_of stored globals) p) (lit "models/") = false ->
  models (settings_of (next_settings stored message) globals) p
  = models (settings_of stored globals) p.
Proof.
  rewrite !settings_models, next_settings_truthy. intros Hp.
  destruct (kept_model_shape (stored_settings stored) p) as [Ht Hs].
  assert (E : getStoredModel (next_settings stored message) p
              = kept_model (stored_settings stored) p).
  { unfold getStoredModel, next_settings.
    change (and_get (VObj _) "models")
      with (per_provider (kept_model (stored_settings stored))).
    cbn [js_truthy per_provider].
    change (VObj _) with (per_provider (kept_model (stored_settings stored))).
    replace (get (per_provider (kept_model (stored_settings stored)))
                 (provider_name p))
      with (VStr (kept_model (stored_settings stored) p)) by now destruct p.
    now apply normalizeModelName_plain. }
  assert (Ho : forall b, or_str (kept_model (stored_settings stored) p) b
                         = kept_model (stored_settings stored) p).
  { intros b. unfold or_str at 1. now rewrite Ht. }
  destruct p; unfold kept_model at 1; rewrite E, ?or_str_assoc; apply Ho.
Qed.

Lemma saved_provider stored message globals :
  provider (settings_of (next_settings stored message) globals)
  = next_provider (stored_settings stored) message.
Proof.
  change (provider (settings_of (next_settings stored message) globals))
    with (match valid_provider
                  (VStr (lit (provider_name
                                (next_provider (stored_settings stored)
                                               message)))) with
          | Some p => p
          | None => DEFAULT_PROVIDER
          end).
  now destruct (next_provider (stored_settings stored) message).
Qed.

(** X15.  When the storage answers, [saveAiSettings] stores an object from
    which [getAiSettings] reads back: the flag of the message; the provider
    of the message, or the stored one when the message names none; for each
    provider the trimmed key of the message, or the key in force before when
    the message has none or a blank one (no message removes a key); and the
    model in force before, for a model name that does not begin with
    [models/]. *)
Theorem saveAiSettings_read_back
  (firstRead written : Await unit) (env : TaskEnv) (message : value)
  (w : World) :
  outcome firstRead = Returns tt ->
  outcome written = Returns tt ->
  outcome (settingsRead env) = Returns tt ->
  let before := settings_of (aiSettings w) (envKeys w) in
  let r := fst (saveAiSettings firstRead written env message w) in
  let w' := snd (saveAiSettings firstRead written env message w) in
  exists after,
    r = Returns after /\
    after = settings_of (aiSettings w') (envKeys w') /\
    aiSettings w' = next_settings (aiSettings w) message /\
    aiNotesEnabled after = js_truthy (get message "aiNotesEnabled") /\
    provider after = next_provider (stored_settings (aiSettings w)) message /\
    forall p,
      keys after p = or_str (submitted_key message p) (keys before p) /\
      (startsWith (models before p) (lit "models/") = false ->
       models after p = models before p).
Proof.
  intros H1 H2 H3. cbv zeta.
  unfold saveAiSettings, getAiSettings, bind, await, read, write.
  rewrite H1, H2, H3. world.
  eexists. split; [reflexivity|]. split; [reflexivity|].
  split; [reflexivity|]. split; [reflexivity|].
  split; [apply saved_provider|]. intros p.
  split; [apply saved_keys | apply saved_models].
Qed.

Lemma saveAiSettings_read_back_witness :
  let r := fst (saveAiSettings (at_once tt) (at_once tt) sample_env
                               save_message enabled_world) in
  exists after,
    r = Returns after /\
    provider after = OPENAI /\
    keys after OPENAI = lit "sk-new" /\
    keys after GEMINI = lit "sk-test".
Proof.
  destruct (@saveAiSettings_read_back (at_once tt) (at_once tt) sample_env
              save_message enabled_world eq_refl eq_refl eq_refl)
    as (after & Hr & _ & _ & _ & Hp & Hk).
  exists after. split; [exact Hr|]. split; [exact Hp|].
  split; [apply (Hk OPENAI) | apply (Hk GEMINI)].
Defined.

(** ** Notes saved by hand *)

(** X16.  A manual save that the storage accepts stores the normalised
    notes stamped with the time of the save, broadcasts them and returns
    them; what [getNotesState] then reads is what was broadcast, provided no
    bullet of the normalised notes begins with a bullet or number glyph.  A
    save that the storage rejects throws, stores nothing and broadcasts
    nothing. *)
Theorem saveManualNotesState_read_back
  (env : TaskEnv) (notes : value) (w : World) :
  glyph_free (normalizeNotesState notes) = true ->
  truthy (isoNow env) = true -> trim (isoNow env) = isoNow env ->
  let saved :=
    mkNotes (title (normalizeNotesState notes))
            (sections (normalizeNotesState notes))
            (Some (isoNow env))
            (lastChunkId (normalizeNotesState notes)) in
  let r := fst (saveManualNotesState env notes w) in
  let w' := snd (saveManualNotesState env notes w) in
  match outcome (stored env) with
  | Returns _ =>
      r = Returns saved /\
      normalizeNotesState (notesState w') = saved /\
      sidePanel w' = sidePanel w ++ [NOTES_UPDATE saved]
  | Throws e =>
      r = Throws e /\ notesState w' = notesState w /\ sidePanel w' = sidePanel w
  end.
Proof.
  intros Hg Ht Hs. cbv zeta.
  unfold saveManualNotesState, updateNotesState, broadcastToSidePanel,
    bind, await, write, ret.
  destruct (outcome (stored env)) as [[]|e]; world; [|now repeat split].
  pose proof (normalize_normalized notes) as [N1 N2 N3 N4 N5].
  set (saved := mkNotes _ _ _ _).
  assert (E : normalizeNotesState (value_of_notes saved) = saved).
  { apply normalize_fix.
    - constructor; cbn [title sections lastUpdatedAt lastChunkId saved];
        try assumption. now split.
    - apply (glyph_free_spec (normalizeNotesState notes) Hg). }
  split; [reflexivity|]. split; [|reflexivity].
  now rewrite E, E.
Qed.

Lemma saveManualNotesState_read_back_witness :
  let w' := snd (saveManualNotesState sample_env untidy_input enabled_world) in
  map heading (sections (normalizeNotesState (notesState w')))
  = [lit "Membrane Transport"] /\
  lastUpdatedAt (normalizeNotesState (notesState w'))
  = Some (lit "2026-01-01T00:00:00.000Z").
Proof.
  pose proof (@saveManualNotesState_read_back sample_env untidy_input
                enabled_world eq_refl eq_refl eq_refl) as H.
  cbv zeta in H. cbn [outcome sample_env stored at_once] in H.
  destruct H as (_ & H & _). cbv zeta. rewrite H. split; reflexivity.
Defined.

(** ** The choice of a model *)

Lemma find_some_first {A} (f : A -> bool) l x :
  find f l = Some x ->
  exists pre post, l = pre ++ x :: post /\ f x = true /\
                   Forall (fun y => f y = false) pre.
Proof.
  induction l as [|y l IH]; cbn [find]; [discriminate|].
  destruct (f y) eqn:E.
  - intros [= ->]. exists [], l. now repeat split.
  - intros H. destruct (IH H) as (pre & post & -> & Hx & Hp).
    exists (y :: pre), post. repeat split; auto.
Qed.

Lemma find_none_all {A} (f : A -> bool) l :
  find f l = None -> Forall (fun y => f y = false) l.
Proof.
  induction l as [|y l IH]; cbn [find]; [constructor|].
  destruct (f y) eqn:E; [discriminate|]. intros H. constructor; auto.
Qed.

Lemma normalized_names_truthy available name :
  In name (normalized_names available) -> truthy name = true.
Proof. unfold normalized_names. intros H. now apply filter_In in H. Qed.

(** X17.  [pickModel] returns a model of the list whenever the list names
    one, and the default only when it names none.  It prefers the requested
    model when the list has it, then the first model of the preference order
    that the list has, then the first model of the list.  With a non-empty
    default it never returns the empty name. *)
Theorem pickModel_choice
  (available : list jstring) (requested : jstring)
  (preferredOrder : list jstring) (fallbackDefault : jstring) :
  let normalized := normalized_names available in
  let requestedNorm := normalizeModelName (VStr requested) in
  let picked := pickModel available requested preferredOrder fallbackDefault in
  (In picked normalized \/ (normalized = [] /\ picked = fallbackDefault)) /\
  (truthy fallbackDefault = true -> truthy picked = true) /\
  (In requestedNorm normalized -> picked = requestedNorm) /\
  (~ In requestedNorm normalized ->
   forall pre preferred post,
     preferredOrder = pre ++ preferred :: post ->
     In preferred normalized ->
     (forall other, In other pre -> ~ In other normalized) ->
     picked = preferred) /\
  (~ In requestedNorm normalized ->
   (forall other, In other preferredOrder -> ~ In other normalized) ->
   picked = hd fallbackDefault normalized).
Proof.
  cbv zeta.
  match goal with |- ?A /\ ?B /\ ?C =>
    assert (H : A /\ C); [|split; [apply H|split; [|apply H]]] end.
  2:{ destruct H as [[H|[_ ->]] _]; [|easy].
      intros _. now apply normalized_names_truthy in H. }
  unfold pickModel. cbv zeta.
  set (normalized := normalized_names available).
  set (requestedNorm := normalizeModelName (VStr requested)).
  destruct (truthy requestedNorm && mem requestedNorm normalized) eqn:E.
  { apply andb_true_iff in E as [_ E]. apply mem_In in E.
    split; [now left|]. split; [reflexivity|]. split; intros H; now elim H. }
  assert (Hreq : ~ In requestedNorm normalized).
  { intros H. apply andb_false_iff in E as [E|E].
    - apply normalized_names_truthy in H. congruence.
    - apply mem_In in H. congruence. }
  destruct (find (fun preferred => mem preferred normalized) preferredOrder)
    as [preferred|] eqn:F.
  - apply find_some_first in F as (pre & post & -> & Hp & Hpre).
    apply mem_In in Hp.
    split; [now left|]. split; [intros H; now elim Hreq|]. split.
    + intros _ pre' preferred' post' Eq Hin Hbefore.
      rewrite Forall_forall in Hpre.
      assert (Hnot : forall other, In other pre -> ~ In other normalized).
      { intros other Ho. apply mem_false. now apply Hpre. }
      clear Hpre. revert pre' Eq Hbefore.
      induction pre as [|x pre IH]; intros pre' Eq Hbefore.
      * destruct pre' as [|y pre']; cbn [app] in Eq.
        -- now injection Eq.
        -- injection Eq as Ex _. exfalso.
           apply (Hbefore preferred); [left; now symmetry | exact Hp].
      * destruct pre' as [|y pre']; cbn [app] in Eq.
        -- injection Eq as Ex _. exfalso.
           apply (Hnot preferred'); [now left | exact Hin].
        -- injection Eq as Ex Eq.
           apply (IH (fun o Ho => Hnot o (or_intror Ho)) pre' Eq).
           intros o Ho. apply Hbefore. now right.
    + intros _ Hnone. exfalso.
      apply (Hnone preferred); [|exact Hp].
      apply in_or_app. right. now left.
  - apply find_none_all in F. rewrite Forall_forall in F.
    split.
    { destruct normalized as [|first rest]; [now right | left; now left]. }
    split; [intros H; now elim Hreq|]. split.
    + intros _ pre preferred post -> Hin _. exfalso.
      assert (H : mem preferred normalized = false).
      { apply F. apply in_or_app. right. now left. }
      apply mem_false in H. now apply H.
    + intros _ _. now destruct normalized.
Qed.

(** ** Code fences around a reply *)

Lemma dropWhile_all p (ws rest : jstring) :
  forallb p ws = true -> dropWhile p (ws ++ rest) = dropWhile p rest.
Proof.
  induction ws as [|c ws IH]; cbn [forallb app dropWhile]; [reflexivity|].
  intros H. apply andb_true_iff in H as [-> H]. now apply IH.
Qed.

Lemma forallb_rev_true {A} (f : A -> bool) l :
  forallb f l = true -> forallb f (rev l) = true.
Proof.
  rewrite !forallb_forall. intros H x Hx. apply H. now apply in_rev.
Qed.

Lemma startsWith_app (p rest : jstring) : startsWith (p ++ rest) p = true.
Proof.
  induction p as [|c p IH]; cbn [app startsWith]; [now destruct rest|].
  now rewrite N.eqb_refl.
Qed.

Lemma startsWith_head (s p : jstring) c :
  head_not (fun x => N.eqb x c) s = true -> startsWith s (c :: p) = false.
Proof.
  destruct s as [|x s]; cbn [head_not startsWith]; [reflexivity|].
  intros H. apply negb_true_iff in H. now rewrite H.
Qed.

Lemma fold_backtick c : N.eqb (ascii_fold c) 96 = N.eqb c 96.
Proof.
  unfold ascii_fold, is_upper, char_in.
  destruct (N.leb 65 c) eqn:E1; cbn [andb]; [|reflexivity].
  destruct (N.leb c 90) eqn:E2; [|reflexivity].
  apply N.leb_le in E1, E2.
  destruct (N.eqb_spec (c + 32) 96), (N.eqb_spec c 96); try reflexivity; lia.
Qed.

Lemma match_here_lit (l w rest : jstring) k :
  map ascii_fold w = l ->
  match_here (map PLit l) k (w ++ rest) = k rest.
Proof.
  revert w; induction l as [|c l IH]; intros w E.
  - destruct w; [reflexivity|discriminate].
  - destruct w as [|x w]; [discriminate|]. injection E as Ex E.
    cbn [map match_here app]. unfold unit_matches.
    now rewrite Ex, N.eqb_refl, IH.
Qed.

Lemma trimmed_ends (body : jstring) :
  trim body = body ->
  head_not is_space body = true /\ head_not is_space (rev body) = true.
Proof.
  intros E. split; rewrite <- E; [apply trim_head | apply trim_last].
Qed.

(** The text between the fences, once the opening fence is gone. *)
Lemma strip_closing_fence (ws1 body ws2 : jstring) :
  forallb is_space ws1 = true -> forallb is_space ws2 = true ->
  body <> [] -> trim body = body ->
  head_not is_backtick body = true ->
  let s := dropWhile is_space (ws1 ++ body ++ ws2 ++ FENCE) in
  s = body ++ ws2 ++ FENCE /\
  startsWith s FENCE = false /\
  ends_with s FENCE = true /\
  dropEndWhile is_space (firstn (length s - 3) s) = body.
Proof.
  intros H1 H2 Hne Ht Hb. cbv zeta.
  destruct (@trimmed_ends body Ht) as [Hh Hl].
  assert (E : dropWhile is_space (ws1 ++ body ++ ws2 ++ FENCE)
              = body ++ ws2 ++ FENCE).
  { rewrite dropWhile_all by exact H1. apply dropWhile_fix.
    destruct body; [congruence | exact Hh]. }
  rewrite E. split; [reflexivity|]. split; [|split].
  - apply startsWith_head. destruct body; [congruence | exact Hb].
  - unfold ends_with. rewrite !rev_app_distr, <- app_assoc.
    apply startsWith_app.
  - rewrite !app_assoc, length_app. change (length FENCE) with 3.
    rewrite Nat.add_sub, firstn_app, Nat.sub_diag, firstn_all.
    cbn [firstn]. rewrite app_nil_r.
    unfold dropEndWhile. rewrite rev_app_distr.
    rewrite dropWhile_all by now apply forallb_rev_true.
    rewrite dropWhile_fix by exact Hl. apply rev_involutive.
Qed.

Lemma strip_fences_plain (body : jstring) :
  trim body = body ->
  head_not is_backtick body = true ->
  head_not is_backtick (rev body) = true ->
  strip_fences body = body.
Proof.
  intros Ht Hb Hl. unfold strip_fences. cbv zeta. rewrite Ht.
  assert (E1 : match_here (plit "```json") (fun _ => true) body = false).
  { destruct body as [|c body]; [reflexivity|].
    cbn [plit lit map list_ascii_of_string match_here]. unfold unit_matches.
    cbn [head_not] in Hb. apply negb_true_iff in Hb.
    unfold is_backtick in Hb.
    change (N_of_ascii "`") with 96%N. now rewrite fold_backtick, Hb. }
  rewrite E1.
  rewrite (@startsWith_head body _ 96%N Hb : startsWith body (lit "```") = false).
  unfold ends_with.
  rewrite (@startsWith_head (rev body) _ 96%N Hl
           : startsWith (rev body) (rev (lit "```")) = false).
  exact Ht.
Qed.

Lemma strip_fences_fenced (word ws1 body ws2 : jstring) :
  map ascii_fold word = lit "json" \/
  (word = [] /\ head_not is_j (ws1 ++ body) = true) ->
  forallb is_space ws1 = true -> forallb is_space ws2 = true ->
  body <> [] -> trim body = body ->
  head_not is_backtick body = true ->
  strip_fences (fenced word ws1 body ws2) = body.
Proof.
  intros Hw H1 H2 Hne Ht Hb.
  destruct (@strip_closing_fence ws1 body ws2 H1 H2 Hne Ht Hb) as (E & Hs & He & Hd).
  cbv zeta in *.
  unfold strip_fences. cbv zeta. change (lit "```") with FENCE.
  assert (Et : trim (fenced word ws1 body ws2) = fenced word ws1 body ws2).
  { apply trim_fix; [reflexivity|].
    unfold fenced. rewrite !rev_app_distr. reflexivity. }
  rewrite Et.
  destruct Hw as [Hw | [-> Hj]].
  - assert (Em : match_here (plit "```json") (fun _ => true)
                            (fenced word ws1 body ws2) = true).
    { unfold fenced. rewrite app_assoc.
      apply (@match_here_lit (lit "```json") (FENCE ++ word)).
      rewrite map_app, Hw. reflexivity. }
    rewrite Em.
    assert (Ek : skipn 7 (fenced word ws1 body ws2)
                 = ws1 ++ body ++ ws2 ++ FENCE).
    { unfold fenced. rewrite app_assoc.
      apply (f_equal (@length _)) in Hw. rewrite length_map in Hw.
      change (length (lit "json")) with 4 in Hw.
      replace 7 with (length (FENCE ++ word))
        by (rewrite length_app, Hw; reflexivity).
      rewrite skipn_app, Nat.sub_diag, skipn_all. reflexivity. }
    rewrite Ek, Hs, He, Hd. exact Ht.
  - assert (Em : match_here (plit "```json") (fun _ => true)
                            (fenced [] ws1 body ws2) = false).
    { unfold fenced. cbn [app]. 
      change (FENCE ++ ws1 ++ body ++ ws2 ++ FENCE)
        with (96%N :: 96%N :: 96%N :: (ws1 ++ body ++ ws2 ++ FENCE)).
      rewrite (app_assoc ws1).
      remember (ws1 ++ body) as wb eqn:Ewb.
      destruct wb as [|c rest].
      { symmetry in Ewb. apply app_eq_nil in Ewb as [_ ->]. congruence. }
      cbn [head_not] in Hj. apply negb_true_iff in Hj. unfold is_j in Hj.
      cbn [plit lit map list_ascii_of_string match_here app].
      unfold unit_matches at 4.
      change (N_of_ascii "j") with 106%N. now rewrite Hj, !andb_false_r. }
    rewrite Em.
    replace (startsWith (fenced [] ws1 body ws2) FENCE) with true
      by (symmetry; apply (startsWith_app FENCE)).
    change (skipn 3 (fenced [] ws1 body ws2))
      with (ws1 ++ body ++ ws2 ++ FENCE).
    rewrite He, Hd. exact Ht.
Qed.

Section Parsing.

Variable JSON_parse : jstring -> option value.

(** X18.  A reply wrapped in a Markdown code fence is read as the text
    inside the fence: for a trimmed, non-empty body that neither begins nor
    ends with a backquote, [tryParseJson] gives the same value for the body
    and for the body between an opening fence (three backquotes, alone or
    followed by the word json in any case) and a closing fence, with any
    white space around the body. *)
Theorem tryParseJson_fenced (word ws1 body ws2 : jstring) :
  map ascii_fold word = lit "json" \/
  (word = [] /\ head_not is_j (ws1 ++ body) = true) ->
  forallb is_space ws1 = true -> forallb is_space ws2 = true ->
  body <> [] -> trim body = body ->
  head_not is_backtick body = true ->
  head_not is_backtick (rev body) = true ->
  strip_fences (fenced word ws1 body ws2) = body /\
  tryParseJson JSON_parse (fenced word ws1 body ws2)
  = tryParseJson JSON_parse body.
Proof.
  intros Hw H1 H2 Hne Ht Hb Hl.
  pose proof (@strip_fences_fenced word ws1 body ws2 Hw H1 H2 Hne Ht Hb) as E.
  split; [exact E|].
  unfold tryParseJson. rewrite E, (@strip_fences_plain body Ht Hb Hl).
  destruct body; [congruence|]. reflexivity.
Qed.

End Parsing.

Lemma tryParseJson_fenced_witness :
  tryParseJson sample_parse
    (lit ("```JSON" ++ String (ascii_of_nat 10) "{}"
          ++ String (ascii_of_nat 10) "```"))
  = VObj [].
Proof.
  destruct (@tryParseJson_fenced sample_parse (lit "JSON") [10%N] (lit "{}")
              [10%N] (or_introl eq_refl) eq_refl eq_refl
              ltac:(discriminate) eq_refl eq_refl eq_refl) as [_ E].
  exact E.
Defined.

(** ** The sentences of a cleaned transcript *)

Lemma collapsed_strip_leading p s :
  collapsed_from false s = true ->
  collapsed_from false (strip_leading p s) = true.
Proof.
  intros H. unfold strip_leading.
  pose proof (collapsed_dropWhile is_space s H) as H1.
  destruct (dropWhile is_space s) as [|c r]; [exact H|].
  destruct (p c); [|exact H].
  now apply collapsed_dropWhile, collapsed_dropWhile.
Qed.

(** A sentence as [normalizeSentence] leaves it, when it is not empty. *)
Lemma normalizeSentence_shape part :
  collapsed_from false (normalizeSentence part) = true /\
  head_not is_space (normalizeSentence part) = true /\
  head_not is_space (rev (normalizeSentence part)) = true.
Proof.
  unfold normalizeSentence. split; [|split].
  - apply collapsed_trim, collapsed_strip_leading, collapsed_collapse.
  - apply trim_head.
  - apply trim_last.
Qed.

(** Two collapsed texts joined by one space. *)
Lemma collapsed_join f (a b : jstring) :
  a <> [] ->
  collapsed_from f a = true -> head_not is_space (rev a) = true ->
  collapsed_from false b = true -> head_not is_space b = true ->
  collapsed_from f (a ++ SP :: b) = true.
Proof.
  revert f; induction a as [|c a IH]; intros f Hne Ha Hl Hb Hh; [congruence|].
  cbn [app collapsed_from] in *.
  destruct a as [|d a].
  - cbn [app]. cbn [rev app head_not] in Hl. apply negb_true_iff in Hl.
    rewrite Hl. cbn [collapsed_from].
    change (is_space SP) with true. cbn [N.eqb negb andb].
    rewrite N.eqb_refl. cbn [andb].
    destruct b as [|x b]; [reflexivity|].
    cbn [head_not] in Hh. apply negb_true_iff in Hh.
    cbn [collapsed_from] in *. now rewrite Hh in *.
  - assert (Hl' : head_not is_space (rev (d :: a)) = true).
    { cbn [rev] in *. destruct (rev a ++ [d]) eqn:E; [now destruct (rev a)|].
      exact Hl. }
    destruct (is_space c).
    + apply andb_true_iff in Ha as [Ha1 Ha2]. rewrite Ha1. cbn [andb].
      apply IH; auto. discriminate.
    + apply IH; auto. discriminate.
Qed.

Lemma join_shape (l : list jstring) :
  Forall (fun s => s <> [] /\ collapsed_from false s = true /\
                   head_not is_space s = true /\
                   head_not is_space (rev s) = true) l ->
  collapsed_from false (join [SP] l) = true /\
  head_not is_space (join [SP] l) = true /\
  head_not is_space (rev (join [SP] l)) = true.
Proof.
  induction l as [|a l IH]; intros H; [now repeat split|].
  inversion H as [|? ? (Hne & Hc & Hh & Hl) H']; subst.
  destruct l as [|b l]; [now repeat split|].
  specialize (IH H'). destruct IH as (I1 & I2 & I3).
  change (join [SP] (a :: b :: l)) with (a ++ SP :: join [SP] (b :: l)).
  split; [|split].
  - now apply collapsed_join.
  - destruct a; [congruence | exact Hh].
  - rewrite rev_app_distr. cbn [rev]. rewrite <- app_assoc.
    inversion H' as [|? ? (Hb & _) _]; subst.
    assert (Hj : join [SP] (b :: l) <> []).
    { destruct l; [exact Hb|]. cbn [join]. destruct b; [congruence|discriminate]. }
    destruct (rev (join [SP] (b :: l))) eqn:E.
    + apply (f_equal (@rev _)) in E. rewrite rev_involutive in E.
      now elim Hj.
    + exact I3.
Qed.

Lemma no_repeats_snoc l x :
  no_repeats l ->
  match last_of l with
  | Some y => isNearDuplicateText y x = false
  | None => True
  end ->
  no_repeats (l ++ [x]).
Proof.
  induction l as [|a l IH]; intros H Hx; [exact I|].
  destruct l as [|b l].
  - cbn [app no_repeats]. split; [exact Hx | exact I].
  - cbn [app no_repeats] in *. destruct H as [H1 H2]. split; [exact H1|].
    apply IH; [exact H2|].
    unfold last_of in *. cbn [rev] in *.
    destruct (rev l ++ [b]) eqn:E; [now destruct (rev l)|].
    exact Hx.
Qed.

Lemma tighten_from_kept parts cleaned rest :
  incl rest parts ->
  Forall (kept_sentence parts) cleaned -> no_repeats cleaned ->
  Forall (kept_sentence parts) (tighten_from cleaned rest) /\
  no_repeats (tighten_from cleaned rest).
Proof.
  revert cleaned; induction rest as [|part rest IH]; intros cleaned Hi Hk Hn;
    cbn [tighten_from]; [now split|].
  assert (Hi' : incl rest parts) by (intros x Hx; apply Hi; now right).
  destruct (truthy (normalizeSentence part)) eqn:Ht; cbn [negb];
    [|now apply IH].
  destruct (isFillerSentence (normalizeSentence part)) eqn:Hf; [now apply IH|].
  destruct (match last_of cleaned with
            | Some last => truthy last && isNearDuplicateText last _
            | None => false
            end) eqn:Hr; [now apply IH|].
  apply IH; [exact Hi'| |].
  - apply Forall_app. split; [exact Hk|]. constructor; [|constructor].
    split; [exact Ht|]. split; [exact Hf|].
    exists part. split; [apply Hi; now left | reflexivity].
  - apply no_repeats_snoc; [exact Hn|].
    destruct (last_of cleaned) as [y|] eqn:El; [|exact I].
    assert (Hy : truthy y = true).
    { rewrite Forall_forall in Hk.
      apply (Hk y). unfold last_of in El.
      destruct (rev cleaned) eqn:E; [discriminate|]. injection El as ->.
      apply in_rev. rewrite E. now left. }
    now rewrite Hy in Hr.
Qed.

(** X19.  The tightened transcript is the kept sentences joined by single
    spaces (the final replacement and trim change nothing).  Each kept
    sentence is the normalised form of a part of the text, is not empty and
    is not filler, and none is a near-duplicate of the sentence kept just
    before it. *)
Theorem tightenCleanTranscript_sentences (text : jstring) :
  let kept := tighten_from [] (raw_parts text) in
  tightenCleanTranscript text = join [SP] kept /\
  Forall (kept_sentence (raw_parts text)) kept /\
  no_repeats kept.
Proof.
  cbv zeta.
  destruct (tighten_from_kept (parts := raw_parts text) (cleaned := [])
              (incl_refl _) (Forall_nil _) I) as [Hk Hn].
  split; [|now split].
  destruct text as [|c text]; [reflexivity|].
  unfold tightenCleanTranscript. cbn [truthy negb]. fold (raw_parts (c :: text)).
  destruct (join_shape (l := tighten_from [] (raw_parts (c :: text))))
    as (J1 & J2 & J3).
  { apply Forall_impl with (2 := Hk).
    intros s (Ht & _ & part & _ & ->).
    destruct (normalizeSentence_shape part) as (S1 & S2 & S3).
    split; [now apply truthy_nonempty | now repeat split]. }
  unfold collapse_ws. rewrite collapse_fix by exact J1.
  now apply trim_fix.
Qed.

End WorkerMore.

(* ================================================================== *)
(** * Facts about the session of the content script *)
(* ================================================================== *)

Module SessionFacts.

Import Capture Session JsFacts CaptureFacts.

(** Projections of updated states. *)
Ltac state :=
  cbn [videoElement captionElement isCapturing transcriptBuffer currentChunk
       chunkStartWallTime lastCaptionUpdateAt lastVideoMoveAt
       lastVideoTimeSample lastSentStatus clockReads outbox
       set_videoElement set_captionElement set_isCapturing
       set_transcriptBuffer set_currentChunk set_chunkStartWallTime
       set_lastCaptionUpdateAt set_lastVideoMoveAt set_lastVideoTimeSample
       set_lastSentStatus set_clockReads set_outbox send fst snd] in *.

(** ** What the helpers leave alone *)

Lemma coherent_core st st' : core st' = core st -> coherent st -> coherent st'.
Proof.
  unfold core. intros [= E1 E2 E3 E4 E5] [H1 H2 H3 H4].
  constructor; rewrite ?E1, ?E2, ?E3, ?E4, ?E5; assumption.
Qed.

Lemma refreshVideoElement_core env st : core (refreshVideoElement env st) = core st.
Proof. unfold refreshVideoElement. now destruct (same_element _ _). Qed.

Lemma refreshVideoMovement_core env st :
  core (refreshVideoMovement env st) = core st.
Proof.
  unfold refreshVideoMovement.
  destruct (videoElement st); [|reflexivity].
  cbn. destruct (lastVideoTimeSample st); [|reflexivity].
  now destruct (negb _).
Qed.

Lemma observed_core env st : core (observed env st) = core st.
Proof.
  unfold observed. rewrite getVideoTime_state, refreshVideoElement_core.
  unfold Date_now. cbn [snd].
  change (core (set_clockReads ?n ?s)) with (core s).
  now rewrite refreshVideoMovement_core, refreshVideoElement_core.
Qed.

Lemma last_status_app ms m :
  last_status (ms ++ [m])
  = match m with
    | STATUS_UPDATE payload => Some payload
    | _ => last_status ms
    end.
Proof. unfold last_status. now rewrite fold_left_app. Qed.

(** [sendStatus] sends nothing or one status, which it remembers. *)
Lemma sendStatus_cases force env st :
  let st' := sendStatus force env st in
  transcriptBuffer st' = transcriptBuffer st /\
  currentChunk st' = currentChunk st /\
  chunkStartWallTime st' = chunkStartWallTime st /\
  isCapturing st' = isCapturing st /\
  captionElement st' = captionElement st /\
  videoElement st' = videoElement st /\
  ((outbox st' = outbox st /\ lastSentStatus st' = lastSentStatus st /\
    force = false) \/
   exists payload,
     outbox st' = outbox st ++ [STATUS_UPDATE payload] /\
     lastSentStatus st' = Some payload /\
     statusIsCapturing payload = isCapturing st /\
     captionsDetected payload = is_some (captionElement st) /\
     videoFound payload = is_some (videoElement st)).
Proof.
  cbv zeta. unfold sendStatus, buildStatusPayload, isCaptionsUpdating.
  destruct (is_some (captionElement st)) eqn:Ec; cbn;
    match goal with |- context [if ?c then _ else _] => destruct c eqn:E end;
    cbn; repeat split;
    try (left; repeat split;
         destruct force; [discriminate E | reflexivity]);
    try (right; eexists; repeat split; eauto).
Qed.

Lemma sendStatus_coherent force env st :
  coherent st -> coherent (sendStatus force env st).
Proof.
  intros [H1 H2 H3 H4].
  destruct (sendStatus_cases force env st)
    as (E1 & E2 & E3 & _ & _ & _ & [(E4 & E5 & _) | (p & E4 & E5 & _)]).
  - constructor; rewrite ?E1, ?E2, ?E3, ?E4, ?E5; assumption.
  - constructor; rewrite ?E1, ?E2, ?E3, ?E4, ?E5; try assumption.
    + rewrite finalized_chunks_app. cbn. now rewrite app_nil_r.
    + now rewrite last_status_app.
Qed.

Lemma sendTranscriptUpdate_coherent st :
  coherent st -> coherent (sendTranscriptUpdate st).
Proof.
  intros [H1 H2 H3 H4]. unfold sendTranscriptUpdate.
  constructor; state; try assumption.
  - rewrite finalized_chunks_app. cbn. now rewrite app_nil_r.
  - now rewrite last_status_app.
Qed.

(** ** Finalizing *)

Lemma getTailContext_spec env st :
  fst (getTailContext env st) = tail_context env (transcriptBuffer st) /\
  core (snd (getTailContext env st)) = core st /\
  isCapturing (snd (getTailContext env st)) = isCapturing st /\
  captionElement (snd (getTailContext env st)) = captionElement st.
Proof.
  unfold getTailContext.
  pose proof (getVideoTime_value env st) as Hv.
  pose proof (getVideoTime_state env st) as Hs.
  destruct (getVideoTime env st) as [t st1]. cbn [fst snd] in *. subst.
  unfold tail_context.
  pose proof (refreshVideoElement_core env st) as Hc.
  assert (Ht : transcriptBuffer (refreshVideoElement env st)
               = transcriptBuffer st) by (unfold core in Hc; congruence).
  rewrite Ht. split; [reflexivity|]. split; [exact Hc|].
  unfold refreshVideoElement. now destruct (same_element _ _).
Qed.

(** [finalizeChunk] on a chunk with text: the message and the reset. *)
Lemma finalizeChunk_sends env st c :
  currentChunk st = Some c ->
  truthy (trim (Chunk.text c)) = true ->
  let st' := finalizeChunk env st in
  currentChunk st' = None /\
  chunkStartWallTime st' = None /\
  transcriptBuffer st' = transcriptBuffer st /\
  lastSentStatus st' = lastSentStatus st /\
  isCapturing st' = isCapturing st /\
  captionElement st' = captionElement st /\
  outbox st'
  = outbox st ++ [FINALIZE_CHUNK (snapshot c)
                                 (tail_context env (transcriptBuffer st))].
Proof.
  intros Hc Ht. cbv zeta. unfold finalizeChunk. rewrite Hc, Ht. cbn [negb].
  destruct (getTailContext_spec env st) as (Hv & Hs & Hi & He).
  destruct (getTailContext env st) as [tail st1]. cbn [fst snd] in *.
  subst tail. unfold core in Hs. injection Hs as E1 E2 E3 E4 E5.
  state. rewrite E1, E4, E5, Hi, He. now repeat split.
Qed.

Lemma finalizeChunk_blank env st :
  match currentChunk st with
  | Some c => truthy (trim (Chunk.text c)) = false
  | None => True
  end ->
  finalizeChunk env st = st.
Proof.
  unfold finalizeChunk. destruct (currentChunk st); [|reflexivity].
  now intros ->.
Qed.

Lemma finalizeChunk_coherent env st :
  coherent st -> coherent (finalizeChunk env st).
Proof.
  intros H. destruct (currentChunk st) as [c|] eqn:Hc.
  - destruct (truthy (trim (Chunk.text c))) eqn:Ht.
    + destruct (finalizeChunk_sends env st Hc Ht)
        as (E1 & E2 & E3 & E4 & _ & _ & E5).
      destruct H as [H1 H2 H3 H4].
      constructor; rewrite ?E1, ?E2, ?E3, ?E4, ?E5; try assumption;
        try reflexivity.
      * rewrite finalized_chunks_app. apply Forall_app. split; [exact H3|].
        cbn. constructor; [exact Ht | constructor].
      * now rewrite last_status_app.
    + rewrite finalizeChunk_blank; [exact H|]. now rewrite Hc.
  - rewrite finalizeChunk_blank; [exact H|]. now rewrite Hc.
Qed.

Lemma maybeFinalizeChunk_coherent env now st :
  coherent st -> coherent (maybeFinalizeChunk env now st).
Proof.
  intros H. destruct (maybeFinalizeChunk_cases env now st) as [-> | ->];
    [exact H | now apply finalizeChunk_coherent].
Qed.

(** ** Storing a caption *)

Lemma update_last_cases {A} (f : A -> A) (l : list A) :
  (l = [] /\ update_last f l = []) \/
  exists init x, l = init ++ [x] /\ update_last f l = init ++ [f x].
Proof.
  unfold update_last. destruct (rev l) as [|x r] eqn:E.
  - left. apply (f_equal (@rev A)) in E. rewrite rev_involutive in E.
    now split.
  - right. exists (rev r), x.
    apply (f_equal (@rev A)) in E. rewrite rev_involutive in E. now split.
Qed.

Lemma Forall_update_last {A} (P : A -> Prop) (f : A -> A) l :
  (forall x, P x -> P (f x)) -> Forall P l -> Forall P (update_last f l).
Proof.
  intros Hf H.
  destruct (update_last_cases f l) as [[-> ->] | (init & x & -> & ->)];
    [constructor|].
  apply Forall_app in H as [H1 H2]. apply Forall_app. split; [exact H1|].
  inversion H2; subst. constructor; [now apply Hf | constructor].
Qed.

Lemma last_of_update_last {A} (f : A -> A) l :
  last_of (update_last f l) = option_map f (last_of l).
Proof.
  destruct (update_last_cases f l) as [[-> ->] | (init & x & -> & ->)];
    [reflexivity|].
  now rewrite !last_of_app.
Qed.

Lemma update_last_nonempty {A} (f : A -> A) l : l <> [] -> update_last f l <> [].
Proof.
  intros H.
  destruct (update_last_cases f l) as [[-> _] | (init & x & _ & ->)];
    [congruence|].
  now destruct init.
Qed.

Lemma last_of_some_nonempty {A} (l : list A) x : last_of l = Some x -> l <> [].
Proof. intros H ->. discriminate. Qed.

(** The last part replaced: the chunk stays coherent with a transcript
    whose last entry has the new text. *)
Lemma replaceLastChunkPart_coherent text tNow st tb :
  truthy text = true ->
  coherent st ->
  Forall (fun e => truthy (Entry.text e) = true) tb ->
  option_map Entry.text (last_of tb) = Some text ->
  coherent (replaceLastChunkPart text tNow (set_transcriptBuffer tb st)).
Proof.
  intros Ht [H1 H2 H3 H4] Htb Hl. unfold replaceLastChunkPart. state.
  destruct (currentChunk st) as [c|] eqn:Hc.
  - destruct H2 as [[P1 P2 P3 P4] Hw].
    destruct (Nat.eqb (length (Chunk.parts c)) 0) eqn:E.
    { apply Nat.eqb_eq in E. destruct (Chunk.parts c); [congruence|discriminate]. }
    constructor; state; try assumption.
    split; [|exact Hw].
    constructor; cbn [Chunk.parts Chunk.text].
    + now apply update_last_nonempty.
    + reflexivity.
    + now apply Forall_update_last.
    + rewrite last_of_update_last, Hl.
      destruct (nonempty_last_of P1) as [x ->]. reflexivity.
  - constructor; state; try assumption. now rewrite Hc.
Qed.

Lemma appendChunkPart_coherent env text tNow st tb now :
  truthy text = true ->
  coherent st ->
  Forall (fun e => truthy (Entry.text e) = true) tb ->
  coherent
    (appendChunkPart env text tNow
       (set_transcriptBuffer (tb ++ [Entry.mk text tNow tNow tNow tNow now])
                             st)).
Proof.
  intros Ht [H1 H2 H3 H4] Htb. unfold appendChunkPart. state.
  assert (Hall : Forall (fun e => truthy (Entry.text e) = true)
                        (tb ++ [Entry.mk text tNow tNow tNow tNow now])).
  { apply Forall_app. split; [exact Htb|]. now repeat constructor. }
  destruct (currentChunk st) as [c|] eqn:Hc.
  - destruct H2 as [[P1 P2 P3 P4] Hw].
    constructor; state; try assumption.
    split; [|exact Hw].
    constructor; cbn [Chunk.parts Chunk.text].
    + now destruct (Chunk.parts c).
    + reflexivity.
    + apply Forall_app. split; [exact P3|]. now repeat constructor.
    + now rewrite !last_of_app.
  - unfold generateChunkId, Date_now. state.
    constructor; state; try assumption.
    split; [|discriminate].
    constructor; cbn [Chunk.parts Chunk.text].
    + discriminate.
    + reflexivity.
    + now repeat constructor.
    + now rewrite last_of_app.
Qed.

Lemma coherent_set_lastCaptionUpdateAt now st :
  coherent st -> coherent (set_lastCaptionUpdateAt now st).
Proof. now apply coherent_core. Qed.

Lemma store_caption_coherent env text now tNow st :
  truthy text = true -> coherent st ->
  coherent (store_caption env text now tNow st).
Proof.
  intros Ht H. unfold store_caption.
  destruct (match last_of (transcriptBuffer st) with
            | Some e => Js.eqb (Entry.text e) text
            | None => false
            end); [exact H|].
  apply sendStatus_coherent, sendTranscriptUpdate_coherent,
    maybeFinalizeChunk_coherent, coherent_set_lastCaptionUpdateAt.
  pose proof (co_entries H) as He.
  destruct (last_of (transcriptBuffer st)) as [e|] eqn:Hl.
  - destruct (startsWith text (Entry.text e)).
    + apply replaceLastChunkPart_coherent; try assumption.
      * apply Forall_update_last; [|exact He]. now intros x _.
      * now rewrite last_of_update_last, Hl.
    + unfold appendTranscriptEntry.
      destruct (Qle_bool (Entry.startTime e) tNow).
      * state. apply appendChunkPart_coherent with (st := st); try assumption.
        apply Forall_update_last; [|exact He]. now intros x Hx.
      * apply appendChunkPart_coherent with (st := st); assumption.
  - unfold appendTranscriptEntry.
    apply appendChunkPart_coherent with (st := st); assumption.
Qed.

Lemma handleCaptionChange_coherent env st :
  coherent st -> coherent (handleCaptionChange env st).
Proof.
  intros H.
  destruct (isCapturing st) eqn:Hc.
  2:{ unfold handleCaptionChange. now rewrite Hc. }
  destruct (captionElement st) as [el|] eqn:Hel.
  2:{ unfold handleCaptionChange. now rewrite Hc, Hel. }
  destruct (truthy (normalizeText (textContent (dom env) el))) eqn:Ht.
  2:{ unfold handleCaptionChange. now rewrite Hc, Hel, Ht. }
  rewrite (handleCaptionChange_unfold env st Hc Hel Ht).
  apply store_caption_coherent; [exact Ht|].
  apply coherent_core with (st := st); [apply observed_core | exact H].
Qed.

(** ** The other handlers *)

Lemma findAndAttachCaptionElement_coherent env st :
  coherent st -> coherent (findAndAttachCaptionElement env st).
Proof.
  intros H. unfold findAndAttachCaptionElement.
  destruct (captionFound (dom env)); [|now apply sendStatus_coherent].
  destruct (same_element _ _); [exact H|].
  apply sendStatus_coherent, handleCaptionChange_coherent.
  now apply coherent_core with (st := st).
Qed.

Lemma onMessage_coherent message env st :
  coherent st -> coherent (onMessage message env st).
Proof.
  intros H. destruct message; cbn [onMessage]; apply sendStatus_coherent.
  - apply coherent_core with
      (st := findAndAttachCaptionElement env
               (refreshVideoElement env (set_isCapturing true st)));
      [apply refreshVideoMovement_core|].
    apply findAndAttachCaptionElement_coherent.
    apply coherent_core with (st := st); [|exact H].
    now rewrite refreshVideoElement_core.
  - state. destruct (is_some (currentChunk st)).
    + apply finalizeChunk_coherent. now apply coherent_core with (st := st).
    + now apply coherent_core with (st := st).
  - destruct H as [H1 H2 H3 H4]. constructor; state.
    + constructor.
    + reflexivity.
    + rewrite finalized_chunks_app. cbn. now rewrite app_nil_r.
    + now rewrite last_status_app.
Qed.

Lemma ensureCaptionElementStillAttached_coherent contains env st :
  coherent st -> coherent (ensureCaptionElementStillAttached contains env st).
Proof.
  intros H. unfold ensureCaptionElementStillAttached.
  destruct (captionElement st); [|exact H].
  destruct (contains n); [exact H|].
  apply findAndAttachCaptionElement_coherent.
  now apply coherent_core with (st := st).
Qed.

Lemma tick_coherent contains env st : coherent st -> coherent (tick contains env st).
Proof.
  intros H. unfold tick.
  apply sendStatus_coherent, ensureCaptionElementStillAttached_coherent.
  apply coherent_core with (st := st); [|exact H].
  now rewrite refreshVideoElement_core, refreshVideoMovement_core.
Qed.

Lemma documentObserver_coherent contains env st :
  coherent st -> coherent (documentObserver contains env st).
Proof.
  intros H. unfold documentObserver. apply sendStatus_coherent.
  assert (H0 : coherent (refreshVideoElement env st))
    by (apply coherent_core with (st := st);
        [apply refreshVideoElement_core | exact H]).
  set (st0 := refreshVideoElement env st) in *.
  eapply coherent_core; [apply refreshVideoMovement_core|].
  destruct (captionElement st0).
  - destruct (negb (contains n)); [|exact H0].
    apply findAndAttachCaptionElement_coherent.
    now apply coherent_core with (st := st0).
  - now apply findAndAttachCaptionElement_coherent.
Qed.

Lemma step_coherent event env st : coherent st -> coherent (step event env st).
Proof.
  destruct event; cbn [step].
  - apply handleCaptionChange_coherent.
  - apply documentObserver_coherent.
  - apply tick_coherent.
  - apply onMessage_coherent.
Qed.

Lemma run_coherent events : forall st, coherent st -> coherent (run events st).
Proof.
  induction events as [|[event env] events IH]; intros st H; cbn [run];
    [exact H|].
  now apply IH, step_coherent.
Qed.

(** X20.  Whatever happens to the script, and in whatever order (caption
    and document mutations, ticks, START, PAUSE and CLEAR messages, on any
    pages), its accumulator keeps its shape: every transcript entry has
    text; a chunk is in progress exactly when its start time is recorded,
    its text is its parts joined by single spaces, it has a part, and its
    last part is the text of the last transcript entry; every chunk sent for
    synthesis has text other than white space; and the status the script
    remembers is the last one it sent. *)
Theorem session_coherent (events : list (Event * Env)) :
  coherent (run events initial).
Proof.
  apply run_coherent. constructor; cbn; auto.
Qed.

(** ** The rules of the caption handler *)

Lemma observed_lastCaptionUpdateAt env st :
  lastCaptionUpdateAt (observed env st) = lastCaptionUpdateAt st.
Proof.
  unfold observed, getVideoTime, Date_now. cbn [snd].
  assert (E1 : forall s, lastCaptionUpdateAt (refreshVideoElement env s)
                         = lastCaptionUpdateAt s).
  { intros s. unfold refreshVideoElement. now destruct (same_element _ _). }
  assert (E2 : forall s, lastCaptionUpdateAt (refreshVideoMovement env s)
                         = lastCaptionUpdateAt s).
  { intros s. unfold refreshVideoMovement.
    destruct (videoElement s); [|reflexivity].
    cbn. destruct (lastVideoTimeSample s); [|reflexivity].
    now destruct (negb _). }
  rewrite E1. cbn [lastCaptionUpdateAt set_clockReads]. now rewrite E2, E1.
Qed.

(** X21.  A caption whose normalised text is the text of the last
    transcript entry changes nothing: no entry, no chunk part, no message,
    and the time of the last caption update stays. *)
Theorem repeated_caption_is_ignored
  (env : Env) (st : State) (el : nat) (e : Entry.t) :
  isCapturing st = true ->
  captionElement st = Some el ->
  truthy (normalizeText (textContent (dom env) el)) = true ->
  last_of (transcriptBuffer st) = Some e ->
  Entry.text e = normalizeText (textContent (dom env) el) ->
  let st' := handleCaptionChange env st in
  transcriptBuffer st' = transcriptBuffer st /\
  currentChunk st' = currentChunk st /\
  chunkStartWallTime st' = chunkStartWallTime st /\
  outbox st' = outbox st /\
  lastCaptionUpdateAt st' = lastCaptionUpdateAt st.
Proof.
  intros Hc Hel Ht Hl He. cbv zeta.
  rewrite (handleCaptionChange_unfold env st Hc Hel Ht).
  unfold store_caption.
  pose proof (observed_core env st) as Hcore. unfold core in Hcore.
  injection Hcore as E1 E2 E3 E4 E5.
  rewrite E1, Hl, He, eqb_refl.
  rewrite E1, E2, E3, E4, observed_lastCaptionUpdateAt. now repeat split.
Qed.

Lemma repeated_caption_is_ignored_witness :
  let st' := handleCaptionChange (page_showing "the cell membrane is")
                                 first_caption_captured in
  transcriptBuffer st' = [first_entry] /\
  outbox st' = outbox first_caption_captured.
Proof.
  destruct (@repeated_caption_is_ignored
              (page_showing "the cell membrane is") first_caption_captured
              7 first_entry eq_refl eq_refl eq_refl eq_refl eq_refl)
    as (H1 & _ & _ & H4 & _).
  split; [exact H1 | exact H4].
Defined.

(** ** When a chunk is finalized *)

Lemma elapsed_seconds now t0 :
  Qle_bool (inject_Z CHUNK_SECONDS) (Qmake (now - t0) 1000)
  = (180000 <=? now - t0)%Z.
Proof.
  unfold Qle_bool, inject_Z, CHUNK_SECONDS. cbn [Qnum Qden].
  destruct (Z.leb_spec 180000 (now - t0)); 
    [apply Z.leb_le | apply Z.leb_gt]; lia.
Qed.

(** X22.  With a chunk in progress whose text is not blank and whose start
    time is recorded, [maybeFinalizeChunk] sends the chunk, with the
    transcript of the last 30 seconds of media time as tail context, and
    closes it, when 180 seconds have passed since the chunk was opened, or
    its text is longer than 5000 units, or the video element of the script
    is paused or ended on the page; in every other case it changes
    nothing. *)
Theorem chunk_is_finalized_when_due
  (env : Env) (now : Z) (st : State) (c : Chunk.t) (startedAt : Z) :
  currentChunk st = Some c ->
  wall_time_set (chunkStartWallTime st) = Some startedAt ->
  truthy (trim (Chunk.text c)) = true ->
  let due :=
    (180000 <=? now - startedAt)%Z
    || Nat.ltb CHUNK_MAX_CHARS (length (Chunk.text c))
    || match videoElement st with
       | Some v => paused (media (dom env) v) || ended (media (dom env) v)
       | None => false
       end in
  let st' := maybeFinalizeChunk env now st in
  if due then
    currentChunk st' = None /\
    chunkStartWallTime st' = None /\
    transcriptBuffer st' = transcriptBuffer st /\
    outbox st'
    = outbox st ++ [FINALIZE_CHUNK (snapshot c)
                                   (tail_context env (transcriptBuffer st))]
  else st' = st.
Proof.
  intros Hc Hw Ht. cbv zeta. unfold maybeFinalizeChunk.
  rewrite Hc, Hw, elapsed_seconds.
  destruct (_ || _ || _); [|reflexivity].
  destruct (finalizeChunk_sends env st Hc Ht) as (E1 & E2 & E3 & _ & _ & _ & E4).
  now repeat split.
Qed.

Lemma chunk_is_finalized_when_due_witness :
  let page := page_showing "the cell membrane is" in
  currentChunk first_caption_captured = Some first_chunk /\
  finalized_chunks
    (outbox (maybeFinalizeChunk page 1700000180003 first_caption_captured))
  = [snapshot first_chunk] /\
  maybeFinalizeChunk page 1700000180002 first_caption_captured
  = first_caption_captured.
Proof.
  pose proof (@chunk_is_finalized_when_due
                (page_showing "the cell membrane is") 1700000180003
                first_caption_captured first_chunk 1700000000003
                eq_refl eq_refl eq_refl) as H1.
  pose proof (@chunk_is_finalized_when_due
                (page_showing "the cell membrane is") 1700000180002
                first_caption_captured first_chunk 1700000000003
                eq_refl eq_refl eq_refl) as H2.
  cbv zeta in H1, H2.
  change ((180000 <=? 1700000180003 - 1700000000003)%Z
          || Nat.ltb CHUNK_MAX_CHARS (length (Chunk.text first_chunk))
          || match videoElement first_caption_captured with
             | Some v =>
                 paused (media (dom (page_showing "the cell membrane is")) v)
                 || ended (media (dom (page_showing "the cell membrane is")) v)
             | None => false
             end) with true in H1.
  change ((180000 <=? 1700000180002 - 1700000000003)%Z
          || Nat.ltb CHUNK_MAX_CHARS (length (Chunk.text first_chunk))
          || match videoElement first_caption_captured with
             | Some v =>
                 paused (media (dom (page_showing "the cell membrane is")) v)
                 || ended (media (dom (page_showing "the cell membrane is")) v)
             | None => false
             end) with false in H2.
  cbv iota in H1, H2. destruct H1 as (_ & _ & _ & H1).
  split; [reflexivity|]. split; [|exact H2].
  cbv zeta. rewrite H1, finalized_chunks_app. reflexivity.
Defined.

(** ** A new caption *)

Lemma startsWith_same (s : jstring) : startsWith s s = true.
Proof.
  induction s as [|c s IH]; cbn [startsWith]; [reflexivity|].
  now rewrite N.eqb_refl.
Qed.

Lemma map_text_update_last (f : Entry.t -> Entry.t) l :
  (forall e, Entry.text (f e) = Entry.text e) ->
  map Entry.text (update_last f l) = map Entry.text l.
Proof.
  intros Hf.
  destruct (update_last_cases f l) as [[-> ->] | (init & x & -> & ->)];
    [reflexivity|].
  rewrite !map_app. cbn [map]. now rewrite Hf.
Qed.

(** The two reports and the finalize test, after a part was appended. *)
Lemma appended_then_reported env now st c :
  currentChunk st = Some c ->
  Chunk.text c = join [SP] (Chunk.parts c) ->
  let st' := sendStatus false env
               (sendTranscriptUpdate (maybeFinalizeChunk env now st)) in
  transcriptBuffer st' = transcriptBuffer st /\
  match currentChunk st' with
  | Some c' => c' = c
  | None =>
      exists f,
        last_of (finalized_chunks (outbox st')) = Some f /\
        Finalized.text f = join [SP] (Chunk.parts c)
  end.
Proof.
  intros Hc Hj. cbv zeta.
  destruct (reports_frame env (maybeFinalizeChunk env now st))
    as (E1 & E2 & _ & sent & E4 & E5).
  cbv zeta in *. rewrite E1, E2, maybeFinalizeChunk_transcript.
  split; [reflexivity|].
  destruct (maybeFinalizeChunk_cases env now st) as [E|E].
  { rewrite E in *. now rewrite Hc. }
  destruct (truthy (trim (Chunk.text c))) eqn:Ht.
  - destruct (finalizeChunk_sends env st Hc Ht) as (F1 & _ & _ & _ & _ & _ & F2).
    rewrite E4, E, F1, F2, !finalized_chunks_app, E5, app_nil_r.
    change (finalized_chunks [FINALIZE_CHUNK (snapshot c) ?t])
      with [snapshot c].
    exists (snapshot c). split; [now rewrite last_of_app | exact Hj].
  - rewrite E, finalizeChunk_blank; rewrite Hc; [reflexivity | exact Ht].
Qed.

(** X23.  A caption whose normalised text does not begin with the text of
    the last transcript entry is appended: the transcript gets one more
    entry, with that text and the media time of the page as start and end,
    and the texts of the entries before it stay; the chunk in progress gets
    the text as a new part (a chunk is opened when none is in progress), and
    is then either still in progress or the last chunk sent. *)
Theorem new_caption_is_appended (env : Env) (st : State) (el : nat) :
  isCapturing st = true ->
  captionElement st = Some el ->
  truthy (normalizeText (textContent (dom env) el)) = true ->
  match last_of (transcriptBuffer st) with
  | Some e =>
      startsWith (normalizeText (textContent (dom env) el)) (Entry.text e)
      = false
  | None => True
  end ->
  let text := normalizeText (textContent (dom env) el) in
  let st' := handleCaptionChange env st in
  map Entry.text (transcriptBuffer st')
  = map Entry.text (transcriptBuffer st) ++ [text] /\
  last_of (transcriptBuffer st')
  = Some (Entry.mk text (page_time env) (page_time env) (page_time env)
                   (page_time env) (event_now env st)) /\
  match currentChunk st' with
  | Some c' =>
      Chunk.parts c' = open_parts st ++ [text] /\
      Chunk.text c' = join [SP] (open_parts st ++ [text])
  | None =>
      exists f,
        last_of (finalized_chunks (outbox st')) = Some f /\
        Finalized.text f = join [SP] (open_parts st ++ [text])
  end.
Proof.
  intros Hc Hel Ht Hnew. cbv zeta.
  rewrite (handleCaptionChange_unfold env st Hc Hel Ht).
  set (text := normalizeText (textContent (dom env) el)) in *.
  unfold store_caption.
  pose proof (observed_core env st) as Hcore. unfold core in Hcore.
  injection Hcore as E1 E2 E3 E4 E5.
  remember (observed env st) as ob eqn:Eob.
  rewrite E1.
  assert (Hdup : match last_of (transcriptBuffer st) with
                 | Some e => Js.eqb (Entry.text e) text
                 | None => false
                 end = false).
  { destruct (last_of (transcriptBuffer st)) as [e|]; [|reflexivity].
    destruct (Js.eqb (Entry.text e) text) eqn:E; [|reflexivity].
    apply eqb_eq in E. rewrite E, startsWith_same in Hnew. discriminate. }
  assert (Hrep : match last_of (transcriptBuffer st) with
                 | Some e => startsWith text (Entry.text e)
                 | None => false
                 end = false).
  { now destruct (last_of (transcriptBuffer st)). }
  rewrite Hdup, Hrep.
  (* the transcript before the new entry *)
  set (st1 := match last_of (transcriptBuffer st) with
              | Some e =>
                  if Qle_bool (Entry.startTime e) (page_time env)
                  then set_transcriptBuffer _ ob
                  else ob
              | None => ob
              end).
  assert (H1 : map Entry.text (transcriptBuffer st1)
               = map Entry.text (transcriptBuffer st) /\
               currentChunk st1 = currentChunk st).
  { subst st1. destruct (last_of (transcriptBuffer st)) as [e|].
    - destruct (Qle_bool _ _); state; [|now rewrite E1, E2].
      split; [|exact E2]. now apply map_text_update_last.
    - now rewrite E1, E2. }
  destruct H1 as [H1 H2].
  set (entry := Entry.mk text (page_time env) (page_time env) (page_time env)
                         (page_time env) (event_now env st)).
  set (st2 := appendChunkPart env text (page_time env)
                (appendTranscriptEntry text (page_time env)
                                       (event_now env st) st1)).
  assert (H3 : transcriptBuffer st2 = transcriptBuffer st1 ++ [entry] /\
               exists c, currentChunk st2 = Some c /\
                         Chunk.parts c = open_parts st ++ [text] /\
                         Chunk.text c = join [SP] (Chunk.parts c)).
  { subst st2. unfold appendChunkPart, appendTranscriptEntry, open_parts.
    state. rewrite H2.
    destruct (currentChunk st) as [c|].
    - state. split; [reflexivity|]. eexists. split; [reflexivity|].
      cbn [Chunk.parts Chunk.text]. now split.
    - unfold generateChunkId, Date_now. state.
      split; [reflexivity|]. eexists. split; [reflexivity|].
      cbn [Chunk.parts Chunk.text app]. now split. }
  destruct H3 as (H3 & c & H4 & H5 & H6).
  assert (H7 : currentChunk (set_lastCaptionUpdateAt (event_now env st) st2)
               = Some c) by exact H4.
  destruct (appended_then_reported env (event_now env st)
              (set_lastCaptionUpdateAt (event_now env st) st2) H7 H6)
    as (T1 & T2).
  cbv zeta in T1, T2. rewrite T1.
  change (transcriptBuffer (set_lastCaptionUpdateAt (event_now env st) st2))
    with (transcriptBuffer st2).
  rewrite H3.
  split; [now rewrite map_app, H1|]. split; [apply last_of_app|].
  revert T2.
  match goal with
  | |- match ?x with _ => _ end -> _ => destruct x as [c'|]
  end; intros T2.
  - subst c'. split; [exact H5 | now rewrite H6, H5].
  - destruct T2 as (f & F1 & F2). exists f. split; [exact F1|].
    now rewrite F2, H5.
Qed.

Lemma new_caption_is_appended_witness :
  let st' := handleCaptionChange (page_showing "a lipid bilayer")
                                 first_caption_captured in
  map Entry.text (transcriptBuffer st')
  = [lit "the cell membrane is"; lit "a lipid bilayer"] /\
  option_map Chunk.text (currentChunk st')
  = Some (lit "the cell membrane is a lipid bilayer").
Proof.
  destruct (@new_caption_is_appended (page_showing "a lipid bilayer")
              first_caption_captured 7 eq_refl eq_refl eq_refl eq_refl)
    as (H1 & _ & H3).
  cbv zeta. split; [exact H1|].
  destruct (currentChunk (handleCaptionChange (page_showing "a lipid bilayer")
                                              first_caption_captured))
    as [c'|] eqn:E.
  - destruct H3 as [_ H3]. cbn [option_map]. now rewrite H3.
  - vm_compute in E. discriminate E.
Defined.

(** ** While capture is stopped *)

Lemma recorded_core st st' :
  core st' = core st -> isCapturing st' = isCapturing st ->
  recorded st' = recorded st.
Proof.
  unfold core, recorded. intros [= E1 E2 E3 E4 E5] E6. congruence.
Qed.

Lemma sendStatus_recorded force env st :
  recorded (sendStatus force env st) = recorded st.
Proof.
  destruct (sendStatus_cases force env st)
    as (E1 & E2 & _ & E3 & _ & _ & [(E4 & _) | (p & E4 & _)]);
    unfold recorded; rewrite E1, E2, E3, E4; [reflexivity|].
  rewrite finalized_chunks_app. cbn. now rewrite app_nil_r.
Qed.

Lemma refreshVideoElement_recorded env st :
  recorded (refreshVideoElement env st) = recorded st.
Proof.
  apply recorded_core; [apply refreshVideoElement_core|].
  unfold refreshVideoElement. now destruct (same_element _ _).
Qed.

Lemma refreshVideoMovement_recorded env st :
  recorded (refreshVideoMovement env st) = recorded st.
Proof.
  apply recorded_core; [apply refreshVideoMovement_core|].
  unfold refreshVideoMovement.
  destruct (videoElement st); [|reflexivity].
  cbn. destruct (lastVideoTimeSample st); [|reflexivity].
  now destruct (negb _).
Qed.

Lemma handleCaptionChange_idle env st :
  isCapturing st = false -> handleCaptionChange env st = st.
Proof. intros H. unfold handleCaptionChange. now rewrite H. Qed.

Lemma findAndAttachCaptionElement_idle env st :
  isCapturing st = false ->
  recorded (findAndAttachCaptionElement env st) = recorded st.
Proof.
  intros H. unfold findAndAttachCaptionElement.
  destruct (captionFound (dom env)); [|apply sendStatus_recorded].
  destruct (same_element _ _); [reflexivity|].
  rewrite sendStatus_recorded, handleCaptionChange_idle; [reflexivity|].
  exact H.
Qed.

Lemma step_idle event env st :
  passive event = true -> isCapturing st = false ->
  recorded (step event env st) = recorded st.
Proof.
  intros Hp Hc. destruct event; try discriminate; cbn [step].
  - now rewrite handleCaptionChange_idle.
  - unfold documentObserver. rewrite sendStatus_recorded.
    rewrite refreshVideoMovement_recorded.
    pose proof (refreshVideoElement_recorded env st) as H0.
    assert (Hc0 : isCapturing (refreshVideoElement env st) = false).
    { unfold recorded in H0. congruence. }
    set (st0 := refreshVideoElement env st) in *.
    rewrite <- H0.
    destruct (captionElement st0).
    + destruct (negb (contains n)); [|reflexivity].
      now rewrite findAndAttachCaptionElement_idle.
    + now apply findAndAttachCaptionElement_idle.
  - unfold tick. rewrite sendStatus_recorded.
    pose proof (refreshVideoMovement_recorded env st) as H0.
    pose proof (refreshVideoElement_recorded env
                  (refreshVideoMovement env st)) as H1.
    rewrite H0 in H1.
    assert (Hc1 : isCapturing (refreshVideoElement env
                                 (refreshVideoMovement env st)) = false).
    { unfold recorded in H1. congruence. }
    set (st1 := refreshVideoElement env _) in *.
    rewrite <- H1. unfold ensureCaptionElementStillAttached.
    destruct (captionElement st1); [|reflexivity].
    destruct (contains n); [reflexivity|].
    now rewrite findAndAttachCaptionElement_idle.
Qed.

(** X24.  While capture is stopped the script records nothing: whatever
    caption mutations, document mutations and ticks happen before the next
    message, on whatever pages, the transcript, the chunk in progress and
    the chunks sent stay as they are, and capture stays stopped. *)
Theorem idle_script_records_nothing
  (events : list (Event * Env)) (st : State) :
  isCapturing st = false ->
  forallb (fun ev => passive (fst ev)) events = true ->
  let st' := run events st in
  isCapturing st' = false /\
  transcriptBuffer st' = transcriptBuffer st /\
  currentChunk st' = currentChunk st /\
  finalized_chunks (outbox st') = finalized_chunks (outbox st).
Proof.
  intros Hc Hp. cbv zeta.
  assert (H : recorded (run events st) = recorded st).
  { revert st Hc. induction events as [|[event env] events IH];
      intros st Hc; cbn [run]; [reflexivity|].
    cbn [forallb fst] in Hp. apply andb_true_iff in Hp as [Hp1 Hp2].
    pose proof (step_idle event env st Hp1 Hc) as Hs.
    rewrite IH; [exact Hs | exact Hp2|].
    unfold recorded in Hs. congruence. }
  unfold recorded in H. injection H as H1 H2 H3 H4.
  rewrite H1, H2, H3, H4. now repeat split.
Qed.

Lemma idle_script_records_nothing_witness :
  let paused := onMessage PAUSE_CAPTURE (page_showing "the cell membrane is")
                          first_caption_captured in
  let st' := run [ (CaptionMutation, page_showing "a lipid bilayer");
                   (Tick (fun _ => false), page_showing "a lipid bilayer") ]
                 paused in
  isCapturing paused = false /\
  map Entry.text (transcriptBuffer st') = [lit "the cell membrane is"].
Proof.
  destruct (@idle_script_records_nothing
              [ (CaptionMutation, page_showing "a lipid bilayer");
                (Tick (fun _ => false), page_showing "a lipid bilayer") ]
              (onMessage PAUSE_CAPTURE (page_showing "the cell membrane is")
                         first_caption_captured)
              eq_refl eq_refl) as (_ & H & _).
  cbv zeta. split; [reflexivity|]. rewrite H. reflexivity.
Defined.

(** ** Pausing *)

(** X25.  PAUSE_CAPTURE stops capture and flushes the chunk in progress:
    when the chunk has text other than white space it is sent, with the
    tail context, and closed, and a status follows; otherwise only the
    status is sent and the chunk, if any, stays.  The transcript stays, and
    the status reports that capture is stopped. *)
Theorem pause_flushes_chunk (env : Env) (st : State) :
  let st' := onMessage PAUSE_CAPTURE env st in
  let closing :=
    match currentChunk st with
    | Some c =>
        if truthy (trim (Chunk.text c))
        then [FINALIZE_CHUNK (snapshot c)
                             (tail_context env (transcriptBuffer st))]
        else []
    | None => []
    end in
  isCapturing st' = false /\
  transcriptBuffer st' = transcriptBuffer st /\
  currentChunk st' = match closing with
                     | [] => currentChunk st
                     | _ :: _ => None
                     end /\
  exists status,
    statusIsCapturing status = false /\
    outbox st' = outbox st ++ closing ++ [STATUS_UPDATE status].
Proof.
  cbv zeta. cbn [onMessage]. state.
  set (st0 := set_isCapturing false st).
  set (st1 := if is_some (currentChunk st) then finalizeChunk env st0 else st0).
  set (closing := match currentChunk st with
                  | Some c =>
                      if truthy (trim (Chunk.text c))
                      then [FINALIZE_CHUNK (snapshot c)
                              (tail_context env (transcriptBuffer st))]
                      else []
                  | None => []
                  end).
  assert (H : isCapturing st1 = false /\
              transcriptBuffer st1 = transcriptBuffer st /\
              currentChunk st1 = match closing with
                                 | [] => currentChunk st
                                 | _ :: _ => None
                                 end /\
              outbox st1 = outbox st ++ closing).
  { subst st1 closing.
    destruct (currentChunk st) as [c|] eqn:Hc; cbn [is_some].
    - destruct (truthy (trim (Chunk.text c))) eqn:Ht.
      + destruct (finalizeChunk_sends env st0 (c := c) Hc Ht)
          as (E1 & _ & E3 & _ & E5 & _ & E7).
        rewrite E1, E3, E5, E7. now repeat split.
      + rewrite finalizeChunk_blank.
        * subst st0. cbn. rewrite Hc, app_nil_r. now repeat split.
        * subst st0. cbn. now rewrite Hc, Ht.
    - subst st0. cbn. rewrite Hc, app_nil_r. now repeat split. }
  destruct H as (H1 & H2 & H3 & H4).
  destruct (sendStatus_cases true env st1)
    as (E1 & E2 & _ & E3 & _ & _ & [(_ & _ & Hf) | (p & E4 & _ & E5 & _)]);
    [discriminate|].
  cbv zeta in *. rewrite E1, E2, E3, E4, H1, H2, H3, H4.
  split; [reflexivity|]. split; [reflexivity|]. split; [reflexivity|].
  exists p. split; [congruence|]. now rewrite <- app_assoc.
Qed.

(** ** Normalising a caption *)

Lemma collapsed_spaces f s :
  collapsed_from f s = true ->
  Forall (fun c => is_space c = true -> c = SP) s.
Proof.
  revert f; induction s as [|c s IH]; intros f H; [constructor|].
  cbn [collapsed_from] in H. destruct (is_space c) eqn:E.
  - apply andb_true_iff in H as [H H2]. apply andb_true_iff in H as [H _].
    apply N.eqb_eq in H. constructor; [now intros _ | now apply (IH true)].
  - constructor; [intros; congruence | now apply (IH false)].
Qed.

Lemma collapse_from_length f s : length (collapse_from f s) <= length s.
Proof.
  revert f; induction s as [|c s IH]; intros f; cbn [collapse_from length];
    [lia|].
  pose proof (IH true). pose proof (IH false).
  destruct (is_space c); [destruct f|]; cbn [length]; lia.
Qed.

(** X26.  The normalised text of a caption holds no zero-width space and no
    white space other than the space, and is never longer than the
    caption. *)
Theorem normalizeText_units (text : jstring) :
  Forall (fun c => c <> 8203%N /\ (is_space c = true -> c = SP))
         (normalizeText text) /\
  length (normalizeText text) <= length text.
Proof.
  unfold normalizeText. split.
  - apply Forall_forall. intros c Hc. apply filter_In in Hc as [Hc Hn].
    apply negb_true_iff, N.eqb_neq in Hn. split; [exact Hn|].
    pose proof (collapsed_spaces false _
                  (collapsed_collapse false (trim text))) as H.
    rewrite Forall_forall in H. now apply H.
  - eapply Nat.le_trans; [apply NotesFacts.filter_length_le|].
    eapply Nat.le_trans; [apply collapse_from_length | apply trim_length].
Qed.

End SessionFacts.

(* ================================================================== *)
(** * Facts about the calls to the providers *)
(* ================================================================== *)

Module ProviderFacts.

Import Notes Worker Models Providers JsFacts NotesFacts NotesQuality WorkerFacts
       WorkerMore.

(** Projections of updated states. *)
Ltac net :=
  cbn [cacheGemini cacheOpenAI time requests set_cacheGemini set_cacheOpenAI
       set_time set_requests fst snd outcome took] in *.

(** The two sides of an equation encode the same texts before anything
    else: either way they agree when a text cannot be encoded. *)
Ltac encoded :=
  unfold encodeURIComponent;
  repeat (match goal with
          | |- context [well_formed ?x] => destruct (well_formed x)
          end; cbn [unit_ raise]; [|reflexivity]).

(** ** The requests of a call *)

Lemma sent_refl s : sent_between s s [].
Proof. unfold sent_between. now rewrite app_nil_r. Qed.

Lemma sent_trans s1 s2 s3 a b :
  sent_between s1 s2 a -> sent_between s2 s3 b -> sent_between s1 s3 (a ++ b).
Proof. unfold sent_between. intros -> ->. now rewrite app_assoc. Qed.

Lemma wait_sent {A} (a : Await A) s : requests (snd (wait a s)) = requests s.
Proof. reflexivity. Qed.

Lemma fetch_sent replies request s :
  sent_between s (snd (fetch replies request s)) [request].
Proof. reflexivity. Qed.

Lemma api_error_sent name response m s :
  requests (snd (api_error name response m s)) = requests s /\
  exists e, fst (api_error name response m s) = Throws e.
Proof.
  unfold api_error, then_do, wait, raise.
  destruct (outcome (text_ response)); net; split; eauto.
Qed.

(** A model list is read from the cache or fetched with one request; for
    Gemini the key is encoded first, and no request is made for a key that
    cannot be. *)
Lemma listGeminiModels_sent replies key s :
  let r := listGeminiModels replies key s in
  (r = (Returns (cache_models (cacheGemini s)), s) /\
   cache_hit (cacheGemini s) key (time s) = true) \/
  (r = (Throws (lit "URI malformed"), s) /\
   cache_hit (cacheGemini s) key (time s) = false /\
   well_formed key = false) \/
  (sent_between s (snd r) [LIST_GEMINI key] /\
   cache_hit (cacheGemini s) key (time s) = false /\
   well_formed key = true).
Proof.
  cbv zeta. unfold listGeminiModels.
  destruct (cache_hit (cacheGemini s) key (time s)); [now left|].
  right. unfold then_do at 1, encodeURIComponent.
  destruct (well_formed key); [|now left].
  right. split; [|now split].
  unfold then_do, fetch, wait, raise, member, gemini_names, unit_.
  destruct (outcome (replies _)) as [response|e]; net; [|reflexivity].
  destruct (negb (ok response)).
  { destruct (outcome (text_ response)); net; reflexivity. }
  destruct (outcome (json response)) as [data|e]; net; [|reflexivity].
  destruct data; net; try reflexivity;
    destruct (find nullish _); reflexivity.
Qed.

Lemma listOpenAIModels_sent replies key s :
  let r := listOpenAIModels replies key s in
  (r = (Returns (cache_models (cacheOpenAI s)), s) /\
   cache_hit (cacheOpenAI s) key (time s) = true) \/
  (sent_between s (snd r) [LIST_OPENAI key] /\
   cache_hit (cacheOpenAI s) key (time s) = false).
Proof.
  cbv zeta. unfold listOpenAIModels.
  destruct (cache_hit (cacheOpenAI s) key (time s)); [now left|].
  right. split; [|reflexivity].
  unfold then_do, fetch, wait, raise, member, unit_.
  destruct (outcome (replies _)) as [response|e]; net; [|reflexivity].
  destruct (negb (ok response)).
  { destruct (outcome (text_ response)); net; reflexivity. }
  destruct (outcome (json response)) as [data|e]; net; [|reflexivity].
  destruct data; net; reflexivity.
Qed.

(** The requests of a model resolution: none or one, never a chat. *)
Lemma resolveGeminiModel_sent replies key m s :
  exists lst,
    sent_between s (snd (resolveGeminiModel replies key m s)) lst /\
    (lst = [] \/ lst = [LIST_GEMINI key]).
Proof.
  unfold resolveGeminiModel, then_do.
  destruct (listGeminiModels_sent replies key s) as [[E _] | [[E _] | [E _]]];
    cbv zeta in E.
  - rewrite E. exists []. split; [apply sent_refl | now left].
  - rewrite E. exists []. split; [apply sent_refl | now left].
  - exists [LIST_GEMINI key]. split; [|now right].
    destruct (listGeminiModels replies key s) as [[a|e] s1]; exact E.
Qed.

Lemma resolveOpenAIModel_sent replies key m s :
  exists lst,
    sent_between s (snd (resolveOpenAIModel replies key m s)) lst /\
    (lst = [] \/ lst = [LIST_OPENAI key]).
Proof.
  unfold resolveOpenAIModel, then_do.
  destruct (listOpenAIModels_sent replies key s) as [[E _] | [E _]];
    cbv zeta in E.
  - rewrite E. exists []. split; [apply sent_refl | now left].
  - exists [LIST_OPENAI key]. split; [|now right].
    destruct (listOpenAIModels replies key s) as [[a|e] s1]; exact E.
Qed.

Lemma list_requests_nil : list_requests [].
Proof. split; [cbn; lia | reflexivity]. Qed.

Lemma resolve_list_requests lst key :
  lst = [] \/ lst = [LIST_GEMINI key] \/ lst = [LIST_OPENAI key] ->
  list_requests lst.
Proof. intros [-> | [-> | ->]]; split; cbn; auto. Qed.

Lemma api_error_reply name response m s :
  text_reply (fst (api_error name response m s)).
Proof.
  destruct (api_error_sent name response m s) as [_ [e ->]]. exact I.
Qed.

(** The end of a chat call: the reply is read and its text returned. *)
Lemma read_reply (extract : value -> jstring) (message : jstring) response s :
  (forall data, trim (extract data) = extract data) ->
  let r := (data <~ wait (json response) ;;
            if negb (truthy (extract data)) then raise message
            else unit_ (extract data)) s in
  requests (snd r) = requests s /\ text_reply (fst r).
Proof.
  intros He. cbv zeta. unfold then_do, wait, raise, unit_.
  destruct (outcome (json response)) as [data|e]; net; [|now split].
  destruct (truthy (extract data)) eqn:E; cbn [negb fst snd]; now split.
Qed.

Lemma extractGeminiText_trimmed data :
  trim (extractGeminiText data) = extractGeminiText data.
Proof.
  unfold extractGeminiText. cbv zeta.
  destruct (_ || _); [reflexivity|].
  destruct (get _ "parts"); try reflexivity. apply trim_idem.
Qed.

Lemma extractOpenAIText_trimmed content :
  trim (extractOpenAIText content) = extractOpenAIText content.
Proof. destruct content; try reflexivity; apply trim_idem. Qed.

Lemma extractAnthropicText_trimmed data :
  trim (extractAnthropicText data) = extractAnthropicText data.
Proof. apply trim_idem. Qed.

(** ** One call of a nest *)

Lemma sent_cons s s1 s2 request lst :
  sent_between s s1 [request] -> sent_between s1 s2 lst ->
  sent_between s s2 (request :: lst).
Proof. intros H1 H2. apply (sent_trans H1 H2). Qed.

Lemma sent_same s s1 s2 lst :
  sent_between s s1 lst -> requests s2 = requests s1 -> sent_between s s2 lst.
Proof. unfold sent_between. congruence. Qed.

(** The two ways a call ends without calling itself. *)
Lemma ends_with_error name response m s s1 chat lst res s' :
  sent_between s s1 (chat :: lst) ->
  api_error name response m s1 = (res, s') ->
  sent_between s s' (chat :: lst) /\ text_reply res.
Proof.
  intros Hs Hrun.
  destruct (api_error_sent name response m s1) as [H1 [e H2]].
  rewrite Hrun in H1, H2. cbn [fst snd] in *. subst res.
  split; [eapply sent_same; eassumption | exact I].
Qed.

Lemma ends_with_reply (extract : value -> jstring) message response
      s s1 chat res s' :
  (forall data, trim (extract data) = extract data) ->
  sent_between s s1 [chat] ->
  (data <~ wait (json response) ;;
   if negb (truthy (extract data)) then raise message
   else unit_ (extract data)) s1 = (res, s') ->
  sent_between s s' [chat] /\ text_reply res.
Proof.
  intros He Hs Hrun.
  destruct (read_reply extract message response s1 He) as [H1 H2].
  cbv zeta in H1, H2. rewrite Hrun in H1, H2. cbn [fst snd] in *.
  split; [eapply sent_same; eassumption | exact H2].
Qed.

Lemma callAnthropicText_body_steps replies self params s :
  let m := or_str (model params) (lit (DEFAULT_MODELS ANTHROPIC)) in
  let r := callAnthropicText_body replies self params s in
  (sent_between s (snd r) [CHAT_ANTHROPIC m (apiKey params)] /\
   text_reply (fst r)) \/
  (_retriedModel params = false /\
   resolveAnthropicModel m <> m /\
   exists s1,
     sent_between s s1 [CHAT_ANTHROPIC m (apiKey params)] /\
     r = self (with_model (resolveAnthropicModel m) params) s1).
Proof.
  cbv zeta.
  set (m := or_str (model params) (lit (DEFAULT_MODELS ANTHROPIC))).
  destruct (callAnthropicText_body replies self params s) as [res s']
    eqn:Hrun.
  cbn [fst snd]. unfold callAnthropicText_body in Hrun. cbv zeta in Hrun.
  fold m in Hrun. unfold then_do at 1 in Hrun.
  pose proof (fetch_sent replies (CHAT_ANTHROPIC m (apiKey params)) s) as Hf.
  destruct (fetch replies (CHAT_ANTHROPIC m (apiKey params)) s)
    as [[response|e] s1]; cbn [fst snd] in *.
  2:{ injection Hrun as <- <-. left. now split. }
  destruct (negb (ok response)).
  2:{ left. eapply ends_with_reply; [|exact Hf|exact Hrun].
      apply extractAnthropicText_trimmed. }
  destruct ((status response =? 404)%Z && negb (_retriedModel params)) eqn:E.
  2:{ left. eapply ends_with_error; eassumption. }
  destruct (truthy (resolveAnthropicModel m)
            && negb (Js.eqb (resolveAnthropicModel m) m)) eqn:E2.
  2:{ left. eapply ends_with_error; eassumption. }
  right. apply andb_true_iff in E as [_ E]. apply negb_true_iff in E.
  apply andb_true_iff in E2 as [_ E2]. apply negb_true_iff in E2.
  split; [exact E|]. split.
  - intros H. rewrite H, eqb_refl in E2. discriminate.
  - exists s1. split; [exact Hf | now symmetry].
Qed.

Lemma callGeminiText_body_steps replies self params s :
  let m := normalizeModelName
             (VStr (or_str (model params) (lit (DEFAULT_MODELS GEMINI)))) in
  let r := callGeminiText_body replies self params s in
  (well_formed m && well_formed (apiKey params) = false /\
   r = (Throws (lit "URI malformed"), s)) \/
  (exists lst,
     sent_between s (snd r) (CHAT_GEMINI m (apiKey params) :: lst) /\
     list_requests lst /\
     (lst <> [] -> _retriedModel params = false) /\
     text_reply (fst r)) \/
  (_retriedModel params = false /\
   exists s1 lst fallback,
     sent_between s s1 (CHAT_GEMINI m (apiKey params) :: lst) /\
     list_requests lst /\
     r = self (with_model fallback params) s1).
Proof.
  cbv zeta.
  set (m := normalizeModelName _).
  destruct (callGeminiText_body replies self params s) as [res s'] eqn:Hrun.
  cbn [fst snd]. unfold callGeminiText_body in Hrun. cbv zeta in Hrun.
  fold m in Hrun. unfold then_do at 1, encodeURIComponent at 1 in Hrun.
  destruct (well_formed m); cbn [andb];
    [|left; split; [reflexivity | now rewrite <- Hrun]].
  cbn [unit_] in Hrun.
  unfold then_do at 1, encodeURIComponent at 1 in Hrun.
  destruct (well_formed (apiKey params));
    [|left; split; [reflexivity | now rewrite <- Hrun]].
  cbn [unit_] in Hrun. right.
  unfold then_do at 1 in Hrun.
  pose proof (fetch_sent replies (CHAT_GEMINI m (apiKey params)) s) as Hf.
  destruct (fetch replies (CHAT_GEMINI m (apiKey params)) s)
    as [[response|e] s1]; cbn [fst snd] in *.
  2:{ injection Hrun as <- <-. left. exists [].
      split; [exact Hf|]. split; [apply list_requests_nil|]. now split. }
  destruct (negb (ok response)).
  2:{ left. exists [].
      destruct (ends_with_reply extractGeminiText _ _
                  extractGeminiText_trimmed Hf Hrun) as [H1 H2].
      split; [exact H1|]. split; [apply list_requests_nil|]. now split. }
  destruct ((status response =? 404)%Z && negb (_retriedModel params)) eqn:E.
  2:{ left. exists [].
      destruct (ends_with_error _ _ _ Hf Hrun) as [H1 H2].
      split; [exact H1|]. split; [apply list_requests_nil|]. now split. }
  apply andb_true_iff in E as [_ E]. apply negb_true_iff in E.
  unfold then_do at 1 in Hrun.
  destruct (resolveGeminiModel_sent replies (apiKey params) m s1)
    as (lst & Hl & Hlst).
  assert (Hlr : list_requests lst)
    by (apply (@resolve_list_requests lst (apiKey params)); tauto).
  pose proof (sent_cons Hf Hl) as Hs.
  destruct (resolveGeminiModel replies (apiKey params) m s1)
    as [[fallback|e] s2]; cbn [fst snd] in *.
  2:{ injection Hrun as <- <-. left. exists lst. split; [exact Hs|].
      split; [exact Hlr|]. now split. }
  destruct (truthy fallback && negb (Js.eqb fallback m)).
  - right. split; [exact E|]. exists s2, lst, fallback.
    split; [exact Hs|]. split; [exact Hlr | now symmetry].
  - left. exists lst.
    destruct (ends_with_error _ _ _ Hs Hrun) as [H1 H2].
    split; [exact H1|]. split; [exact Hlr|]. now split.
Qed.

Lemma callOpenAIText_body_steps replies self params s :
  let m := or_str (model params) (lit (DEFAULT_MODELS OPENAI)) in
  let jsonMode := jsonReply params && negb (_retryWithoutJsonMode params) in
  let chat := CHAT_OPENAI m (apiKey params) jsonMode in
  let r := callOpenAIText_body replies self params s in
  (exists lst,
     sent_between s (snd r) (chat :: lst) /\
     list_requests lst /\
     (lst <> [] -> _retriedModel params = false) /\
     text_reply (fst r)) \/
  (_retriedModel params = false /\
   exists s1 lst fallback,
     sent_between s s1 (chat :: lst) /\
     list_requests lst /\
     r = self (with_model fallback params) s1) \/
  (_retryWithoutJsonMode params = false /\
   exists s1,
     sent_between s s1 [chat] /\
     r = self (without_json_mode params) s1).
Proof.
  cbv zeta.
  set (m := or_str (model params) (lit (DEFAULT_MODELS OPENAI))).
  set (jsonMode := jsonReply params && negb (_retryWithoutJsonMode params)).
  set (chat := CHAT_OPENAI m (apiKey params) jsonMode).
  destruct (callOpenAIText_body replies self params s) as [res s'] eqn:Hrun.
  cbn [fst snd]. unfold callOpenAIText_body in Hrun. cbv zeta in Hrun.
  fold m jsonMode chat in Hrun. unfold then_do at 1 in Hrun.
  pose proof (fetch_sent replies chat s) as Hf.
  destruct (fetch replies chat s) as [[response|e] s1]; cbn [fst snd] in *.
  2:{ injection Hrun as <- <-. left. exists [].
      split; [exact Hf|]. split; [apply list_requests_nil|]. now split. }
  destruct (negb (ok response)).
  2:{ left. exists [].
      destruct (ends_with_reply
                  (fun data => extractOpenAIText (openai_content data)) _ _
                  (fun data => extractOpenAIText_trimmed (openai_content data))
                  Hf Hrun) as [H1 H2].
      split; [exact H1|]. split; [apply list_requests_nil|]. now split. }
  destruct ((status response =? 404)%Z && negb (_retriedModel params)) eqn:E.
  - (* the model was not found: it is resolved, and the status is not 400 *)
    apply andb_true_iff in E as [E4 E]. apply negb_true_iff in E.
    assert (E0 : (status response =? 400)%Z = false).
    { apply Z.eqb_eq in E4. rewrite E4. reflexivity. }
    rewrite E0 in Hrun. cbn [andb] in Hrun.
    unfold then_do at 1 in Hrun.
    destruct (resolveOpenAIModel_sent replies (apiKey params) m s1)
      as (lst & Hl & Hlst).
    assert (Hlr : list_requests lst)
      by (apply (@resolve_list_requests lst (apiKey params)); tauto).
    pose proof (sent_cons Hf Hl) as Hs.
    destruct (resolveOpenAIModel replies (apiKey params) m s1)
      as [[fallback|e] s2]; cbn [fst snd] in *.
    2:{ injection Hrun as <- <-. left. exists lst. split; [exact Hs|].
        split; [exact Hlr|]. now split. }
    destruct (truthy fallback && negb (Js.eqb fallback m)).
    + right. left. split; [exact E|]. exists s2, lst, fallback.
      split; [exact Hs|]. split; [exact Hlr | now symmetry].
    + left. exists lst.
      destruct (ends_with_error _ _ _ Hs Hrun) as [H1 H2].
      split; [exact H1|]. split; [exact Hlr|]. now split.
  - destruct ((status response =? 400)%Z && jsonMode
              && negb (_retryWithoutJsonMode params)) eqn:E4.
    + right. right.
      apply andb_true_iff in E4 as [_ E4]. apply negb_true_iff in E4.
      split; [exact E4|]. exists s1. split; [exact Hf | now symmetry].
    + left. exists [].
      destruct (ends_with_error _ _ _ Hf Hrun) as [H1 H2].
      split; [exact H1|]. split; [apply list_requests_nil|]. now split.
Qed.

(** ** A nest of calls *)

Lemma bounded_direct (call : P jstring) s sent chats total :
  sent_between s (snd (call s)) sent -> text_reply (fst (call s)) ->
  length (filter is_chat sent) <= chats -> length sent <= total ->
  bounded_call call s chats total.
Proof. intros. exists sent. now repeat split. Qed.

Lemma bounded_after (call inner : P jstring) s s1 pre c t chats total :
  sent_between s s1 pre -> call s = inner s1 -> bounded_call inner s1 c t ->
  length (filter is_chat pre) + c <= chats -> length pre + t <= total ->
  bounded_call call s chats total.
Proof.
  intros Hp E (sent & Hs & Hc & Ht & Hr) H1 H2.
  exists (pre ++ sent). rewrite E.
  split; [apply (sent_trans Hp Hs)|].
  rewrite filter_app, !length_app. repeat split; try lia. exact Hr.
Qed.

Lemma chat_first chat lst :
  is_chat chat = true -> list_requests lst ->
  length (filter is_chat (chat :: lst)) = 1 /\ length (chat :: lst) <= 2.
Proof.
  intros Hc [Hl Hf]. cbn [filter length]. rewrite Hc, Hf. cbn [length]. lia.
Qed.

(** Gemini: the call that has already resolved its model. *)
Lemma gemini_retried replies self params s :
  _retriedModel params = true ->
  bounded_call (callGeminiText_body replies self params) s 1 1 /\
  forall self',
    callGeminiText_body replies self' params s
    = callGeminiText_body replies self params s.
Proof.
  intros Hr. split.
  - destruct (callGeminiText_body_steps replies self params s)
      as [(_ & E) | [(lst & Hs & Hl & Hn & Ht) | (Hf & _)]]; [| |congruence].
    { eapply bounded_direct with (sent := []); try rewrite E;
        [apply sent_refl | exact I | |]; cbn; lia. }
    destruct lst as [|x lst]; [|specialize (Hn ltac:(discriminate)); congruence].
    eapply bounded_direct; [exact Hs | exact Ht | |]; cbn; lia.
  - intros self'. unfold callGeminiText_body. cbv zeta.
    unfold then_do. encoded.
    destruct (fetch replies _ s) as [[response|e] s1]; [|reflexivity].
    destruct (negb (ok response)); [|reflexivity].
    rewrite Hr. cbn [negb]. now rewrite andb_false_r.
Qed.

Lemma gemini_nest replies self params s :
  bounded_call
    (callGeminiText_body replies (callGeminiText_body replies self) params)
    s 2 3 /\
  callGeminiText_body replies (callGeminiText_body replies self) params s
  = callGeminiText replies params s.
Proof.
  split.
  - destruct (callGeminiText_body_steps replies
                (callGeminiText_body replies self) params s)
      as [(_ & E)
         | [(lst & Hs & Hl & _ & Ht)
           | (_ & s1 & lst & fallback & Hs & Hl & E)]].
    + eapply bounded_direct with (sent := []); try rewrite E;
        [apply sent_refl | exact I | |]; cbn; lia.
    + destruct (@chat_first (CHAT_GEMINI
                  (normalizeModelName
                     (VStr (or_str (model params) (lit (DEFAULT_MODELS GEMINI)))))
                  (apiKey params)) lst eq_refl Hl) as [H1 H2].
      eapply bounded_direct; [exact Hs | exact Ht | |]; lia.
    + destruct (@chat_first (CHAT_GEMINI
                  (normalizeModelName
                     (VStr (or_str (model params) (lit (DEFAULT_MODELS GEMINI)))))
                  (apiKey params)) lst eq_refl Hl) as [H1 H2].
      eapply bounded_after; [exact Hs | exact E | | |].
      * apply gemini_retried. reflexivity.
      * lia.
      * lia.
  - unfold callGeminiText, callGeminiText_body at 1 3. cbv zeta.
    unfold then_do. encoded.
    destruct (fetch replies _ s) as [[response|e] s1]; [|reflexivity].
    destruct (negb (ok response)); [|reflexivity].
    destruct (_ && _); [|reflexivity].
    unfold then_do.
    destruct (resolveGeminiModel replies _ _ s1) as [[fallback|e] s2];
      [|reflexivity].
    destruct (_ && _); [|reflexivity].
    now apply gemini_retried.
Qed.

(** Anthropic *)
Lemma anthropic_retried replies self params s :
  _retriedModel params = true ->
  sent_between s (snd (callAnthropicText_body replies self params s))
    [CHAT_ANTHROPIC (or_str (model params) (lit (DEFAULT_MODELS ANTHROPIC)))
                    (apiKey params)] /\
  text_reply (fst (callAnthropicText_body replies self params s)) /\
  forall self',
    callAnthropicText_body replies self' params s
    = callAnthropicText_body replies self params s.
Proof.
  intros Hr.
  destruct (callAnthropicText_body_steps replies self params s)
    as [[Hs Ht] | (Hf & _)]; [|congruence].
  split; [exact Hs|]. split; [exact Ht|].
  intros self'. unfold callAnthropicText_body. cbv zeta.
  unfold then_do.
  destruct (fetch replies _ s) as [[response|e] s1]; [|reflexivity].
  destruct (negb (ok response)); [|reflexivity].
  rewrite Hr. cbn [negb]. now rewrite andb_false_r.
Qed.

Lemma resolveAnthropicModel_named m : truthy (resolveAnthropicModel m) = true.
Proof.
  unfold resolveAnthropicModel. cbv zeta.
  now destruct (truthy (normalizeModelName (VStr m))) eqn:E.
Qed.

Lemma or_str_named a b : truthy a = true -> or_str a b = a.
Proof. unfold or_str. now intros ->. Qed.

(** X27.  [callAnthropicText] sends one request, or two: the second, for
    the normalised model name, only when normalising changes the name and
    the call is not itself a retry.  For a name that is already normalised (as
    every name that comes from the settings without the [models/] prefix)
    the call sends exactly one request whatever the answer.  What it returns
    is non-empty trimmed text, and the first call of the nest never needs a
    third. *)
Theorem callAnthropicText_requests
  (replies : nat -> Await Response) (params : Params) (s : Net) :
  let m := or_str (model params) (lit (DEFAULT_MODELS ANTHROPIC)) in
  let r := callAnthropicText replies params s in
  text_reply (fst r) /\
  (sent_between s (snd r) [CHAT_ANTHROPIC m (apiKey params)] \/
   (resolveAnthropicModel m <> m /\ _retriedModel params = false /\
    sent_between s (snd r)
      [CHAT_ANTHROPIC m (apiKey params);
       CHAT_ANTHROPIC (resolveAnthropicModel m) (apiKey params)])) /\
  (normalizeModelName (VStr m) = m ->
   sent_between s (snd r) [CHAT_ANTHROPIC m (apiKey params)]) /\
  forall self,
    callAnthropicText_body replies (callAnthropicText_body replies self)
                           params s = r.
Proof.
  cbv zeta.
  set (m := or_str (model params) (lit (DEFAULT_MODELS ANTHROPIC))).
  assert (Hnest : forall self,
             callAnthropicText_body replies
               (callAnthropicText_body replies self) params s
             = callAnthropicText replies params s).
  { intros self. unfold callAnthropicText, callAnthropicText_body at 1 3.
    cbv zeta. unfold then_do.
    destruct (fetch replies _ s) as [[response|e] s1]; [|reflexivity].
    destruct (negb (ok response)); [|reflexivity].
    destruct (_ && _); [|reflexivity].
    destruct (_ && _); [|reflexivity].
    now apply anthropic_retried. }
  assert (H : text_reply (fst (callAnthropicText replies params s)) /\
              (sent_between s (snd (callAnthropicText replies params s))
                 [CHAT_ANTHROPIC m (apiKey params)] \/
               (resolveAnthropicModel m <> m /\
                _retriedModel params = false /\
                sent_between s (snd (callAnthropicText replies params s))
                  [CHAT_ANTHROPIC m (apiKey params);
                   CHAT_ANTHROPIC (resolveAnthropicModel m) (apiKey params)]))).
  { unfold callAnthropicText.
    destruct (callAnthropicText_body_steps replies
                (callAnthropicText_body replies no_further_call) params s)
      as [[Hs Ht] | (Hf & Hne & s1 & Hs & E)].
    - split; [exact Ht | now left].
    - fold m in Hne, Hs, E. rewrite E.
      destruct (@anthropic_retried replies no_further_call
                  (with_model (resolveAnthropicModel m) params) s1 eq_refl)
        as (Hs2 & Ht2 & _).
      split; [exact Ht2|]. right. split; [exact Hne|]. split; [exact Hf|].
      cbn [model apiKey with_model] in Hs2.
      rewrite (@or_str_named _ (lit (DEFAULT_MODELS ANTHROPIC))
                 (resolveAnthropicModel_named m)) in Hs2.
      apply (sent_trans Hs Hs2). }
  destruct H as [Ht Hs]. split; [exact Ht|]. split; [exact Hs|].
  split; [|exact Hnest].
  intros Hnorm. destruct Hs as [Hs | (Hne & _)]; [exact Hs|].
  exfalso. apply Hne. unfold resolveAnthropicModel. cbv zeta.
  rewrite Hnorm.
  assert (Hm : truthy m = true).
  { subst m. unfold or_str. destruct (truthy (model params)) eqn:E; auto. }
  now rewrite Hm.
Qed.

(** OpenAI: the call with both flags set, the calls with one, any call. *)
Lemma openai_both replies self params s :
  _retriedModel params = true -> _retryWithoutJsonMode params = true ->
  bounded_call (callOpenAIText_body replies self params) s 1 1 /\
  forall self',
    callOpenAIText_body replies self' params s
    = callOpenAIText_body replies self params s.
Proof.
  intros Hr Hj. split.
  - destruct (callOpenAIText_body_steps replies self params s)
      as [(lst & Hs & Hl & Hn & Ht) | [(Hf & _) | (Hf & _)]];
      [|congruence|congruence].
    destruct lst as [|x lst]; [|specialize (Hn ltac:(discriminate)); congruence].
    eapply bounded_direct; [exact Hs | exact Ht | |]; cbn; lia.
  - intros self'. unfold callOpenAIText_body. cbv zeta. unfold then_do.
    destruct (fetch replies _ s) as [[response|e] s1]; [|reflexivity].
    destruct (negb (ok response)); [|reflexivity].
    rewrite Hr, Hj. cbn [negb]. now rewrite !andb_false_r.
Qed.

Lemma openai_one replies self params s :
  _retriedModel params = true \/ _retryWithoutJsonMode params = true ->
  bounded_call
    (callOpenAIText_body replies (callOpenAIText_body replies self) params)
    s 2 3 /\
  (_retriedModel params = true ->
   bounded_call
     (callOpenAIText_body replies (callOpenAIText_body replies self) params)
     s 2 2) /\
  forall self',
    callOpenAIText_body replies (callOpenAIText_body replies self') params s
    = callOpenAIText_body replies (callOpenAIText_body replies self) params s.
Proof.
  intros Hflag.
  set (chat := CHAT_OPENAI (or_str (model params) (lit (DEFAULT_MODELS OPENAI)))
                 (apiKey params)
                 (jsonReply params && negb (_retryWithoutJsonMode params))).
  assert (Hb : forall total,
             (_retriedModel params = true \/ 3 <= total) -> 2 <= total ->
             bounded_call
               (callOpenAIText_body replies
                  (callOpenAIText_body replies self) params) s 2 total).
  { intros total Htot H2.
    destruct (callOpenAIText_body_steps replies
                (callOpenAIText_body replies self) params s)
      as [(lst & Hs & Hl & Hn & Ht)
         | [(Hf & s1 & lst & fallback & Hs & Hl & E)
           | (Hf & s1 & Hs & E)]]; fold chat in Hs.
    - destruct (@chat_first chat lst eq_refl Hl) as [H1 H3].
      eapply bounded_direct; [exact Hs | exact Ht | lia |].
      destruct lst as [|x lst]; [cbn; lia|].
      specialize (Hn ltac:(discriminate)).
      destruct Htot; [congruence | lia].
    - destruct (@chat_first chat lst eq_refl Hl) as [H1 H3].
      assert (Hj : _retryWithoutJsonMode params = true)
        by (destruct Hflag; congruence).
      eapply bounded_after; [exact Hs | exact E | | |].
      + apply openai_both; [reflexivity | exact Hj].
      + lia.
      + destruct Htot; [congruence | lia].
    - assert (Hr : _retriedModel params = true)
        by (destruct Hflag; congruence).
      eapply bounded_after; [exact Hs | exact E | | |].
      + apply openai_both; [exact Hr | reflexivity].
      + cbn. lia.
      + cbn. lia. }
  split; [apply Hb; [now right | lia]|].
  split; [intros Hr; apply Hb; [now left | lia]|].
  intros self'. unfold callOpenAIText_body at 1 3. cbv zeta. unfold then_do.
  destruct (fetch replies _ s) as [[response|e] s1]; [|reflexivity].
  destruct (negb (ok response)); [|reflexivity].
  assert (Hafter :
            forall s2,
              (if (status response =? 400)%Z
                  && (jsonReply params && negb (_retryWithoutJsonMode params))
                  && negb (_retryWithoutJsonMode params)
               then callOpenAIText_body replies self' (without_json_mode params)
               else api_error "OpenAI" response
                      (or_str (model params) (lit (DEFAULT_MODELS OPENAI)))) s2
              = (if (status response =? 400)%Z
                    && (jsonReply params && negb (_retryWithoutJsonMode params))
                    && negb (_retryWithoutJsonMode params)
                 then callOpenAIText_body replies self (without_json_mode params)
                 else api_error "OpenAI" response
                        (or_str (model params) (lit (DEFAULT_MODELS OPENAI)))) s2).
  { intros s2. destruct (_ && _ && negb (_retryWithoutJsonMode params)) eqn:E;
      [|reflexivity].
    apply andb_true_iff in E as [_ E]. apply negb_true_iff in E.
    apply openai_both; [cbn; destruct Hflag; congruence | reflexivity]. }
  destruct ((status response =? 404)%Z && negb (_retriedModel params)) eqn:E;
    [|apply Hafter].
  apply andb_true_iff in E as [_ E]. apply negb_true_iff in E.
  destruct (resolveOpenAIModel replies _ _ s1) as [[fallback|e] s2];
    [|reflexivity].
  destruct (truthy fallback && _); [|apply Hafter].
  apply openai_both; [reflexivity | cbn; destruct Hflag; congruence].
Qed.

Lemma openai_nest replies self params s :
  bounded_call
    (callOpenAIText_body replies
       (callOpenAIText_body replies (callOpenAIText_body replies self)) params)
    s 3 4 /\
  callOpenAIText_body replies
    (callOpenAIText_body replies (callOpenAIText_body replies self)) params s
  = callOpenAIText replies params s.
Proof.
  set (chat := CHAT_OPENAI (or_str (model params) (lit (DEFAULT_MODELS OPENAI)))
                 (apiKey params)
                 (jsonReply params && negb (_retryWithoutJsonMode params))).
  split.
  - destruct (callOpenAIText_body_steps replies
                (callOpenAIText_body replies (callOpenAIText_body replies self))
                params s)
      as [(lst & Hs & Hl & Hn & Ht)
         | [(Hf & s1 & lst & fallback & Hs & Hl & E)
           | (Hf & s1 & Hs & E)]]; fold chat in Hs.
    + destruct (@chat_first chat lst eq_refl Hl) as [H1 H3].
      eapply bounded_direct; [exact Hs | exact Ht | lia | lia].
    + destruct (@chat_first chat lst eq_refl Hl) as [H1 H3].
      destruct (@openai_one replies self (with_model fallback params) s1
                  (or_introl eq_refl)) as (_ & H22 & _).
      eapply bounded_after; [exact Hs | exact E | | |].
      * apply H22. reflexivity.
      * lia.
      * lia.
    + destruct (@openai_one replies self (without_json_mode params) s1
                  (or_intror eq_refl)) as (H23 & _).
      eapply bounded_after; [exact Hs | exact E | exact H23 | |].
      * cbn. lia.
      * cbn. lia.
  - unfold callOpenAIText, callOpenAIText_body at 1 4. cbv zeta.
    unfold then_do.
    destruct (fetch replies _ s) as [[response|e] s1]; [|reflexivity].
    destruct (negb (ok response)); [|reflexivity].
    assert (Hafter :
              forall s2,
                (if (status response =? 400)%Z
                    && (jsonReply params && negb (_retryWithoutJsonMode params))
                    && negb (_retryWithoutJsonMode params)
                 then callOpenAIText_body replies
                        (callOpenAIText_body replies self)
                        (without_json_mode params)
                 else api_error "OpenAI" response
                        (or_str (model params) (lit (DEFAULT_MODELS OPENAI)))) s2
                = (if (status response =? 400)%Z
                      && (jsonReply params && negb (_retryWithoutJsonMode params))
                      && negb (_retryWithoutJsonMode params)
                   then callOpenAIText_body replies
                          (callOpenAIText_body replies no_further_call)
                          (without_json_mode params)
                   else api_error "OpenAI" response
                          (or_str (model params) (lit (DEFAULT_MODELS OPENAI))))
                    s2).
    { intros s2. destruct (_ && _ && negb (_retryWithoutJsonMode params));
        [|reflexivity].
      apply openai_one. now right. }
    destruct ((status response =? 404)%Z && negb (_retriedModel params));
      [|apply Hafter].
    destruct (resolveOpenAIModel replies _ _ s1) as [[fallback|e] s2];
      [|reflexivity].
    destruct (truthy fallback && _); [|apply Hafter].
    apply openai_one. now left.
Qed.

(** X28.  A chat call to a provider sends a bounded number of requests,
    whatever the network answers: Gemini at most two chat requests and three
    requests with the model list, OpenAI at most three and four, Anthropic
    at most two.  What a call returns is non-empty trimmed text.  A call
    calls itself only with one more flag set, so the nests of two (Gemini)
    and three (OpenAI) calls are complete: one more level changes
    nothing. *)
Theorem chat_calls_are_bounded
  (replies : nat -> Await Response) (params : Params) (s : Net) :
  bounded_call (callGeminiText replies params) s 2 3 /\
  bounded_call (callOpenAIText replies params) s 3 4 /\
  bounded_call (callAnthropicText replies params) s 2 2 /\
  (forall self,
     callGeminiText_body replies (callGeminiText_body replies self) params s
     = callGeminiText replies params s) /\
  (forall self,
     callOpenAIText_body replies
       (callOpenAIText_body replies (callOpenAIText_body replies self))
       params s
     = callOpenAIText replies params s).
Proof.
  split; [apply (gemini_nest replies no_further_call)|].
  split; [apply (openai_nest replies no_further_call)|].
  split; [|split; intros self; [apply gemini_nest | apply openai_nest]].
  unfold callAnthropicText.
  destruct (callAnthropicText_body_steps replies
              (callAnthropicText_body replies no_further_call) params s)
    as [[Hs Ht] | (Hf & Hne & s1 & Hs & E)].
  - eapply bounded_direct; [exact Hs | exact Ht | |]; cbn; lia.
  - destruct (@anthropic_retried replies no_further_call
                (with_model
                   (resolveAnthropicModel
                      (or_str (model params) (lit (DEFAULT_MODELS ANTHROPIC))))
                   params) s1 eq_refl) as (Hs2 & Ht2 & _).
    eapply bounded_after; [exact Hs | exact E | | |].
    + eapply bounded_direct with (chats := 1) (total := 1);
        [exact Hs2 | exact Ht2 | |]; cbn; lia.
    + cbn. lia.
    + cbn. lia.
Qed.

(** ** The cache of model lists *)

Lemma cache_hit_serves cache key now :
  cache_apiKey cache = key -> cache_models cache <> [] ->
  (now - fetchedAt cache < MODEL_CACHE_TTL_MS)%Z ->
  cache_hit cache key now = true.
Proof.
  intros <- Hm Ht. unfold cache_hit.
  rewrite eqb_refl. cbn [andb].
  apply Z.ltb_lt in Ht. rewrite Ht. cbn [andb].
  destruct (cache_models cache); [congruence | reflexivity].
Qed.

Lemma cache_hit_fresh cache key now :
  cache_hit cache key now = true ->
  cache_apiKey cache = key /\ cache_models cache <> [].
Proof.
  unfold cache_hit. intros H.
  apply andb_true_iff in H as [H H3]. apply andb_true_iff in H as [H1 H2].
  apply eqb_eq in H1. split; [exact H1|].
  intros E. rewrite E in H3. discriminate.
Qed.

Lemma listGeminiModels_cached replies key s names s1 :
  listGeminiModels replies key s = (Returns names, s1) -> names <> [] ->
  cached (listGeminiModels replies) cacheGemini key s s1 names.
Proof.
  intros Hrun Hne.
  assert (H : cache_apiKey (cacheGemini s1) = key /\
              cache_models (cacheGemini s1) = names /\
              (cacheGemini s1 = cacheGemini s \/
               fetchedAt (cacheGemini s1) = time s)).
  { unfold listGeminiModels in Hrun.
    destruct (cache_hit (cacheGemini s) key (time s)) eqn:Eh.
    - injection Hrun as <- <-.
      apply cache_hit_fresh in Eh as (E1 & _). split; [exact E1|].
      split; [reflexivity | now left].
    - unfold then_do at 1, encodeURIComponent in Hrun.
      destruct (well_formed key); [|discriminate]. cbn [unit_] in Hrun.
      unfold then_do, fetch, wait, raise, member, gemini_names, unit_ in Hrun.
      destruct (outcome (replies _)) as [response|e]; net; [|discriminate].
      destruct (negb (ok response)).
      { destruct (outcome (text_ response)); net; discriminate. }
      destruct (outcome (json response)) as [data|e]; net; [|discriminate].
      destruct data; net; try discriminate;
        (destruct (find nullish _); [discriminate|]);
        injection Hrun as <- <-; net; (split; [reflexivity|]);
        (split; [reflexivity | now right]). }
  destruct H as (H1 & H2 & H3).
  split; [exact H1|]. split; [exact H2|]. split; [exact H3|].
  intros s2 Ec Ht. unfold listGeminiModels.
  rewrite cache_hit_serves; rewrite Ec; try assumption.
  - now rewrite H2.
  - now rewrite H2.
Qed.

Lemma listOpenAIModels_cached replies key s names s1 :
  listOpenAIModels replies key s = (Returns names, s1) -> names <> [] ->
  cached (listOpenAIModels replies) cacheOpenAI key s s1 names.
Proof.
  intros Hrun Hne.
  assert (H : cache_apiKey (cacheOpenAI s1) = key /\
              cache_models (cacheOpenAI s1) = names /\
              (cacheOpenAI s1 = cacheOpenAI s \/
               fetchedAt (cacheOpenAI s1) = time s)).
  { unfold listOpenAIModels in Hrun.
    destruct (cache_hit (cacheOpenAI s) key (time s)) eqn:Eh.
    - injection Hrun as <- <-.
      apply cache_hit_fresh in Eh as (E1 & _). split; [exact E1|].
      split; [reflexivity | now left].
    - unfold then_do, fetch, wait, raise, member, unit_ in Hrun.
      destruct (outcome (replies _)) as [response|e]; net; [|discriminate].
      destruct (negb (ok response)).
      { destruct (outcome (text_ response)); net; discriminate. }
      destruct (outcome (json response)) as [data|e]; net; [|discriminate].
      destruct data; net; try discriminate;
        injection Hrun as <- <-; net; (split; [reflexivity|]);
        (split; [reflexivity | now right]). }
  destruct H as (H1 & H2 & H3).
  split; [exact H1|]. split; [exact H2|]. split; [exact H3|].
  intros s2 Ec Ht. unfold listOpenAIModels.
  rewrite cache_hit_serves; rewrite Ec; try assumption.
  - now rewrite H2.
  - now rewrite H2.
Qed.

(** X29.  A model list that was obtained and is not empty is cached for its
    key: for the next 5 minutes, counted from the beginning of the call that
    fetched it, the same key is served the same names without a call of
    [fetch].  An empty list is never served from the cache, and neither is a
    list fetched for another key: the next call calls [fetch] once, except
    that [listGeminiModels] throws before it does when the key cannot be
    encoded for the address. *)
Theorem model_list_is_cached
  (replies : nat -> Await Response) (key : jstring) (s : Net) :
  (forall names s1,
     listGeminiModels replies key s = (Returns names, s1) -> names <> [] ->
     cached (listGeminiModels replies) cacheGemini key s s1 names) /\
  (forall names s1,
     listOpenAIModels replies key s = (Returns names, s1) -> names <> [] ->
     cached (listOpenAIModels replies) cacheOpenAI key s s1 names) /\
  (cache_models (cacheGemini s) = [] \/ cache_apiKey (cacheGemini s) <> key ->
   if well_formed key
   then sent_between s (snd (listGeminiModels replies key s)) [LIST_GEMINI key]
   else listGeminiModels replies key s = (Throws (lit "URI malformed"), s)) /\
  (cache_models (cacheOpenAI s) = [] \/ cache_apiKey (cacheOpenAI s) <> key ->
   sent_between s (snd (listOpenAIModels replies key s)) [LIST_OPENAI key]).
Proof.
  split; [intros names s1; apply listGeminiModels_cached|].
  split; [intros names s1; apply listOpenAIModels_cached|].
  split; intros H.
  - destruct (listGeminiModels_sent replies key s)
      as [[_ E] | [(E & _ & ->) | (E & _ & ->)]]; [|exact E|exact E].
    apply cache_hit_fresh in E as [E1 E2]. destruct H; contradiction.
  - destruct (listOpenAIModels_sent replies key s) as [[_ E] | [E _]];
      [|exact E].
    apply cache_hit_fresh in E as [E1 E2]. destruct H; contradiction.
Qed.

End ProviderFacts.
